(** * LibrdKafka statistics parser: loader, deduplication, time series, diagnostics

    A shallow embedding of [kafka_stats_parser.py] and the properties its
    specification states about it.

    Conventions of the embedding.
    - Python [dict]s keyed by strings are [gmap string _]; the [set]s of
      broker, topic and partition keys are [gset string].  The dictionary
      [seen_timestamps], whose [values()] are listed in insertion order, is
      an association list.
    - Python integers are [Z].  Values of a plotted series are [point]s: the
      Python [None], the gap marker [np.nan], or a number.  Numbers are exact
      rationals ([Q]); a Python float is the rounding of the rational the
      model computes, and rounding changes neither its sign nor whether it is
      zero.
    - [datetime.fromtimestamp] is the identity on epoch seconds.
    - The attributes of the four statistics classes have the types their
      docstrings declare. *)

From Stdlib Require Import ZArith QArith Qabs Qminmax Ascii String Lia.
From stdpp Require Import base option list sorting strings gmap.

Set Warnings "-register-all,-clear-no-such-hyp".
Local Open Scope Z_scope.

(** ** Decoded JSON values *)

(** What [json.loads] and [raw_decode] return: Python [None], [bool], [int],
    [str], [list] and [dict].  JSON numbers with a fraction or an exponent
    (Python floats) do not occur in the telemetry schema and are left out. *)
Inductive json : Type :=
  | JNull
  | JBool (b : bool)
  | JInt (z : Z)
  | JStr (s : string)
  | JList (l : list json)
  | JDict (d : gmap string json).

(** ** Outcomes of fallible code *)

Inductive exn : Type :=
  | AttributeError   (* [.get] or [.items] on a value that is not a dict *)
  | ValueError       (* [datetime.fromtimestamp] on a time whose year is
                        outside 1..9999 *)
  | OverflowError    (* the quotient of two integers is beyond the range of
                        a float *)
  | Unsupported.     (* an attribute holds a value of another type than the
                        class docstring declares: Python stores it as it is,
                        and what happens next depends on the use site *)

Inductive result (A : Type) : Type :=
  | Ok (a : A)
  | Raise (e : exn)
  | Diverges.
Arguments Ok {A} a.
Arguments Raise {A} e.
Arguments Diverges {A}.

(** Sequencing: the first exception aborts the rest. *)
Global Instance result_bind : MBind result := fun A B k r =>
  match r with
  | Ok a => k a
  | Raise e => Raise e
  | Diverges => Diverges
  end.

Global Instance result_fmap : FMap result := fun A B f r =>
  match r with
  | Ok a => Ok (f a)
  | Raise e => Raise e
  | Diverges => Diverges
  end.

(** [x.get(...)] and [x.items()] need [x] to be a dict. *)
Definition as_dict (v : json) : result (gmap string json) :=
  match v with
  | JDict d => Ok d
  | _ => Raise AttributeError
  end.

(** [d.get(k)] for an attribute declared [int]: absent and [null] are both
    Python's [None]. *)
Definition get_int (d : gmap string json) (k : string) : result (option Z) :=
  match d !! k with
  | None | Some JNull => Ok None
  | Some (JInt z) => Ok (Some z)
  | Some _ => Raise Unsupported
  end.

(** [d.get(k, dflt)] for an attribute declared [int]. *)
Definition get_int_default (d : gmap string json) (k : string) (dflt : Z)
  : result Z :=
  match d !! k with
  | None => Ok dflt
  | Some (JInt z) => Ok z
  | Some _ => Raise Unsupported
  end.

(** [d.get(k)] for an attribute declared [str]. *)
Definition get_str (d : gmap string json) (k : string)
  : result (option string) :=
  match d !! k with
  | None | Some JNull => Ok None
  | Some (JStr s) => Ok (Some s)
  | Some _ => Raise Unsupported
  end.

(** [d.get(k, {})]. *)
Definition get_or_empty (d : gmap string json) (k : string) : json :=
  default (JDict ∅) (d !! k).

(** A dict comprehension [{k: f(v) for k, v in d.items()}] with a fallible
    [f].  The entries are visited in the map's key order, not in Python's
    insertion order; the order only decides which of several failures is
    reported. *)
Definition dict_comprehension {A} (f : json -> result A)
    (d : gmap string json) : result (gmap string A) :=
  foldr (fun kv acc =>
           x ← f kv.2; m ← acc; Ok (<[kv.1 := x]> m))
        (Ok ∅) (map_to_list d).

(** ** The statistics classes *)

(** [class PartitionStats].  [partition] and [leader] are read without a
    default and may be [None]. *)
Record PartitionStats : Type := {
  pdata : json;
  partition : option Z;
  leader : option Z;
  consumer_lag : Z;
  consumer_lag_stored : Z;
  committed_offset : Z;
  stored_offset : Z;
  committed_leader_epoch : Z
}.

Definition PartitionStats_init (data : json) : result PartitionStats :=
  d ← as_dict data;
  v_partition ← get_int d "partition";
  v_leader ← get_int d "leader";
  v_lag ← get_int_default d "consumer_lag" (-1);
  v_lag_stored ← get_int_default d "consumer_lag_stored" (-1);
  v_committed ← get_int_default d "committed_offset" (-1001);
  v_stored ← get_int_default d "stored_offset" (-1001);
  v_epoch ← get_int_default d "committed_leader_epoch" (-1);
  Ok {| pdata := data; partition := v_partition; leader := v_leader;
        consumer_lag := v_lag; consumer_lag_stored := v_lag_stored;
        committed_offset := v_committed; stored_offset := v_stored;
        committed_leader_epoch := v_epoch |}.

(** [class TopicStats]. *)
Record TopicStats : Type := {
  tdata : json;
  topic : option string;
  partitions : gmap string PartitionStats
}.

Definition TopicStats_init (data : json) : result TopicStats :=
  d ← as_dict data;
  v_topic ← get_str d "topic";
  raw_parts ← as_dict (get_or_empty d "partitions");
  v_parts ← dict_comprehension PartitionStats_init raw_parts;
  Ok {| tdata := data; topic := v_topic; partitions := v_parts |}.

(** [class BrokerStats]. *)
Record BrokerStats : Type := {
  bdata : json;
  name : option string;
  source : option string;
  state : option string;
  connects : Z;
  disconnects : Z;
  rxbytes : Z;
  txbytes : Z;
  rxerrs : Z;
  txerrs : Z;
  req_timeouts : Z;
  rtt_avg : option Z;
  throttle_avg : option Z
}.

Definition BrokerStats_init (data : json) : result BrokerStats :=
  d ← as_dict data;
  v_name ← get_str d "name";
  v_source ← get_str d "source";
  v_state ← get_str d "state";
  v_connects ← get_int_default d "connects" 0;
  v_disconnects ← get_int_default d "disconnects" 0;
  v_rxbytes ← get_int_default d "rxbytes" 0;
  v_txbytes ← get_int_default d "txbytes" 0;
  v_rxerrs ← get_int_default d "rxerrs" 0;
  v_txerrs ← get_int_default d "txerrs" 0;
  v_req_timeouts ← get_int_default d "req_timeouts" 0;
  rtt ← as_dict (get_or_empty d "rtt");
  v_rtt_avg ← get_int rtt "avg";
  throttle ← as_dict (get_or_empty d "throttle");
  v_throttle_avg ← get_int throttle "avg";
  Ok {| bdata := data; name := v_name; source := v_source; state := v_state;
        connects := v_connects; disconnects := v_disconnects;
        rxbytes := v_rxbytes; txbytes := v_txbytes;
        rxerrs := v_rxerrs; txerrs := v_txerrs;
        req_timeouts := v_req_timeouts;
        rtt_avg := v_rtt_avg; throttle_avg := v_throttle_avg |}.

(** [class RdKafkaStats]: one snapshot. *)
Record RdKafkaStats : Type := {
  data : json;
  ts : option Z;
  time : option Z;
  type : option string;
  brokers : gmap string BrokerStats;
  topics : gmap string TopicStats
}.

Definition RdKafkaStats_init (v : json) : result RdKafkaStats :=
  d ← as_dict v;
  v_ts ← get_int d "ts";
  v_time ← get_int d "time";
  v_type ← get_str d "type";
  raw_brokers ← as_dict (get_or_empty d "brokers");
  v_brokers ← dict_comprehension BrokerStats_init raw_brokers;
  raw_topics ← as_dict (get_or_empty d "topics");
  v_topics ← dict_comprehension TopicStats_init raw_topics;
  Ok {| data := v; ts := v_ts; time := v_time; type := v_type;
        brokers := v_brokers; topics := v_topics |}.

(** ** Loader: sorting and deduplication *)

(** [list.sort(key=...)]: a stable ascending sort.  Insertion sort that puts
    an element before the first one whose key is not smaller is stable, and
    all stable sorts return the same list. *)
Section list_sort.
Context {A : Type} (key : A -> Z).

Fixpoint insert_sorted (x : A) (l : list A) : list A :=
  match l with
  | [] => [x]
  | y :: l' => if key x <=? key y then x :: l else y :: insert_sorted x l'
  end.

Definition list_sort (l : list A) : list A := foldr insert_sorted [] l.
End list_sort.

(** [lambda s: s.ts if s.ts is not None else 0] *)
Definition ts_key (s : RdKafkaStats) : Z := default 0 (ts s).
(** [lambda s: s.time if s.time is not None else 0] *)
Definition time_key (s : RdKafkaStats) : Z := default 0 (time s).

(** The loop over [topic_stats.partitions.items()]: a partition id the
    existing topic does not have is added, the others are left alone. *)
Definition merge_partitions (existing new : gmap string PartitionStats)
  : gmap string PartitionStats :=
  map_fold (fun part_id part_stats acc =>
              match acc !! part_id with
              | None => <[part_id := part_stats]> acc
              | Some _ => acc
              end) existing new.

Definition set_partitions (t : TopicStats) (ps : gmap string PartitionStats)
  : TopicStats :=
  {| tdata := tdata t; topic := topic t; partitions := ps |}.

(** The loop over [stat.topics.items()]. *)
Definition merge_topics (existing new : gmap string TopicStats)
  : gmap string TopicStats :=
  map_fold (fun topic_name topic_stats acc =>
              match acc !! topic_name with
              | None => <[topic_name := topic_stats]> acc
              | Some et =>
                  <[topic_name :=
                      set_partitions et
                        (merge_partitions (partitions et)
                                          (partitions topic_stats))]> acc
              end) existing new.

(** The loop over [stat.brokers.items()]. *)
Definition merge_brokers (existing new : gmap string BrokerStats)
  : gmap string BrokerStats :=
  map_fold (fun broker_name broker_stats acc =>
              match acc !! broker_name with
              | None => <[broker_name := broker_stats]> acc
              | Some _ => acc
              end) existing new.

(** The body of the branch [if stat.time in seen_timestamps]: [existing] is
    updated in place, only its two dictionaries change. *)
Definition merge_into (existing stat : RdKafkaStats) : RdKafkaStats :=
  {| data := data existing; ts := ts existing; time := time existing;
     type := type existing;
     brokers := merge_brokers (brokers existing) (brokers stat);
     topics := merge_topics (topics existing) (topics stat) |}.

(** [seen_timestamps]: a dict in insertion order. *)
Fixpoint seen_get (t : Z) (seen : list (Z * RdKafkaStats))
  : option RdKafkaStats :=
  match seen with
  | [] => None
  | (t', s) :: seen' => if decide (t = t') then Some s else seen_get t seen'
  end.

Fixpoint seen_set (t : Z) (s : RdKafkaStats) (seen : list (Z * RdKafkaStats))
  : list (Z * RdKafkaStats) :=
  match seen with
  | [] => [(t, s)]
  | (t', s') :: seen' =>
      if decide (t = t') then (t', s) :: seen'
      else (t', s') :: seen_set t s seen'
  end.

(** One iteration of [for stat in history]. *)
Definition dedup_step (seen : list (Z * RdKafkaStats)) (stat : RdKafkaStats)
  : list (Z * RdKafkaStats) :=
  match time stat with
  | Some t =>
      match seen_get t seen with
      | Some existing => seen_set t (merge_into existing stat) seen
      | None => seen_set t stat seen
      end
  | None => seen
  end.

Definition seen_timestamps (history : list RdKafkaStats)
  : list (Z * RdKafkaStats) :=
  foldl dedup_step [] (list_sort ts_key history).

(** The second half of [_load_stats], from [history.sort] to the end. *)
Definition deduplicate (history : list RdKafkaStats) : list RdKafkaStats :=
  let deduplicated := (seen_timestamps history).*2 in
  list_sort time_key deduplicated.

(** ** Loader: reading the file *)

(** [str.isspace] on the ASCII range, as [str.lstrip()] uses it. *)
Definition py_isspace (c : ascii) : bool :=
  let n := nat_of_ascii c in
  ((9 <=? n) && (n <=? 13) || (28 <=? n) && (n <=? 32))%nat.

Fixpoint lstrip (s : string) : string :=
  match s with
  | String c r => if py_isspace c then lstrip r else s
  | EmptyString => s
  end.

(** [s[n:]] *)
Fixpoint str_from (n : nat) (s : string) : string :=
  match n, s with
  | S n', String _ r => str_from n' r
  | _, _ => s
  end.

Abbreviation len := String.length.

Section load.
(** The two entry points of Python's [json] module the loader calls;
    [None] stands for [json.JSONDecodeError]. *)
Variable json_loads : string -> option json.
Variable raw_decode : string -> option (json * nat).

(** [for stats_json in stats_list: history.append(RdKafkaStats(stats_json))] *)
Fixpoint init_each (stats_list : list json) : result (list RdKafkaStats) :=
  match stats_list with
  | [] => Ok []
  | stats_json :: rest =>
      s ← RdKafkaStats_init stats_json;
      r ← init_each rest;
      Ok (s :: r)
  end.

(** The fallback [while pos < len(content)] loop.  Every iteration that
    does not leave the loop is counted against [fuel]; running out of it
    is [Diverges]. *)
Fixpoint extract (fuel : nat) (content : string) (pos : nat)
    (history : list RdKafkaStats) : result (list RdKafkaStats) :=
  match fuel with
  | O => Diverges
  | S fuel' =>
      if (pos <? len content)%nat then
        let content_stripped := lstrip (str_from pos content) in
        if decide (content_stripped = EmptyString) then Ok history
        else
          match raw_decode content_stripped with
          | Some (obj, read_len) =>
              s ← RdKafkaStats_init obj;
              extract fuel' content
                (pos + (len content_stripped
                        - len (str_from read_len content_stripped)))%nat
                (history ++ [s])
          | None => Ok history
          end
      else Ok history
  end.

(** The [try] block of [_load_stats]: the list [history] before sorting.
    The loop gets one unit of fuel per character and one more: enough
    whenever every decoded value is at least one character long. *)
Definition read_history (content : string) : result (list RdKafkaStats) :=
  match json_loads content with
  | Some (JList stats_list) => init_each stats_list
  | Some stats_json => s ← RdKafkaStats_init stats_json; Ok [s]
  | None => extract (S (len content)) content 0 []
  end.

(** [_load_stats]; the argument is the content of [self.stats_file], or
    [None] when opening it raises [FileNotFoundError]. *)
Definition _load_stats (file : option string)
  : result (list RdKafkaStats) :=
  match file with
  | None => Ok []
  | Some content =>
      history ← read_history content;
      Ok (deduplicate history)
  end.
End load.

(** ** A decoder for running the loader on concrete texts

    Python's [json] module is not part of the program.  The loader above
    takes its two entry points as parameters.  [PyJson] follows the scanner
    of the module ([json.scanner.py_make_scanner], [json.decoder]) on the
    part of JSON the telemetry uses: objects, arrays, strings, integers and
    the three literals.  It rejects what it does not cover (numbers with a
    fraction or an exponent, [NaN], [Infinity] and [\u] escapes), which
    Python accepts; it is used on concrete texts without them. *)
Module PyJson.

Definition dquote : ascii := "034"%char.
Definition backslash : ascii := "092"%char.

(** [WHITESPACE = ' \t\n\r'] *)
Definition json_ws (c : ascii) : bool :=
  (c =? " ")%char || (c =? "009")%char || (c =? "010")%char
  || (c =? "013")%char.

Fixpoint skip_ws (s : string) : string :=
  match s with
  | String c r => if json_ws c then skip_ws r else s
  | EmptyString => s
  end.

Definition digit (c : ascii) : option Z :=
  let n := nat_of_ascii c in
  if ((48 <=? n) && (n <=? 57))%nat then Some (Z.of_nat n - 48) else None.

Definition unescape (c : ascii) : option ascii :=
  if (c =? dquote)%char then Some dquote
  else if (c =? backslash)%char then Some backslash
  else if (c =? "/")%char then Some "/"%char
  else if (c =? "b")%char then Some "008"%char
  else if (c =? "f")%char then Some "012"%char
  else if (c =? "n")%char then Some "010"%char
  else if (c =? "r")%char then Some "013"%char
  else if (c =? "t")%char then Some "009"%char
  else None.

(** [scanstring], called after the opening quote; [acc] holds the
    characters read so far, last first. *)
Fixpoint scanstring (s : string) (acc : list ascii)
  : option (string * string) :=
  match s with
  | EmptyString => None
  | String c r =>
      if (c =? dquote)%char then
        Some (string_of_list_ascii (rev acc), r)
      else if (c =? backslash)%char then
        match r with
        | String e r' =>
            match unescape e with
            | Some ch => scanstring r' (ch :: acc)
            | None => None
            end
        | EmptyString => None
        end
      else if (nat_of_ascii c <? 32)%nat then None
      else scanstring r (c :: acc)
  end.

(** A run of digits, accumulated into a number. *)
Fixpoint scan_digits (s : string) (acc : Z) : Z * string :=
  match s with
  | String c r =>
      match digit c with
      | Some d => scan_digits r (10 * acc + d)
      | None => (acc, s)
      end
  | EmptyString => (acc, s)
  end.

Definition starts_with_digit (s : string) : bool :=
  match s with
  | String c _ => bool_decide (is_Some (digit c))
  | EmptyString => false
  end.

(** Whether the text after the integer part continues the number with
    a fraction (a dot and a digit) or an exponent ([e] or [E], an optional
    sign and a digit), which makes it a Python float. *)
Definition float_tail (s : string) : bool :=
  match s with
  | String c r =>
      if (c =? ".")%char then starts_with_digit r
      else if (c =? "e")%char || (c =? "E")%char then
        match r with
        | String c' r' =>
            if (c' =? "-")%char || (c' =? "+")%char
            then starts_with_digit r' else starts_with_digit r
        | EmptyString => false
        end
      else false
  | EmptyString => false
  end.

(** The integer part: a zero, or a nonzero digit and the digits after it. *)
Definition scan_natural (s : string) : option (Z * string) :=
  match s with
  | String c r =>
      match digit c with
      | Some 0 => Some (0, r)
      | Some d => Some (scan_digits r d)
      | None => None
      end
  | EmptyString => None
  end.

(** [NUMBER_RE], integers only. *)
Definition scan_number (s : string) : option (json * string) :=
  let '(neg, body) :=
    match s with
    | String c r => if (c =? "-")%char then (true, r) else (false, s)
    | EmptyString => (false, s)
    end in
  '(n, rest) ← scan_natural body;
  if float_tail rest then None
  else Some (JInt (if neg : bool then - n else n), rest).

(** The loop of [JSONObject], entered after the opening quote of a key. *)
Fixpoint scan_members (scan_once : string -> option (json * string))
    (n : nat) (s : string) (pairs : gmap string json)
  : option (json * string) :=
  match n with
  | O => None
  | S n' =>
      '(key, r) ← scanstring s [];
      match skip_ws r with
      | String c r1 =>
          if (c =? ":")%char then
            '(value, r2) ← scan_once (skip_ws r1);
            let pairs := <[key := value]> pairs in
            match skip_ws r2 with
            | String c2 r3 =>
                if (c2 =? "}")%char then Some (JDict pairs, r3)
                else if (c2 =? ",")%char then
                  match skip_ws r3 with
                  | String c3 r4 =>
                      if (c3 =? dquote)%char
                      then scan_members scan_once n' r4 pairs
                      else None
                  | EmptyString => None
                  end
                else None
            | EmptyString => None
            end
          else None
      | EmptyString => None
      end
  end.

(** The loop of [JSONArray], entered at the first element. *)
Fixpoint scan_elements (scan_once : string -> option (json * string))
    (n : nat) (s : string) (values : list json)
  : option (json * string) :=
  match n with
  | O => None
  | S n' =>
      '(value, r) ← scan_once s;
      let values := values ++ [value] in
      match skip_ws r with
      | String c r1 =>
          if (c =? "]")%char then Some (JList values, r1)
          else if (c =? ",")%char
          then scan_elements scan_once n' (skip_ws r1) values
          else None
      | EmptyString => None
      end
  end.

(** [_scan_once]; [depth] bounds the nesting. *)
Fixpoint scan_once (depth : nat) (s : string) : option (json * string) :=
  match depth with
  | O => None
  | S depth' =>
      match s with
      | EmptyString => None
      | String c r =>
          if (c =? dquote)%char then
            '(str, r') ← scanstring r []; Some (JStr str, r')
          else if (c =? "{")%char then
            match skip_ws r with
            | String c1 r1 =>
                if (c1 =? "}")%char then Some (JDict ∅, r1)
                else if (c1 =? dquote)%char
                then scan_members (scan_once depth') (len s) r1 ∅
                else None
            | EmptyString => None
            end
          else if (c =? "[")%char then
            match skip_ws r with
            | String c1 r1 =>
                if (c1 =? "]")%char then Some (JList [], r1)
                else scan_elements (scan_once depth') (len s)
                                   (skip_ws r) []
            | EmptyString => None
            end
          else if String.prefix "null" s then Some (JNull, str_from 4 s)
          else if String.prefix "true" s
          then Some (JBool true, str_from 4 s)
          else if String.prefix "false" s
          then Some (JBool false, str_from 5 s)
          else scan_number s
      end
  end.

(** [json.JSONDecoder().raw_decode(s)]: decodes a value at index 0 and
    returns it with the index where it ends. *)
Definition raw_decode (s : string) : option (json * nat) :=
  '(obj, rest) ← scan_once (S (len s)) s;
  Some (obj, (len s - len rest)%nat).

(** [json.loads(s)]: leading whitespace, one value, trailing whitespace,
    and nothing else. *)
Definition loads (s : string) : option json :=
  '(obj, rest) ← scan_once (S (len s)) (skip_ws s);
  if decide (skip_ws rest = EmptyString) then Some obj else None.

(** JSON text is written below with an apostrophe for each double
    quote. *)
Fixpoint text (s : string) : string :=
  match s with
  | String c r => String (if (c =? "'")%char then dquote else c) (text r)
  | EmptyString => EmptyString
  end.
End PyJson.

(** The loader of the program, run with this decoder. *)
Definition load_text (content : string) : result (list RdKafkaStats) :=
  _load_stats PyJson.loads PyJson.raw_decode (Some content).

(** ** Time series *)

(** A value of a series. *)
Inductive point : Type :=
  | PyNone          (* Python's [None] *)
  | NaN             (* [np.nan], the gap marker *)
  | Num (q : Q).

Definition num (z : Z) : point := Num (inject_Z z).

(** The per-broker entry of [data['brokers']]. *)
Module b_data.
Record t : Type := {
  rtt : list point;
  state : list point;
  throttle : list point;
  connects : list point;
  disconnects : list point;
  rx_rate : list point;
  tx_rate : list point;
  rxerrs : list point;
  txerrs : list point;
  last_rxbytes : option Z;
  last_txbytes : option Z
}.
Definition init : t :=
  {| rtt := []; state := []; throttle := []; connects := [];
     disconnects := []; rx_rate := []; tx_rate := []; rxerrs := [];
     txerrs := []; last_rxbytes := None; last_txbytes := None |}.
End b_data.

(** The per-partition entry of [data['topics'][t]]. *)
Module p_data.
Record t : Type := {
  lag : list point;
  lag_stored : list point;
  committed : list point;
  stored : list point;
  leader_epoch : list point;
  leader_last : option Z
}.
Definition init : t :=
  {| lag := []; lag_stored := []; committed := []; stored := [];
     leader_epoch := []; leader_last := None |}.
End p_data.

(** The dictionary [_get_time_series_data] returns. *)
Module Data.
Record t : Type := {
  timestamps : list Z;
  client_type : option string;
  brokers : gmap string b_data.t;
  topics : gmap string (gmap string p_data.t)
}.
End Data.

(** [plottable_stats]: the snapshots whose [time] is not [None], each with
    that time. *)
Definition plottable_stats (stats_history : list RdKafkaStats)
  : list (Z * RdKafkaStats) :=
  omap (fun s => t ← time s; Some (t, s)) stats_history.

(** [f"{t_name}-{p_id}"] *)
Definition partition_key (t_name p_id : string) : string :=
  t_name +:+ "-" +:+ p_id.

(** The three [set]s of keys, one snapshot at a time. *)
Definition add_broker_keys (s : RdKafkaStats) (keys : gset string)
  : gset string :=
  map_fold (fun b_name b_stats keys =>
              if decide (source b_stats ≠ Some "logical")
              then {[b_name]} ∪ keys else keys) keys (brokers s).

Definition add_topic_keys (s : RdKafkaStats) (keys : gset string)
  : gset string :=
  map_fold (fun t_name _ keys => {[t_name]} ∪ keys) keys (topics s).

Definition add_partition_keys (s : RdKafkaStats) (keys : gset string)
  : gset string :=
  map_fold (fun t_name t_stats keys =>
    map_fold (fun p_id p_stats keys =>
                if decide (partition p_stats ≠ Some (-1))
                then {[partition_key t_name p_id]} ∪ keys else keys)
             keys (partitions t_stats)) keys (topics s).

Definition all_broker_keys (plottable : list (Z * RdKafkaStats))
  : gset string := foldl (fun keys ts => add_broker_keys ts.2 keys) ∅ plottable.
Definition all_topic_keys (plottable : list (Z * RdKafkaStats))
  : gset string := foldl (fun keys ts => add_topic_keys ts.2 keys) ∅ plottable.
Definition all_partition_keys (plottable : list (Z * RdKafkaStats))
  : gset string :=
  foldl (fun keys ts => add_partition_keys ts.2 keys) ∅ plottable.

(** [state_map.get(broker.state, np.nan)] *)
Definition state_map (st : option string) : point :=
  match st with
  | Some s =>
      if decide (s = "UP") then num 1
      else if decide (s = "INIT") then num 0
      else if decide (s = "DOWN") then num (-1)
      else NaN
  | None => NaN
  end.

(** [x / 1000 if broker and x is not None else np.nan] *)
Definition millis (broker : option BrokerStats)
    (field : BrokerStats -> option Z) : point :=
  match broker with
  | Some b =>
      match field b with
      | Some x => Num (inject_Z x / 1000)
      | None => NaN
      end
  | None => NaN
  end.

(** [broker.x if broker else np.nan] *)
Definition counter (broker : option BrokerStats)
    (field : BrokerStats -> Z) : point :=
  match broker with
  | Some b => num (field b)
  | None => NaN
  end.

(** [current - last if last is not None and current >= last else 0] *)
Definition counter_delta (last : option Z) (current : Z) : Z :=
  match last with
  | Some previous => if previous <=? current then current - previous else 0
  | None => 0
  end.

(** [delta / time_delta / (1024*1024)] *)
Definition rate (delta time_delta : Z) : point :=
  Num (inject_Z delta / inject_Z time_delta / inject_Z (1024 * 1024)).

(** [stats.time - last_time if last_time and stats.time > last_time else 1] *)
Definition time_delta_of (last_time stats_time : Z) : Z :=
  if negb (last_time =? 0) && (last_time <? stats_time)
  then stats_time - last_time else 1.

(** The body of [for b_key in all_broker_keys], on the entry of [b_key]. *)
Definition update_b_data (broker : option BrokerStats) (time_delta : Z)
    (b : b_data.t) : b_data.t :=
  let current_rx := match broker with Some bs => rxbytes bs | None => 0 end in
  let rx_delta := counter_delta (b_data.last_rxbytes b) current_rx in
  let current_tx := match broker with Some bs => txbytes bs | None => 0 end in
  let tx_delta := counter_delta (b_data.last_txbytes b) current_tx in
  {| b_data.rtt := b_data.rtt b ++ [millis broker rtt_avg];
     b_data.state :=
       b_data.state b
       ++ [match broker with Some bs => state_map (state bs) | None => NaN end];
     b_data.throttle := b_data.throttle b ++ [millis broker throttle_avg];
     b_data.connects := b_data.connects b ++ [counter broker connects];
     b_data.disconnects :=
       b_data.disconnects b ++ [counter broker disconnects];
     b_data.rx_rate := b_data.rx_rate b ++ [rate rx_delta time_delta];
     b_data.tx_rate := b_data.tx_rate b ++ [rate tx_delta time_delta];
     b_data.rxerrs := b_data.rxerrs b ++ [counter broker rxerrs];
     b_data.txerrs := b_data.txerrs b ++ [counter broker txerrs];
     b_data.last_rxbytes := Some current_rx;
     b_data.last_txbytes := Some current_tx |}.

(** [p_key.rsplit('-', 1)]: the text before and after the last dash. *)
Fixpoint rsplit_dash (s : string) : option (string * string) :=
  match s with
  | EmptyString => None
  | String c r =>
      match rsplit_dash r with
      | Some (before, after) => Some (String c before, after)
      | None => if (c =? "-")%char then Some (EmptyString, r) else None
      end
  end.

(** [part.x if part else np.nan] *)
Definition part_value (part : option PartitionStats)
    (field : PartitionStats -> Z) : point :=
  match part with
  | Some p => num (field p)
  | None => NaN
  end.

(** The body of [for p_key in data['topics'][t_key]], on the entry of
    [p_key].  Unpacking the result of [rsplit] raises when the key has no
    dash; every key is built by [partition_key] and has one. *)
Definition update_p_data (topic_stats : option TopicStats) (p_key : string)
    (p : p_data.t) : p_data.t :=
  match rsplit_dash p_key with
  | None => p
  | Some (_, p_id_str) =>
      let part := topic ← topic_stats; partitions topic !! p_id_str in
      {| p_data.lag := p_data.lag p ++ [part_value part consumer_lag];
         p_data.lag_stored :=
           p_data.lag_stored p ++ [part_value part consumer_lag_stored];
         p_data.committed :=
           p_data.committed p ++ [part_value part committed_offset];
         p_data.stored := p_data.stored p ++ [part_value part stored_offset];
         p_data.leader_epoch :=
           p_data.leader_epoch p
           ++ [part_value part committed_leader_epoch];
         p_data.leader_last :=
           match part with
           | Some pt =>
               match leader pt with
               | Some l => if decide (l ≠ -1) then Some l
                           else p_data.leader_last p
               | None => p_data.leader_last p
               end
           | None => p_data.leader_last p
           end |}
  end.

(** The loop state: [data['brokers']], [data['topics']] and [last_time]. *)
Record loop_state : Type := {
  st_brokers : gmap string b_data.t;
  st_topics : gmap string (gmap string p_data.t);
  last_time : Z
}.

(** One iteration of [for stats in plottable_stats]. *)
Definition series_step (broker_keys topic_keys : gset string)
    (st : loop_state) (stats : Z * RdKafkaStats) : loop_state :=
  let '(stats_time, s) := stats in
  let time_delta := time_delta_of (last_time st) stats_time in
  {| st_brokers :=
       set_fold (fun b_key m =>
                   alter (update_b_data (brokers s !! b_key) time_delta)
                         b_key m)
                (st_brokers st) broker_keys;
     st_topics :=
       set_fold (fun t_key m =>
                   alter (map_imap (fun p_key p =>
                            Some (update_p_data (topics s !! t_key) p_key p)))
                         t_key m)
                (st_topics st) topic_keys;
     last_time := stats_time |}.

(** [_get_time_series_data], on [self.stats_history]: what the function
    returns on a run in which no library call raises.  The exceptions of
    [datetime.fromtimestamp] and of the divisions are added by
    [get_time_series_data] below. *)
Definition _get_time_series_data (stats_history : list RdKafkaStats)
  : option Data.t :=
  if (length stats_history <? 2)%nat then None
  else
    let plottable := plottable_stats stats_history in
    let broker_keys := all_broker_keys plottable in
    let topic_keys := all_topic_keys plottable in
    let partition_keys := all_partition_keys plottable in
    let init :=
      {| st_brokers := gset_to_gmap b_data.init broker_keys;
         st_topics :=
           set_to_map (fun t =>
             (t, gset_to_gmap p_data.init
                   (filter (fun p => String.prefix t p = true)
                           partition_keys)))
             topic_keys;
         last_time := match plottable with
                      | (t, _) :: _ => t
                      | [] => 0
                      end |} in
    let final := foldl (series_step broker_keys topic_keys) init plottable in
    Some {| Data.timestamps := plottable.*1;
            Data.client_type := match plottable with
                                | (_, s) :: _ => type s
                                | [] => Some "unknown"
                                end;
            Data.brokers := st_brokers final;
            Data.topics := st_topics final |}.

(** ** Series diagnostics *)

(** [v == -1 or v == -1001] *)
Definition is_sentinel (v : point) : bool :=
  match v with
  | Num q => Qeq_bool q (-1) || Qeq_bool q (-1001)
  | PyNone | NaN => false
  end.

(** [v is not None and not np.isnan(v) and v != -1 and v != -1001] *)
Definition is_valid (v : point) : bool :=
  match v with
  | Num q => negb (Qeq_bool q (-1)) && negb (Qeq_bool q (-1001))
  | PyNone | NaN => false
  end.

(** [[i for i, v in enumerate(values) if ...]] *)
Definition valid_idx (values : list point) : list nat :=
  (filter (fun iv => is_valid iv.2 = true) (imap pair values)).*1.

Definition point_value (v : point) : option Q :=
  match v with
  | Num q => Some q
  | PyNone | NaN => None
  end.

(** [np.min] and [np.max] of a list of numbers, [None] on the empty list
    (where the program does not call them). *)
Definition np_min (vals : list Q) : option Q :=
  match vals with
  | [] => None
  | v :: rest => Some (foldl Qmin v rest)
  end.
Definition np_max (vals : list Q) : option Q :=
  match vals with
  | [] => None
  | v :: rest => Some (foldl Qmax v rest)
  end.

(** [np.allclose(a, b)] with its default tolerances:
    [|a - b| <= 1e-8 + 1e-5 * |b|]. *)
Definition allclose (a b : Q) : bool :=
  Qle_bool (Qabs (a - b)) ((1 # 100000000) + (1 # 100000) * Qabs b).

(** The entry [_series_stats] computes for one series. *)
Module stat.
Record t : Type := {
  total : nat;
  valid : nat;
  first_idx : option nat;
  last_idx : option nat;
  min : option Q;
  max : option Q;
  constant : option bool;
  not_assigned : nat
}.
End stat.

(** The body of the loop of [_series_stats]. *)
Definition series_stats (values : list point) : stat.t :=
  let total := length values in
  let not_assigned_count :=
    length (filter (fun v => is_sentinel v = true) values) in
  let idx := valid_idx values in
  let valid := length idx in
  if decide (valid ≠ O) then
    let vals := omap (fun i => v ← values !! i; point_value v) idx in
    let vmin := np_min vals in
    let vmax := np_max vals in
    {| stat.total := total; stat.valid := valid;
       stat.first_idx := head idx; stat.last_idx := last idx;
       stat.min := vmin; stat.max := vmax;
       stat.constant := a ← vmin; b ← vmax; Some (allclose a b);
       stat.not_assigned := not_assigned_count |}
  else
    {| stat.total := total; stat.valid := O;
       stat.first_idx := None; stat.last_idx := None;
       stat.min := None; stat.max := None; stat.constant := None;
       stat.not_assigned := not_assigned_count |}.

Definition _series_stats (data_map : gmap string (list point))
  : gmap string stat.t := series_stats <$> data_map.

(** A cell of the CSV file [_write_plot_debug] writes. *)
Inductive cell : Type :=
  | EmptyCell                (* the empty string *)
  | NotAssignedCell          (* the text [Not Assigned] *)
  | ValueCell (q : Q).       (* [str(v)] *)

Definition csv_cell (v : point) : cell :=
  match v with
  | PyNone | NaN => EmptyCell
  | Num q => if is_sentinel v then NotAssignedCell else ValueCell q
  end.

(** The three forms of a line of the summary file. *)
Inductive summary_line : Type :=
  | AllNotAssigned (points : nat)
      (* [- k: All n points = Not Assigned] *)
  | WithNotAssigned (s : stat.t)
      (* [total=, valid=, not_assigned=, first_idx=, ..., constant=] *)
  | Plain (s : stat.t).
      (* [total=, valid=, first_idx=, ..., constant=] *)

Definition summary (values : list point) : summary_line :=
  let s := series_stats values in
  if decide (stat.not_assigned s = length values)
  then AllNotAssigned (length values)
  else if decide ((0 < stat.not_assigned s)%nat ∧ (0 < stat.valid s)%nat)
  then WithNotAssigned s
  else Plain s.

(** The console hints at the end of [_write_plot_debug]. *)
Inductive hint : Type :=
  | FewValidPoints (valid : nat)   (* [has only n valid point(s)] *)
  | ConstantSeries (value : Q)     (* [is constant at v (flat line)] *)
  | NoHint.

Definition console_hint (s : stat.t) : hint :=
  if decide (stat.valid s < 2)%nat then FewValidPoints (stat.valid s)
  else
    match stat.constant s, stat.min s with
    | Some true, Some m => ConstantSeries m
    | _, _ => NoHint
    end.

(** What [_write_plot_debug] reports for each series of a plot: its line
    of the summary file and its console hint.  The order of the lines
    (sorted by key) and the file names are left out. *)
Definition _write_plot_debug (data_map : gmap string (list point))
  : gmap string (summary_line * hint) :=
  (fun values => (summary values, console_hint (series_stats values)))
    <$> data_map.

(** ** Notions the properties are stated with *)

(** The order a sort by [key] establishes. *)
Definition key_le {A : Type} (key : A -> Z) (a b : A) : Prop :=
  key a <= key b.

(** The snapshots of a list that carry the time [t], in the order of the
    list. *)
Definition same_time (t : Z) (l : list RdKafkaStats) : list RdKafkaStats :=
  filter (fun s => time s = Some t) l.

(** Every anchor is filed under its own time, and no time has two entries. *)
Definition seen_ok (seen : list (Z * RdKafkaStats)) : Prop :=
  NoDup seen.*1 ∧ ∀ t s, (t, s) ∈ seen -> time s = Some t.

(** The snapshots a JSON array denotes, for stating examples. *)
Definition snapshots (content : string) : list RdKafkaStats :=
  match PyJson.loads (PyJson.text content) with
  | Some (JList stats_list) =>
      match init_each stats_list with
      | Ok history => history
      | _ => []
      end
  | _ => []
  end.

(** The scenario of the specification: two objects with [time] 100, the
    second immediately after the first. *)
Definition fragmented_snapshot : string :=
  PyJson.text
    ("{'ts':1,'time':100,'type':'consumer',"
     +:+ "'brokers':{'b1/bootstrap':{'source':'logical'}},'topics':{}}"
     +:+ "{'ts':2,'time':100,'type':'consumer','brokers':{},"
     +:+ "'topics':{'t1':{'partitions':{'0':{'partition':0,'consumer_lag':5}}}}}").

(** ** One entity at a time

    The loop of [_get_time_series_data] updates the entries of all brokers
    and partitions in step.  The functions below follow a single entry
    through the iterations; the properties are stated with them. *)

(** What the iterations over [l] do to the entry of the broker [b_key];
    [last] is [last_time] when they start. *)
Fixpoint run_broker (b_key : string) (last : Z)
    (l : list (Z * RdKafkaStats)) (b : b_data.t) : b_data.t :=
  match l with
  | [] => b
  | (stats_time, s) :: l' =>
      run_broker b_key stats_time l'
        (update_b_data (brokers s !! b_key) (time_delta_of last stats_time) b)
  end.

(** What they do to the entry [p_key] of the topic [t_key]. *)
Definition run_partition (t_key p_key : string)
    (l : list (Z * RdKafkaStats)) (p : p_data.t) : p_data.t :=
  foldl (fun p stats => update_p_data (topics stats.2 !! t_key) p_key p) p l.

(** [broker.rxbytes if broker else 0], and the same for [txbytes]. *)
Definition current_counter (field : BrokerStats -> Z)
    (broker : option BrokerStats) : Z :=
  match broker with Some bs => field bs | None => 0 end.

(** The rates the iterations over [l] append for the broker [b_key], when
    they start with the last-seen counter [last] and [last_time]. *)
Fixpoint rates (field : BrokerStats -> Z) (b_key : string) (last_time : Z)
    (last : option Z) (l : list (Z * RdKafkaStats)) : list point :=
  match l with
  | [] => []
  | (stats_time, s) :: l' =>
      let current := current_counter field (brokers s !! b_key) in
      rate (counter_delta last current) (time_delta_of last_time stats_time)
      :: rates field b_key stats_time (Some current) l'
  end.

(** A number that is not negative. *)
Definition nonnegative (v : point) : Prop :=
  match v with
  | Num q => (0 <= q)%Q
  | PyNone | NaN => False
  end.

(** [plottable_stats[0].time if plottable_stats else 0] *)
Definition first_time (plottable : list (Z * RdKafkaStats)) : Z :=
  match plottable with
  | (t, _) :: _ => t
  | [] => 0
  end.

(** What the loader returns for a text, for stating examples; the empty
    list when it raises. *)
Definition loaded (content : string) : list RdKafkaStats :=
  match load_text (PyJson.text content) with
  | Ok retained => retained
  | _ => []
  end.

(** A broker whose receive counter restarts between two snapshots. *)
Definition counter_reset : list RdKafkaStats :=
  loaded ("{'time':100,'brokers':{'b1':{'rxbytes':500,'txbytes':10}}}"
          +:+ "{'time':130,'brokers':{'b1':{'rxbytes':200,'txbytes':70}}}").

(** The scenario of the specification: broker [b1] reports 1,000,000 and
    then 2,048,000 received bytes, 60 seconds apart. *)
Definition two_point_rx : list RdKafkaStats :=
  loaded ("{'time':100,'brokers':{'b1':{'rxbytes':1000000}}}"
          +:+ "{'time':160,'brokers':{'b1':{'rxbytes':2048000}}}").

(** What the iterations over [l] do to the entry of the topic [t_key]. *)
Definition run_topic (t_key : string) (l : list (Z * RdKafkaStats))
    (pm : gmap string p_data.t) : gmap string p_data.t :=
  foldl (fun pm stats =>
           map_imap (fun p_key p =>
             Some (update_p_data (topics stats.2 !! t_key) p_key p)) pm)
        pm l.

(** [data['topics'][t]] before the loop. *)
Definition initial_topic (t : string) (partition_keys : gset string)
  : gmap string p_data.t :=
  gset_to_gmap p_data.init
    (filter (fun p => String.prefix t p = true) partition_keys).

Fixpoint contains_dash (s : string) : bool :=
  match s with
  | EmptyString => false
  | String c r => (c =? "-")%char || contains_dash r
  end.

(** The partition [p] of the topic [t] is in the universe: some snapshot
    has it with a [partition] field other than -1. *)
Definition observed (t p : string) (plottable : list (Z * RdKafkaStats))
  : Prop :=
  ∃ x tst ps, x ∈ plottable ∧ topics x.2 !! t = Some tst
              ∧ partitions tst !! p = Some ps ∧ partition ps ≠ Some (-1).

(** [topic.partitions.get(p) if topic else None] in the snapshot [s]. *)
Definition partition_of (s : RdKafkaStats) (t p : string)
  : option PartitionStats :=
  tst ← topics s !! t; partitions tst !! p.

(** A broker that is missing from the second of three snapshots. *)
Definition broker_disappears : list RdKafkaStats :=
  loaded ("{'time':100,'brokers':{'b1':{'rxbytes':500},'b2':{}}}"
          +:+ "{'time':130,'brokers':{'b2':{}}}"
          +:+ "{'time':160,'brokers':{'b1':{'rxbytes':900},'b2':{}}}").

(** A topic whose partition ids are [1-2] in the first snapshot and [2] in
    the second. *)
Definition dashed_partition : list RdKafkaStats :=
  loaded ("{'time':100,'topics':{'t':{'partitions':"
          +:+ "{'1-2':{'partition':0,'consumer_lag':4}}}}}"
          +:+ "{'time':130,'topics':{'t':{'partitions':"
          +:+ "{'2':{'partition':2,'consumer_lag':9}}}}}").

(** A partition that is missing from the second of two snapshots. *)
Definition partition_disappears : list RdKafkaStats :=
  loaded ("{'time':100,'topics':{'t':{'partitions':"
          +:+ "{'0':{'partition':0,'consumer_lag':4}}}}}"
          +:+ "{'time':130,'topics':{'t':{'partitions':{}}}}").

(** Every series of the entry has [n] values. *)
Definition broker_aligned (n : nat) (b : b_data.t) : Prop :=
  length (b_data.rtt b) = n ∧ length (b_data.state b) = n
  ∧ length (b_data.throttle b) = n ∧ length (b_data.connects b) = n
  ∧ length (b_data.disconnects b) = n ∧ length (b_data.rx_rate b) = n
  ∧ length (b_data.tx_rate b) = n ∧ length (b_data.rxerrs b) = n
  ∧ length (b_data.txerrs b) = n.

Definition partition_aligned (n : nat) (p : p_data.t) : Prop :=
  length (p_data.lag p) = n ∧ length (p_data.lag_stored p) = n
  ∧ length (p_data.committed p) = n ∧ length (p_data.stored p) = n
  ∧ length (p_data.leader_epoch p) = n.

(** Three snapshots as a text, separated by [sep]. *)
Definition newline : string := String "010"%char EmptyString.

Definition three_objects (sep : string) : string :=
  PyJson.text ("{'time':1}" +:+ sep +:+ "{'time':2}" +:+ sep +:+ "{'time':3}").

(** The [time] attributes of what the loader returns for a text. *)
Definition loaded_times (content : string) : result (list (option Z)) :=
  (fun retained : list RdKafkaStats => time <$> retained)
    <$> load_text content.

(** ** The builder with the exceptions of its library calls

    [_get_time_series_data] above is the dictionary the function computes
    on a run in which no library call raises.  Two calls can raise:
    [datetime.fromtimestamp], on a time the platform cannot turn into a
    date, and the true division of two integers, when the quotient is
    beyond the range of a float. *)

(** [a / b] on two integers, [b] not zero, raises [OverflowError] when the
    quotient, rounded to the nearest double, is beyond the largest double:
    when it is at least [2^1024 - 2^970] in absolute value. *)
Definition division_overflows (a b : Z) : bool :=
  (2 ^ 1024 - 2 ^ 970) * Z.abs b <=? Z.abs a.

(** Whether the body of [for b_key in all_broker_keys] raises
    [OverflowError] on the entry [b]: its four divisions of integers (the
    division of the rate by [1024*1024] is one of floats). *)
Definition update_overflows (broker : option BrokerStats) (time_delta : Z)
    (b : b_data.t) : bool :=
  let average_overflows (field : BrokerStats -> option Z) :=
    match broker with
    | Some bs =>
        match field bs with
        | Some x => division_overflows x 1000
        | None => false
        end
    | None => false
    end in
  let current_rx := match broker with Some bs => rxbytes bs | None => 0 end in
  let rx_delta := counter_delta (b_data.last_rxbytes b) current_rx in
  let current_tx := match broker with Some bs => txbytes bs | None => 0 end in
  let tx_delta := counter_delta (b_data.last_txbytes b) current_tx in
  average_overflows rtt_avg || average_overflows throttle_avg
  || division_overflows rx_delta time_delta
  || division_overflows tx_delta time_delta.

(** Whether one iteration of [for stats in plottable_stats] raises. *)
Definition step_overflows (broker_keys : gset string) (st : loop_state)
    (stats : Z * RdKafkaStats) : bool :=
  let '(stats_time, s) := stats in
  let time_delta := time_delta_of (last_time st) stats_time in
  existsb (fun b_key =>
             match st_brokers st !! b_key with
             | Some b => update_overflows (brokers s !! b_key) time_delta b
             | None => false
             end)
          (elements broker_keys).

(** Whether the loop raises, from the state [st] on. *)
Fixpoint run_overflows (broker_keys topic_keys : gset string)
    (st : loop_state) (l : list (Z * RdKafkaStats)) : bool :=
  match l with
  | [] => false
  | stats :: l' =>
      step_overflows broker_keys st stats
      || run_overflows broker_keys topic_keys
           (series_step broker_keys topic_keys st stats) l'
  end.

(** [data] and [last_time] before the loop. *)
Definition initial_state (plottable : list (Z * RdKafkaStats)) : loop_state :=
  {| st_brokers := gset_to_gmap b_data.init (all_broker_keys plottable);
     st_topics :=
       set_to_map (fun t =>
         (t, gset_to_gmap p_data.init
               (filter (fun p => String.prefix t p = true)
                       (all_partition_keys plottable))))
         (all_topic_keys plottable);
     last_time := match plottable with
                  | (t, _) :: _ => t
                  | [] => 0
                  end |}.

(** [[datetime.fromtimestamp(s.time) for s in plottable_stats]]: the
    exception of the first time that has one.  [fromtimestamp_error] tells
    which exception the platform raises for a time, if any. *)
Fixpoint timestamps_error (fromtimestamp_error : Z -> option exn)
    (times : list Z) : option exn :=
  match times with
  | [] => None
  | t :: rest =>
      match fromtimestamp_error t with
      | Some e => Some e
      | None => timestamps_error fromtimestamp_error rest
      end
  end.

(** [_get_time_series_data] as it runs: what it returns, or the exception
    that leaves it. *)
Definition get_time_series_data (fromtimestamp_error : Z -> option exn)
    (stats_history : list RdKafkaStats) : result (option Data.t) :=
  if (length stats_history <? 2)%nat then Ok None
  else
    let plottable := plottable_stats stats_history in
    match timestamps_error fromtimestamp_error plottable.*1 with
    | Some e => Raise e
    | None =>
        if run_overflows (all_broker_keys plottable)
             (all_topic_keys plottable) (initial_state plottable) plottable
        then Raise OverflowError
        else Ok (_get_time_series_data stats_history)
    end.

(** [datetime.fromtimestamp] where local time is UTC: the year must be in
    1..9999.  (Times beyond what the C library converts are reported as
    [OverflowError] or [OSError] instead; the examples have none.) *)
Definition utc_fromtimestamp_error (t : Z) : option exn :=
  if (-62135596800 <=? t) && (t <=? 253402300799) then None
  else Some ValueError.

(** A counter or an average far inside the range of a float. *)
Definition small (z : Z) : Prop := Z.abs z < 2 ^ 1000.

(** The counters and averages of a broker, and of all brokers of a
    snapshot, are small. *)
Definition small_broker (bs : BrokerStats) : Prop :=
  small (rxbytes bs) ∧ small (txbytes bs)
  ∧ from_option small True (rtt_avg bs)
  ∧ from_option small True (throttle_avg bs).

Definition small_counters (s : RdKafkaStats) : Prop :=
  map_Forall (fun _ bs => small_broker bs) (brokers s).

(** The counters the loop remembers are small. *)
Definition small_state (st : loop_state) : Prop :=
  ∀ b bd, st_brokers st !! b = Some bd ->
    from_option small True (b_data.last_rxbytes bd)
    ∧ from_option small True (b_data.last_txbytes bd).

(** ** The state of the loop at an index *)

(** [b_data['last_rxbytes']] (or [last_txbytes]) when the iteration of
    index [i] starts: [None] at the first index, then the counter read at
    the index before, 0 for a broker that snapshot does not have. *)
Definition last_counter (field : BrokerStats -> Z) (b_key : string)
    (plottable : list (Z * RdKafkaStats)) (i : nat) : option Z :=
  match i with
  | O => None
  | S j =>
      (fun y => current_counter field (brokers y.2 !! b_key))
        <$> plottable !! j
  end.

(** [time_delta] in the iteration of index [i], whose snapshot has the
    time [stats_time]. *)
Definition time_delta_at (plottable : list (Z * RdKafkaStats)) (i : nat)
    (stats_time : Z) : Z :=
  time_delta_of
    match i with
    | O => first_time plottable
    | S j => default 0 (fst <$> plottable !! j)
    end
    stats_time.

(** ** Further scenarios *)

(** Two topics [a] and [ab] that both have a partition [7]; the second
    snapshot has it under [a] only. *)
Definition prefix_partition : list RdKafkaStats :=
  loaded ("{'time':100,'topics':{"
          +:+ "'a':{'partitions':{'7':{'partition':7,'consumer_lag':3}}},"
          +:+ "'ab':{'partitions':{'7':{'partition':7,'consumer_lag':8}}}}}"
          +:+ "{'time':130,'topics':{"
          +:+ "'a':{'partitions':{'7':{'partition':7,'consumer_lag':5}}},"
          +:+ "'ab':{'partitions':{}}}}").

(** Two snapshots with a broker and a partition. *)
Definition broker_and_partition : string :=
  PyJson.text
    ("{'time':100,'brokers':{'b1':{'rxbytes':500}},"
     +:+ "'topics':{'t':{'partitions':{'0':{'partition':0}}}}}"
     +:+ "{'time':130,'brokers':{'b1':{'rxbytes':900}},"
     +:+ "'topics':{'t':{'partitions':{'0':{'partition':0}}}}}").

(** Two snapshots, the second with a time in the year 11476. *)
Definition far_future : string :=
  PyJson.text "{'time':100}{'time':300000000000}".

(** ** The summary of the latest snapshot *)

(** [self.stats_history[-1] if self.stats_history else None], the snapshot
    [print_summary] describes; [main] returns before the summary when the
    history is empty. *)
Definition latest (stats_history : list RdKafkaStats) : option RdKafkaStats :=
  last stats_history.

(** ** Names of the debug files *)

(** The class [A-Za-z0-9._-] of the pattern of [_slugify]. *)
Definition slug_char (c : ascii) : bool :=
  let n := nat_of_ascii c in
  ((65 <=? n) && (n <=? 90) || (97 <=? n) && (n <=? 122)
   || (48 <=? n) && (n <=? 57))%nat
  || (c =? ".")%char || (c =? "_")%char || (c =? "-")%char.

(** [re.sub(r"[^A-Za-z0-9._-]+", "_", name)]: every maximal run of
    characters outside the class becomes one underscore.  [in_run] tells
    that the character before [name] was outside the class.  A string is a
    sequence of bytes: a character outside ASCII is a run of bytes above
    127, all of them outside the class, as the character itself is. *)
Fixpoint slugify_from (in_run : bool) (name : string) : string :=
  match name with
  | EmptyString => EmptyString
  | String c r =>
      if slug_char c then String c (slugify_from false r)
      else if in_run then slugify_from true r
      else String "_" (slugify_from true r)
  end.

Definition _slugify (name : string) : string := slugify_from false name.

(** ** Plotting *)

(** [vv is not None and not np.isnan(vv)] *)
Definition is_number (vv : point) : bool :=
  match vv with
  | Num _ => true
  | PyNone | NaN => false
  end.

(** The filter of [generate_graphs] on the series of a plot:
    [{k: v for k, v in d_map.items() if any(... for vv in v)}] unless
    [show_empty]. *)
Definition shown_series (show_empty : bool)
    (d_map : gmap string (list point)) : gmap string (list point) :=
  if show_empty then d_map
  else filter (fun kv => existsb is_number kv.2 = true) d_map.

(** [[v for v in values if v is not None and not np.isnan(v)
       and v != -1 and v != -1001]] in [plot_data]. *)
Definition valid_points (values : list point) : list point :=
  filter (fun v => is_valid v = true) values.

(** ['o' if len(valid_points) < 2 else None]: whether the series is drawn
    with markers. *)
Definition marker (values : list point) : bool :=
  (length (valid_points values) <? 2)%nat.

(** [v == w] on the values of a series. *)
Definition point_eqb (v w : point) : bool :=
  match v, w with
  | Num a, Num b => Qeq_bool a b
  | PyNone, PyNone => true
  | _, _ => false
  end.

(** The four forms of a legend label; the name of the series and the
    formatting of the constant are left out. *)
Inductive legend : Type :=
  | NotAssignedLegend
      (* [name (Not Assigned)] *)
  | ConstantLegend (points : nat) (const_val : point)
      (* [name (n data points, constant=v)] *)
  | CountLegend (points : nat)
      (* [name (n data points)] *)
  | NameLegend.
      (* [name] *)

Definition legend_label (show_valid : bool) (values : list point) : legend :=
  let valid_points := valid_points values in
  let not_assigned_count :=
    length (filter (fun v => is_sentinel v = true) values) in
  if show_valid then
    if decide (not_assigned_count = length values) then NotAssignedLegend
    else
      match valid_points with
      | const_val :: _ =>
          if forallb (fun v => point_eqb v const_val) valid_points
          then ConstantLegend (length valid_points) const_val
          else CountLegend (length valid_points)
      | [] => CountLegend (length valid_points)
      end
  else NameLegend.

(** [[np.nan if (v == -1 or v == -1001) else v for v in values]]: what is
    handed to [ax.plot]. *)
Definition plot_values (values : list point) : list point :=
  (fun v => if is_sentinel v then NaN else v) <$> values.

(** [all_values] after the loop of [plot_data]: the valid points of all
    series.  The series are visited in the map's key order; the program
    only takes the emptiness, the minimum and the maximum of the list. *)
Definition all_values (data_map : gmap string (list point)) : list point :=
  map_fold (fun _ values acc => acc ++ valid_points values) [] data_map.

(** [not valid_values]: the plot shows the text [No Data Available]. *)
Definition no_data_available (data_map : gmap string (list point)) : bool :=
  bool_decide (filter (fun v => is_number v = true) (all_values data_map) = []).

(** [sum(1 for s in stats_display.values() if s['valid'] > 0 and
    s['constant'])], the number after [const:] in the annotation. *)
Definition constants (d_map : gmap string (list point)) : nat :=
  size (filter (fun ks : string * stat.t =>
                  (0 < stat.valid ks.2)%nat ∧ stat.constant ks.2 = Some true)
               (_series_stats d_map)).

(** ** Further notions the properties are stated with *)

(** [part.leader] when it is usable: the partition is in the snapshot and
    its leader is neither [None] nor -1. *)
Definition valid_leader (part : option PartitionStats) : option Z :=
  p ← part; l ← leader p; if decide (l ≠ -1) then Some l else None.

(** A point that is a gap: [None] or [np.nan]. *)
Definition is_gap (v : point) : bool := negb (is_number v).

(** Two records of the time 100 with different brokers and topics. *)
Definition split_record : list RdKafkaStats :=
  snapshots ("[{'ts':1,'time':100,'brokers':{'b1':{}},"
             +:+ "'topics':{'t1':{'partitions':{'0':{}}}}},"
             +:+ "{'ts':2,'time':100,'brokers':{'b2':{}},"
             +:+ "'topics':{'t1':{'partitions':{'1':{}}},'t2':{}}},"
             +:+ "{'ts':3,'brokers':{'b3':{}}}]").

(** A consumer whose partition is assigned in the second snapshot only,
    and a broker that reports no round-trip time. *)
Definition late_assignment : list RdKafkaStats :=
  loaded ("{'time':100,'type':'consumer',"
          +:+ "'brokers':{'b1':{'state':'UP','connects':2}},"
          +:+ "'topics':{'t':{'partitions':{'0':{'partition':0,'leader':-1}}}}}"
          +:+ "{'time':130,'type':'consumer',"
          +:+ "'brokers':{'b1':{'state':'DOWN','connects':3,'rtt':{'avg':2500}}},"
          +:+ "'topics':{'t':{'partitions':{'0':{'partition':0,'leader':4,"
          +:+ "'consumer_lag':12,'committed_offset':40}}}}}").

(** The snapshot [r] has every broker id, topic name and partition id of
    the snapshot [s]. *)
Definition covers (r s : RdKafkaStats) : Prop :=
  dom (brokers s) ⊆ dom (brokers r)
  ∧ ∀ t_name ts, topics s !! t_name = Some ts ->
      ∃ tr, topics r !! t_name = Some tr
            ∧ dom (partitions ts) ⊆ dom (partitions tr).

(** A decoded value other than an object: [.get] on it raises. *)
Definition not_an_object (v : json) : bool :=
  match v with
  | JDict _ => false
  | _ => true
  end.

(** * Properties *)

(** ** Stable sorting *)

Section list_sort_facts.
Context {A : Type} (key : A -> Z).

Local Instance key_le_trans : Transitive (key_le key).
Proof. unfold key_le. intros a b c. lia. Qed.

Lemma insert_sorted_perm x l : insert_sorted key x l ≡ₚ x :: l.
Proof.
  induction l as [|y l IH]; simpl; [done|].
  destruct (key x <=? key y); [done|].
  rewrite IH. apply Permutation_swap.
Qed.

Lemma list_sort_perm l : list_sort key l ≡ₚ l.
Proof.
  induction l as [|x l IH]; simpl; [done|].
  by rewrite insert_sorted_perm, IH.
Qed.

Lemma insert_sorted_sorted x l :
  StronglySorted (key_le key) l -> StronglySorted (key_le key) (insert_sorted key x l).
Proof.
  induction 1 as [|y l Hl IH Hy]; simpl.
  - repeat constructor.
  - destruct (Z.leb_spec (key x) (key y)) as [Hle|Hgt].
    + constructor; [by constructor|].
      constructor; [done|].
      eapply Forall_impl; [exact Hy|]. unfold key_le. intros z. lia.
    + constructor; [done|].
      rewrite insert_sorted_perm. constructor; [|done].
      unfold key_le. lia.
Qed.

Lemma list_sort_sorted l : StronglySorted (key_le key) (list_sort key l).
Proof.
  induction l as [|x l IH]; simpl; [constructor|].
  by apply insert_sorted_sorted.
Qed.

(** A list that is already in ascending order is left as it is. *)
Lemma list_sort_sorted_id l : Sorted (key_le key) l -> list_sort key l = l.
Proof.
  induction 1 as [|x l Hl IH Hx]; simpl; [done|].
  rewrite IH. destruct Hx as [|y l Hxy]; simpl; [done|].
  unfold key_le in Hxy. by rewrite (proj2 (Z.leb_le _ _) Hxy).
Qed.

(** With pairwise different keys the sorted list does not depend on the
    order of the input. *)
Lemma list_sort_unique l1 l2 :
  NoDup (key <$> l1) -> l1 ≡ₚ l2 -> list_sort key l1 = list_sort key l2.
Proof.
  intros Hnd Hp.
  apply (StronglySorted_unique_strong (key_le key));
    [|apply list_sort_sorted..|by rewrite !list_sort_perm].
  intros x1 x2 Hx1 Hx2 H12 H21. unfold key_le in *.
  rewrite list_sort_perm in Hx1. rewrite list_sort_perm, <-Hp in Hx2.
  assert (key x1 = key x2) as Hk by lia.
  apply list_elem_of_lookup in Hx1 as [i Hi], Hx2 as [j Hj].
  assert (i = j) as ->; [|congruence].
  eapply NoDup_lookup; [exact Hnd| |]; rewrite list_lookup_fmap.
  - by rewrite Hi.
  - by rewrite Hj, Hk.
Qed.

Lemma list_sort_strict l :
  NoDup (key <$> l) -> StronglySorted Z.lt (key <$> list_sort key l).
Proof.
  intros Hnd.
  assert (NoDup (key <$> list_sort key l)) as Hnd'
    by by rewrite list_sort_perm.
  pose proof (list_sort_sorted l) as Hs.
  induction Hs as [|x s Hs IH Hx]; simpl in *; [constructor|].
  apply NoDup_cons in Hnd' as [Hx' Hnd'].
  constructor; [by apply IH|].
  apply Forall_fmap, Forall_forall. intros y Hy. simpl.
  rewrite Forall_forall in Hx. specialize (Hx y Hy). unfold key_le in Hx.
  assert (key x ≠ key y); [|lia].
  intros Heq. apply Hx'. rewrite Heq. by apply list_elem_of_fmap_2.
Qed.
End list_sort_facts.

(** ** Merging two snapshots of one timestamp *)

Lemma merge_brokers_lookup (existing new : gmap string BrokerStats) k :
  merge_brokers existing new !! k
  = match existing !! k with Some b => Some b | None => new !! k end.
Proof.
  unfold merge_brokers. revert k.
  apply (map_fold_weak_ind (fun r m => ∀ k, r !! k
           = match existing !! k with Some b => Some b | None => m !! k end)).
  - intros k. rewrite lookup_empty. by destruct (existing !! k).
  - intros i x m r Hi IH k.
    pose proof (IH i) as Hri. rewrite Hi in Hri.
    destruct (decide (k = i)) as [->|Hne].
    + rewrite lookup_insert_eq.
      destruct (existing !! i) eqn:He; rewrite Hri; [done|].
      by rewrite lookup_insert_eq.
    + rewrite (lookup_insert_ne m) by done. rewrite <-IH.
      destruct (r !! i); [done|]. by rewrite lookup_insert_ne.
Qed.

Lemma merge_brokers_union (existing new : gmap string BrokerStats) :
  merge_brokers existing new = existing ∪ new.
Proof.
  apply map_eq. intros k. rewrite merge_brokers_lookup, lookup_union.
  by destruct (existing !! k), (new !! k).
Qed.

Lemma merge_partitions_lookup (existing new : gmap string PartitionStats) k :
  merge_partitions existing new !! k
  = match existing !! k with Some p => Some p | None => new !! k end.
Proof.
  unfold merge_partitions. revert k.
  apply (map_fold_weak_ind (fun r m => ∀ k, r !! k
           = match existing !! k with Some p => Some p | None => m !! k end)).
  - intros k. rewrite lookup_empty. by destruct (existing !! k).
  - intros i x m r Hi IH k.
    pose proof (IH i) as Hri. rewrite Hi in Hri.
    destruct (decide (k = i)) as [->|Hne].
    + rewrite lookup_insert_eq.
      destruct (existing !! i) eqn:He; rewrite Hri; [done|].
      by rewrite lookup_insert_eq.
    + rewrite (lookup_insert_ne m) by done. rewrite <-IH.
      destruct (r !! i); [done|]. by rewrite lookup_insert_ne.
Qed.

Lemma merge_partitions_union (existing new : gmap string PartitionStats) :
  merge_partitions existing new = existing ∪ new.
Proof.
  apply map_eq. intros k. rewrite merge_partitions_lookup, lookup_union.
  by destruct (existing !! k), (new !! k).
Qed.

Lemma merge_topics_lookup (existing new : gmap string TopicStats) k :
  merge_topics existing new !! k
  = match existing !! k, new !! k with
    | Some et, Some nt =>
        Some (set_partitions et (partitions et ∪ partitions nt))
    | Some et, None => Some et
    | None, o => o
    end.
Proof.
  unfold merge_topics. revert k.
  apply (map_fold_weak_ind (fun r m => ∀ k, r !! k
           = match existing !! k, m !! k with
             | Some et, Some nt =>
                 Some (set_partitions et (partitions et ∪ partitions nt))
             | Some et, None => Some et
             | None, o => o
             end)).
  - intros k. rewrite lookup_empty. by destruct (existing !! k).
  - intros i x m r Hi IH k.
    pose proof (IH i) as Hri. rewrite Hi in Hri.
    destruct (decide (k = i)) as [->|Hne].
    + rewrite (lookup_insert_eq m).
      destruct (existing !! i) eqn:He; rewrite Hri;
        rewrite lookup_insert_eq; [|done].
      by rewrite merge_partitions_union.
    + rewrite (lookup_insert_ne m) by done. rewrite <-IH.
      destruct (r !! i); by rewrite lookup_insert_ne.
Qed.

Lemma merge_into_time existing stat :
  time (merge_into existing stat) = time existing.
Proof. done. Qed.

(** ** The dictionary of anchors *)

Lemma seen_get_None t seen : seen_get t seen = None <-> t ∉ seen.*1.
Proof.
  induction seen as [|[t' s] seen IH]; simpl.
  - split; [|done]. intros _. apply not_elem_of_nil.
  - rewrite not_elem_of_cons.
    destruct (decide (t = t')) as [->|Hne]; [split; [done|tauto]|].
    rewrite IH. tauto.
Qed.

Lemma seen_get_elem_of t s seen :
  NoDup seen.*1 -> (t, s) ∈ seen -> seen_get t seen = Some s.
Proof.
  induction seen as [|[t' s'] seen IH]; simpl; intros Hnd Hin.
  - by apply elem_of_nil in Hin.
  - apply NoDup_cons in Hnd as [Hnotin Hnd].
    apply elem_of_cons in Hin as [[= <- <-]|Hin].
    + by rewrite decide_True.
    + rewrite decide_False; [by apply IH|].
      intros <-. apply Hnotin. by apply (list_elem_of_fmap_2 fst) in Hin.
Qed.

Lemma seen_get_Some t s seen : seen_get t seen = Some s -> (t, s) ∈ seen.
Proof.
  induction seen as [|[t' s'] seen IH]; simpl; [done|].
  destruct (decide (t = t')) as [->|]; [intros [= ->]; left|right; auto].
Qed.

Lemma seen_set_absent t s seen :
  seen_get t seen = None -> seen_set t s seen = seen ++ [(t, s)].
Proof.
  induction seen as [|[t' s'] seen IH]; simpl; [done|].
  destruct (decide (t = t')); [done|]. intros H. by rewrite IH.
Qed.

Lemma seen_set_present t s seen :
  is_Some (seen_get t seen) -> (seen_set t s seen).*1 = seen.*1.
Proof.
  induction seen as [|[t' s'] seen IH]; simpl; [by intros [? ?]|].
  destruct (decide (t = t')); [done|]. intros H. simpl. f_equal. by apply IH.
Qed.

Lemma seen_get_set t t' s seen :
  seen_get t (seen_set t' s seen)
  = if decide (t = t') then Some s else seen_get t seen.
Proof.
  induction seen as [|[t0 s0] seen IH]; simpl.
  - by destruct (decide (t = t')).
  - destruct (decide (t' = t0)) as [->|Hne]; simpl.
    + by destruct (decide (t = t0)).
    + destruct (decide (t = t0)) as [->|]; [|done].
      by rewrite decide_False.
Qed.

Lemma seen_set_elem_of t s t' s' seen :
  (t', s') ∈ seen_set t s seen -> (t', s') = (t, s) ∨ (t', s') ∈ seen.
Proof.
  induction seen as [|[t0 s0] seen IH]; simpl.
  - intros ->%list_elem_of_singleton. by left.
  - destruct (decide (t = t0)) as [->|Hne];
      intros [->|Hin]%elem_of_cons; auto using list_elem_of_here,
        list_elem_of_further.
    destruct (IH Hin); auto using list_elem_of_further.
Qed.


Lemma dedup_step_ok seen stat : seen_ok seen -> seen_ok (dedup_step seen stat).
Proof.
  intros [Hnd Htime]. unfold dedup_step.
  destruct (time stat) as [t|] eqn:Ht; [|done].
  destruct (seen_get t seen) as [existing|] eqn:Hget.
  - split.
    + by rewrite seen_set_present.
    + intros t' s' [[= -> ->]|Hin]%seen_set_elem_of; [|by apply Htime].
      rewrite merge_into_time. by apply Htime, seen_get_Some.
  - rewrite seen_set_absent by done. split.
    + rewrite fmap_app. apply NoDup_app. split_and!; [done| |apply NoDup_singleton].
      intros x Hx ->%list_elem_of_singleton. by apply seen_get_None in Hget.
    + intros t' s' [Hin|[= -> ->]%list_elem_of_singleton]%elem_of_app;
        [by apply Htime|done].
Qed.

Lemma foldl_dedup_ok l seen :
  seen_ok seen -> seen_ok (foldl dedup_step seen l).
Proof.
  revert seen. induction l as [|x l IH]; simpl; [done|].
  intros seen Hok. by apply IH, dedup_step_ok.
Qed.

Lemma seen_timestamps_ok history : seen_ok (seen_timestamps history).
Proof.
  apply foldl_dedup_ok. split; [constructor|].
  intros t s Hin. by apply elem_of_nil in Hin.
Qed.

(** What the loop leaves under the time [t]: the anchor with every later
    snapshot of that time merged into it, in the order of the list. *)
Lemma seen_get_foldl t l seen :
  seen_get t (foldl dedup_step seen l)
  = match seen_get t seen with
    | Some existing => Some (foldl merge_into existing (same_time t l))
    | None =>
        match same_time t l with
        | [] => None
        | anchor :: later => Some (foldl merge_into anchor later)
        end
    end.
Proof.
  revert seen. induction l as [|x l IH]; intros seen; simpl.
  { by destruct (seen_get t seen). }
  rewrite IH. unfold same_time, dedup_step. rewrite filter_cons.
  destruct (time x) as [tx|] eqn:Hx.
  - destruct (decide (Some tx = Some t)) as [[= ->]|Hne].
    + destruct (seen_get t seen) as [existing|] eqn:Hget;
        rewrite seen_get_set, decide_True by done; done.
    + assert (t ≠ tx) by congruence.
      destruct (seen_get tx seen) as [existing|] eqn:Hget;
        rewrite seen_get_set, decide_False by done; done.
  - rewrite decide_False by done. done.
Qed.

(** When the times are all present and pairwise different nothing is
    merged: every snapshot becomes the anchor of its own time. *)
Lemma foldl_dedup_distinct l seen :
  Forall (fun s => time s ≠ None) l ->
  NoDup (time <$> l) ->
  (∀ s, s ∈ l -> seen_get (time_key s) seen = None) ->
  foldl dedup_step seen l = seen ++ ((fun s => (time_key s, s)) <$> l).
Proof.
  revert seen. induction l as [|x l IH]; intros seen Hall Hnd Hfresh; simpl.
  { by rewrite app_nil_r. }
  apply Forall_cons in Hall as [Hx Hall].
  apply NoDup_cons in Hnd as [Hxl Hnd].
  pose proof (Hfresh x (list_elem_of_here _ _)) as Hgx.
  unfold dedup_step at 2. unfold time_key in *.
  destruct (time x) as [t|] eqn:Ht; [simpl in *|done].
  rewrite Hgx, seen_set_absent by done.
  rewrite IH; [by rewrite <-app_assoc|done..|].
  intros s Hs. apply seen_get_None. rewrite fmap_app, elem_of_app.
  intros [Hin|Hin%list_elem_of_singleton].
  - eapply seen_get_None; [|exact Hin]. apply Hfresh. by right.
  - apply Hxl. simpl in Hin.
    rewrite Forall_forall in Hall. specialize (Hall s Hs).
    destruct (time s) as [t'|] eqn:Ht'; [|done]. simpl in Hin. subst t'.
    rewrite <-Ht'. by apply list_elem_of_fmap_2.
Qed.

(** ** What the loader returns *)

Lemma seen_ok_times seen :
  seen_ok seen -> time <$> seen.*2 = Some <$> seen.*1.
Proof.
  intros [_ Htime]. induction seen as [|[t s] seen IH]; simpl; [done|].
  rewrite (Htime t s) by left. f_equal. apply IH.
  intros t' s' Hin. apply Htime. by right.
Qed.

Lemma seen_ok_time_keys seen : seen_ok seen -> time_key <$> seen.*2 = seen.*1.
Proof.
  intros Hok. pose proof (seen_ok_times seen Hok) as Ht.
  clear Hok. revert Ht. generalize (seen.*1). generalize (seen.*2).
  intros l. induction l as [|s l IH]; intros [|t ts]; simpl; try done.
  intros [= Hs Hl]. unfold time_key at 1. rewrite Hs. simpl. f_equal. by apply IH.
Qed.

Lemma deduplicate_timestamped history :
  Forall (fun s => time s ≠ None) (deduplicate history).
Proof.
  unfold deduplicate. rewrite list_sort_perm.
  destruct (seen_timestamps_ok history) as [_ Htime].
  apply Forall_forall. intros s [[t s'] [-> Hin]]%list_elem_of_fmap. simpl.
  by rewrite (Htime t s').
Qed.

Lemma deduplicate_strict history :
  StronglySorted Z.lt (time_key <$> deduplicate history).
Proof.
  unfold deduplicate. apply list_sort_strict.
  rewrite seen_ok_time_keys by apply seen_timestamps_ok.
  apply seen_timestamps_ok.
Qed.

Lemma deduplicate_NoDup history : NoDup (time <$> deduplicate history).
Proof.
  unfold deduplicate. rewrite list_sort_perm.
  rewrite seen_ok_times by apply seen_timestamps_ok.
  apply (NoDup_fmap_2 _), seen_timestamps_ok.
Qed.

(** A returned list is always the result of the deduplication pass. *)
Lemma load_stats_Ok json_loads raw_decode file retained :
  _load_stats json_loads raw_decode file = Ok retained ->
  ∃ history, retained = deduplicate history.
Proof.
  destruct file as [content|]; simpl.
  - destruct (read_history json_loads raw_decode content) as [history| |];
      simpl; [|done..].
    intros [= <-]. by exists history.
  - intros [= <-]. by exists [].
Qed.

(** C6.  After loading, every retained snapshot has a time, no two retained
    snapshots have the same time, and the times ascend along the list. *)
Theorem load_stats_invariant json_loads raw_decode file retained :
  _load_stats json_loads raw_decode file = Ok retained ->
  Forall (fun s => time s ≠ None) retained
  ∧ NoDup (time <$> retained)
  ∧ StronglySorted Z.lt (time_key <$> retained).
Proof.
  intros [history ->]%load_stats_Ok.
  auto using deduplicate_timestamped, deduplicate_NoDup, deduplicate_strict.
Qed.

Lemma load_stats_invariant_witness :
  ∃ retained,
    load_text (PyJson.text "[{'time':3},{'time':1},{'time':3}]") = Ok retained
    ∧ Forall (fun s => time s ≠ None) retained
    ∧ NoDup (time <$> retained)
    ∧ StronglySorted Z.lt (time_key <$> retained).
Proof.
  eexists. split; [vm_compute; reflexivity|].
  apply (load_stats_invariant PyJson.loads PyJson.raw_decode
           (Some (PyJson.text "[{'time':3},{'time':1},{'time':3}]"))).
  vm_compute. reflexivity.
Defined.

(** ** Deduplicating twice *)

Lemma seen_timestamps_distinct h :
  Forall (fun s => time s ≠ None) h ->
  NoDup (time <$> h) ->
  seen_timestamps h = (fun s => (time_key s, s)) <$> list_sort ts_key h.
Proof.
  intros Hall Hnd. unfold seen_timestamps.
  rewrite foldl_dedup_distinct; [done| | |done].
  - by rewrite list_sort_perm.
  - by rewrite list_sort_perm.
Qed.

Lemma snd_time_keyed (l : list RdKafkaStats) :
  ((fun s => (time_key s, s)) <$> l).*2 = l.
Proof. induction l as [|s l IH]; simpl; [done|]. f_equal. exact IH. Qed.

Lemma deduplicate_sorted_id h :
  Forall (fun s => time s ≠ None) h ->
  NoDup (time <$> h) ->
  Sorted Z.le (time_key <$> h) ->
  deduplicate h = h.
Proof.
  intros Hall Hnd Hs. unfold deduplicate.
  rewrite seen_timestamps_distinct by done.
  rewrite snd_time_keyed.
  assert (NoDup (time_key <$> h)) as Hndk.
  { clear Hs. induction h as [|s h IH]; simpl in *; [constructor|].
    apply Forall_cons in Hall as [Hs Hall].
    apply NoDup_cons in Hnd as [Hsh Hnd].
    apply NoDup_cons. split; [|by apply IH].
    intros [s' [Heq Hin]]%list_elem_of_fmap. apply Hsh.
    rewrite Forall_forall in Hall. specialize (Hall s' Hin).
    unfold time_key in Heq.
    destruct (time s) as [t|] eqn:Ht, (time s') as [t'|] eqn:Ht'; try done.
    simpl in Heq. subst t'. rewrite <-Ht'. by apply list_elem_of_fmap_2. }
  rewrite (list_sort_unique time_key (list_sort ts_key h) h).
  - apply list_sort_sorted_id.
    clear -Hs. induction h as [|s h IH]; simpl in *; [constructor|].
    apply Sorted_inv in Hs as [Hs Hhd]. constructor; [by apply IH|].
    destruct h; simpl in *; constructor. by apply HdRel_inv in Hhd.
  - by rewrite list_sort_perm.
  - apply list_sort_perm.
Qed.

Lemma strictly_ascending_Sorted (l : list Z) :
  StronglySorted Z.lt l -> Sorted Z.le l.
Proof.
  induction 1 as [|x l Hl IH Hx]; [constructor|].
  constructor; [done|]. destruct Hx as [|y l Hxy]; constructor. lia.
Qed.

(** C8, as amended.  A sequence whose times are all present, pairwise
    different and in ascending order is left as it is by the sort-and-
    deduplicate pass, and nothing is merged: every snapshot is filed as the
    anchor of its own time.  The pass produces such a sequence, so applying
    it twice is the same as applying it once. *)
Theorem deduplicate_idempotent :
  (∀ h, Forall (fun s => time s ≠ None) h ->
        NoDup (time <$> h) ->
        Sorted Z.le (time_key <$> h) ->
        deduplicate h = h
        ∧ (seen_timestamps h).*2 = list_sort ts_key h)
  ∧ (∀ history, deduplicate (deduplicate history) = deduplicate history).
Proof.
  split.
  - intros h Hall Hnd Hs. split; [by apply deduplicate_sorted_id|].
    rewrite seen_timestamps_distinct by done.
    apply snd_time_keyed.
  - intros history. apply deduplicate_sorted_id.
    + apply deduplicate_timestamped.
    + apply deduplicate_NoDup.
    + apply strictly_ascending_Sorted, deduplicate_strict.
Qed.

Lemma deduplicate_idempotent_witness :
  let h := snapshots "[{'time':1,'ts':9},{'time':2,'ts':4}]" in
  (Forall (fun s => time s ≠ None) h
   ∧ NoDup (time <$> h)
   ∧ Sorted Z.le (time_key <$> h))
  ∧ deduplicate h = h
  ∧ (seen_timestamps h).*2 = list_sort ts_key h.
Proof.
  intros h.
  assert (Forall (fun s => time s ≠ None) h
          ∧ NoDup (time <$> h)
          ∧ Sorted Z.le (time_key <$> h)) as Hh.
  { vm_compute. split_and!.
    - by repeat constructor.
    - repeat constructor; set_solver.
    - repeat constructor. vm_compute. done. }
  split; [exact Hh|].
  destruct Hh as (H1 & H2 & H3).
  exact (proj1 deduplicate_idempotent h H1 H2 H3).
Defined.

(** The claim C8 as written asks only for times that are present and
    pairwise different; such a sequence in descending order is reordered. *)
Lemma deduplicate_reorders :
  let h := snapshots "[{'time':2},{'time':1}]" in
  Forall (fun s => time s ≠ None) h
  ∧ NoDup (time <$> h)
  ∧ deduplicate h ≠ h.
Proof.
  vm_compute. split_and!.
  - by repeat constructor.
  - repeat constructor; set_solver.
  - discriminate.
Qed.

(** ** Merging into the anchor *)

Lemma deduplicate_group history r :
  r ∈ deduplicate history ->
  ∃ t anchor later,
    time r = Some t
    ∧ same_time t (list_sort ts_key history) = anchor :: later
    ∧ r = foldl merge_into anchor later.
Proof.
  unfold deduplicate. rewrite list_sort_perm.
  intros [[t r'] [-> Hin]]%list_elem_of_fmap. simpl.
  destruct (seen_timestamps_ok history) as [Hnd Htime].
  pose proof (seen_get_elem_of _ _ _ Hnd Hin) as Hget.
  unfold seen_timestamps in Hget. rewrite seen_get_foldl in Hget. simpl in Hget.
  destruct (same_time t (list_sort ts_key history)) as [|anchor later] eqn:Hg;
    [done|].
  injection Hget as <-. exists t, anchor, later. split_and!; [|done..].
  rewrite <-(Htime t (foldl merge_into anchor later)); [done|].
  unfold seen_timestamps. exact Hin.
Qed.

(** ** The time series of one broker *)

Lemma set_fold_alter {A} (f : string -> A -> A) (m : gmap string A)
    (X : gset string) k :
  set_fold (fun b m => alter (f b) b m) m X !! k
  = if decide (k ∈ X) then f k <$> m !! k else m !! k.
Proof.
  revert k.
  refine (set_fold_ind_L (fun r (Y : gset string) => ∀ k, r !! k
            = if decide (k ∈ Y) then f k <$> m !! k else m !! k)
            _ m _ _ X).
  - intros k. by rewrite decide_False by set_solver.
  - intros x Y r Hx IH k. destruct (decide (k = x)) as [->|Hne].
    + rewrite lookup_alter_eq, IH, decide_False by done.
      by rewrite decide_True by set_solver.
    + rewrite lookup_alter_ne, IH by done.
      destruct (decide (k ∈ Y)).
      * by rewrite decide_True by set_solver.
      * by rewrite decide_False by set_solver.
Qed.

Lemma series_step_brokers bk tk st x b :
  b ∈ bk ->
  st_brokers (series_step bk tk st x) !! b
  = update_b_data (brokers x.2 !! b) (time_delta_of (last_time st) x.1)
      <$> st_brokers st !! b.
Proof.
  intros Hb. destruct x as [t s]. simpl.
  by rewrite set_fold_alter, decide_True.
Qed.

Lemma series_step_last_time bk tk st x :
  last_time (series_step bk tk st x) = x.1.
Proof. by destruct x. Qed.

Lemma foldl_series_brokers bk tk l st b :
  b ∈ bk ->
  st_brokers (foldl (series_step bk tk) st l) !! b
  = run_broker b (last_time st) l <$> st_brokers st !! b.
Proof.
  intros Hb. revert st. induction l as [|[t s] l IH]; intros st.
  { simpl. by destruct (st_brokers st !! b). }
  cbn [foldl run_broker]. rewrite IH, series_step_brokers by done.
  rewrite series_step_last_time. simpl.
  by destruct (st_brokers st !! b).
Qed.

Lemma foldl_series_brokers_dom bk tk l st :
  dom (st_brokers (foldl (series_step bk tk) st l)) = dom (st_brokers st).
Proof.
  revert st. induction l as [|[t s] l IH]; intros st; [done|].
  cbn [foldl]. rewrite IH. simpl.
  apply (set_fold_ind_L (fun r (X : gset string) =>
           dom r = dom (st_brokers st))); [done|].
  intros x X r _ Hr. by rewrite dom_alter_L.
Qed.

(** The series of a broker after the iterations over [l]. *)
Lemma run_broker_series b last l bd :
  let r := run_broker b last l bd in
  b_data.rtt r
    = b_data.rtt bd ++ ((fun x => millis (brokers x.2 !! b) rtt_avg) <$> l)
  ∧ b_data.state r
    = b_data.state bd
      ++ ((fun x => match brokers x.2 !! b with
                    | Some bs => state_map (state bs)
                    | None => NaN
                    end) <$> l)
  ∧ b_data.throttle r
    = b_data.throttle bd
      ++ ((fun x => millis (brokers x.2 !! b) throttle_avg) <$> l)
  ∧ b_data.connects r
    = b_data.connects bd
      ++ ((fun x => counter (brokers x.2 !! b) connects) <$> l)
  ∧ b_data.disconnects r
    = b_data.disconnects bd
      ++ ((fun x => counter (brokers x.2 !! b) disconnects) <$> l)
  ∧ b_data.rxerrs r
    = b_data.rxerrs bd ++ ((fun x => counter (brokers x.2 !! b) rxerrs) <$> l)
  ∧ b_data.txerrs r
    = b_data.txerrs bd ++ ((fun x => counter (brokers x.2 !! b) txerrs) <$> l)
  ∧ b_data.rx_rate r
    = b_data.rx_rate bd ++ rates rxbytes b last (b_data.last_rxbytes bd) l
  ∧ b_data.tx_rate r
    = b_data.tx_rate bd ++ rates txbytes b last (b_data.last_txbytes bd) l.
Proof.
  revert last bd. induction l as [|[t s] l IH]; intros last bd.
  { simpl. by rewrite !app_nil_r. }
  cbn [run_broker]. cbv zeta in *.
  destruct (IH t (update_b_data (brokers s !! b) (time_delta_of last t) bd))
    as (-> & -> & -> & -> & -> & -> & -> & -> & ->).
  simpl. rewrite <-!app_assoc. done.
Qed.

Lemma time_delta_positive last t : 1 <= time_delta_of last t.
Proof.
  unfold time_delta_of.
  destruct (negb (last =? 0)); simpl; [|lia].
  destruct (Z.ltb_spec last t); lia.
Qed.

Lemma counter_delta_nonneg last current : 0 <= counter_delta last current.
Proof.
  unfold counter_delta. destruct last as [p|]; [|lia].
  destruct (Z.leb_spec p current); lia.
Qed.

Lemma rate_nonneg delta time_delta :
  0 <= delta -> 1 <= time_delta -> nonnegative (rate delta time_delta).
Proof.
  intros Hd Ht. simpl.
  apply Qle_shift_div_l; [reflexivity|]. rewrite Qmult_0_l.
  apply Qle_shift_div_l.
  - change 0%Q with (inject_Z 0). rewrite <-Zlt_Qlt. lia.
  - rewrite Qmult_0_l. change 0%Q with (inject_Z 0). rewrite <-Zle_Qle. lia.
Qed.

Lemma rates_nonneg field b last_time last l :
  Forall nonnegative (rates field b last_time last l).
Proof.
  revert last_time last. induction l as [|[t s] l IH]; intros last_time last;
    simpl; constructor; [|apply IH].
  apply rate_nonneg; auto using counter_delta_nonneg, time_delta_positive.
Qed.

Lemma length_rates field b last_time last l :
  length (rates field b last_time last l) = length l.
Proof.
  revert last_time last. induction l as [|[t s] l IH]; intros; simpl; [done|].
  by rewrite IH.
Qed.

(** ** The universe of keys *)

Lemma elem_of_add_broker_keys s keys b :
  b ∈ add_broker_keys s keys
  <-> b ∈ keys
      ∨ ∃ bs, brokers s !! b = Some bs ∧ source bs ≠ Some "logical".
Proof.
  unfold add_broker_keys. revert b.
  apply (map_fold_weak_ind (fun r (m : gmap string BrokerStats) => ∀ b,
           b ∈ r <-> b ∈ keys
             ∨ ∃ bs, m !! b = Some bs ∧ source bs ≠ Some "logical")).
  - intros b. setoid_rewrite lookup_empty. naive_solver.
  - intros i x m r Hi IH b. setoid_rewrite lookup_insert_Some.
    destruct (decide (source x ≠ Some "logical")).
    + rewrite elem_of_union, elem_of_singleton, IH. naive_solver.
    + rewrite IH. naive_solver.
Qed.

Lemma elem_of_all_broker_keys pl b :
  b ∈ all_broker_keys pl
  <-> ∃ x bs, x ∈ pl ∧ brokers x.2 !! b = Some bs
              ∧ source bs ≠ Some "logical".
Proof.
  unfold all_broker_keys.
  cut (∀ keys, b ∈ foldl (fun keys x => add_broker_keys x.2 keys) keys pl
         <-> b ∈ keys ∨ ∃ x bs, x ∈ pl ∧ brokers x.2 !! b = Some bs
                                ∧ source bs ≠ Some "logical").
  { intros H. rewrite H. set_solver. }
  induction pl as [|x pl IH]; intros keys; simpl.
  - setoid_rewrite elem_of_nil. naive_solver.
  - rewrite IH, elem_of_add_broker_keys. setoid_rewrite elem_of_cons.
    naive_solver.
Qed.

Lemma elem_of_add_topic_keys s keys t :
  t ∈ add_topic_keys s keys <-> t ∈ keys ∨ is_Some (topics s !! t).
Proof.
  unfold add_topic_keys. revert t.
  apply (map_fold_weak_ind (fun r (m : gmap string TopicStats) => ∀ t,
           t ∈ r <-> t ∈ keys ∨ is_Some (m !! t))).
  - intros t. rewrite lookup_empty. split; [by left|].
    intros [?|[? ?]]; done.
  - intros i x m r Hi IH t.
    rewrite elem_of_union, elem_of_singleton, IH, lookup_insert_is_Some.
    destruct (decide (i = t)); naive_solver.
Qed.

Lemma elem_of_all_topic_keys pl t :
  t ∈ all_topic_keys pl <-> ∃ x, x ∈ pl ∧ is_Some (topics x.2 !! t).
Proof.
  unfold all_topic_keys.
  cut (∀ keys, t ∈ foldl (fun keys x => add_topic_keys x.2 keys) keys pl
         <-> t ∈ keys ∨ ∃ x, x ∈ pl ∧ is_Some (topics x.2 !! t)).
  { intros H. rewrite H. set_solver. }
  induction pl as [|x pl IH]; intros keys; simpl.
  - setoid_rewrite elem_of_nil. naive_solver.
  - rewrite IH, elem_of_add_topic_keys. setoid_rewrite elem_of_cons.
    naive_solver.
Qed.

Lemma elem_of_add_partitions t_name (parts : gmap string PartitionStats)
    (keys : gset string) k :
  k ∈ map_fold (fun p_id p_stats keys =>
                  if decide (partition p_stats ≠ Some (-1))
                  then {[partition_key t_name p_id]} ∪ keys else keys)
               keys parts
  <-> k ∈ keys
      ∨ ∃ p ps, parts !! p = Some ps ∧ partition ps ≠ Some (-1)
                ∧ k = partition_key t_name p.
Proof.
  revert k.
  apply (map_fold_weak_ind (fun r (m : gmap string PartitionStats) => ∀ k,
           k ∈ r <-> k ∈ keys
             ∨ ∃ p ps, m !! p = Some ps ∧ partition ps ≠ Some (-1)
                       ∧ k = partition_key t_name p)).
  - intros k. setoid_rewrite lookup_empty. naive_solver.
  - intros i x m r Hi IH k.
    assert ((∃ p ps, <[i:=x]> m !! p = Some ps ∧ partition ps ≠ Some (-1)
                     ∧ k = partition_key t_name p)
            <-> (partition x ≠ Some (-1) ∧ k = partition_key t_name i)
                ∨ ∃ p ps, m !! p = Some ps ∧ partition ps ≠ Some (-1)
                          ∧ k = partition_key t_name p) as ->.
    { split.
      - intros (p & ps & [[-> ->]|[Hne Hp]]%lookup_insert_Some & H); eauto.
      - intros [H|(p & ps & Hp & H)].
        + exists i, x. by rewrite lookup_insert_eq.
        + exists p, ps. rewrite lookup_insert_ne; [done|congruence]. }
    destruct (decide (partition x ≠ Some (-1))).
    + rewrite elem_of_union, elem_of_singleton, IH. tauto.
    + rewrite IH. tauto.
Qed.

Lemma elem_of_add_partition_keys s keys k :
  k ∈ add_partition_keys s keys
  <-> k ∈ keys
      ∨ ∃ t tst p ps, topics s !! t = Some tst ∧ partitions tst !! p = Some ps
                      ∧ partition ps ≠ Some (-1) ∧ k = partition_key t p.
Proof.
  unfold add_partition_keys. revert k.
  apply (map_fold_weak_ind (fun r (m : gmap string TopicStats) => ∀ k,
           k ∈ r <-> k ∈ keys
             ∨ ∃ t tst p ps, m !! t = Some tst ∧ partitions tst !! p = Some ps
                             ∧ partition ps ≠ Some (-1)
                             ∧ k = partition_key t p)).
  - intros k. setoid_rewrite lookup_empty. naive_solver.
  - intros i x m r Hi IH k. rewrite elem_of_add_partitions, IH. split.
    + intros [[Hk|(t & tst & p & ps & Ht & H)]|(p & ps & H)]; [by left| |].
      * right. exists t, tst, p, ps. rewrite lookup_insert_ne; [done|congruence].
      * right. exists i, x, p, ps. by rewrite lookup_insert_eq.
    + intros [Hk|(t & tst & p & ps & [[-> ->]|[Hne Ht]]%lookup_insert_Some & H)];
        [by left; left| |].
      * right. eauto.
      * left. right. eauto 10.
Qed.

Lemma elem_of_all_partition_keys pl k :
  k ∈ all_partition_keys pl
  <-> ∃ x t tst p ps, x ∈ pl ∧ topics x.2 !! t = Some tst
                      ∧ partitions tst !! p = Some ps
                      ∧ partition ps ≠ Some (-1) ∧ k = partition_key t p.
Proof.
  unfold all_partition_keys.
  cut (∀ keys, k ∈ foldl (fun keys x => add_partition_keys x.2 keys) keys pl
         <-> k ∈ keys
             ∨ ∃ x t tst p ps, x ∈ pl ∧ topics x.2 !! t = Some tst
                  ∧ partitions tst !! p = Some ps
                  ∧ partition ps ≠ Some (-1) ∧ k = partition_key t p).
  { intros H. rewrite H. set_solver. }
  induction pl as [|x pl IH]; intros keys; simpl.
  - setoid_rewrite elem_of_nil. naive_solver.
  - rewrite IH, elem_of_add_partition_keys. setoid_rewrite elem_of_cons.
    naive_solver.
Qed.


(** ** The dictionary the builder returns *)

Lemma time_series_None history :
  _get_time_series_data history = None <-> (length history < 2)%nat.
Proof.
  unfold _get_time_series_data.
  destruct (Nat.ltb_spec (length history) 2); split; (done || lia).
Qed.

Lemma time_series_brokers history d b :
  _get_time_series_data history = Some d ->
  let pl := plottable_stats history in
  Data.brokers d !! b
  = if decide (b ∈ all_broker_keys pl)
    then Some (run_broker b (first_time pl) pl b_data.init)
    else None.
Proof.
  unfold _get_time_series_data.
  destruct (length history <? 2)%nat; [done|]. intros [= <-]. simpl.
  destruct (decide (b ∈ all_broker_keys (plottable_stats history)))
    as [Hb|Hb].
  - rewrite foldl_series_brokers by done. simpl.
    by rewrite (proj2 (lookup_gset_to_gmap_Some _ _ _ _) (conj Hb eq_refl)).
  - apply not_elem_of_dom. rewrite foldl_series_brokers_dom. simpl.
    by rewrite dom_gset_to_gmap.
Qed.

Lemma time_series_timestamps history d :
  _get_time_series_data history = Some d ->
  Data.timestamps d = (plottable_stats history).*1.
Proof.
  unfold _get_time_series_data.
  destruct (length history <? 2)%nat; [done|]. by intros [= <-].
Qed.

Lemma broker_rate_series history d b bd :
  _get_time_series_data history = Some d ->
  Data.brokers d !! b = Some bd ->
  let pl := plottable_stats history in
  b_data.rx_rate bd = rates rxbytes b (first_time pl) None pl
  ∧ b_data.tx_rate bd = rates txbytes b (first_time pl) None pl.
Proof.
  intros Hd Hbd pl.
  rewrite (time_series_brokers _ _ b Hd) in Hbd. fold pl in Hbd.
  destruct (decide (b ∈ all_broker_keys pl)); [|done].
  injection Hbd as <-.
  destruct (run_broker_series b (first_time pl) pl b_data.init)
    as (_ & _ & _ & _ & _ & _ & _ & Hrx & Htx).
  by simpl in Hrx, Htx.
Qed.

(** C2.  The delta of a counter is [current - previous] when there is a
    previous value and the counter did not go down, and 0 otherwise; the
    rate series of every broker are the rates of these deltas, and none of
    their values is negative. *)
Theorem rates_never_negative :
  (∀ previous current,
      previous <= current ->
      counter_delta (Some previous) current = current - previous)
  ∧ (∀ previous current,
      current < previous -> counter_delta (Some previous) current = 0)
  ∧ (∀ current, counter_delta None current = 0)
  ∧ (∀ history d b bd,
      _get_time_series_data history = Some d ->
      Data.brokers d !! b = Some bd ->
      let pl := plottable_stats history in
      b_data.rx_rate bd = rates rxbytes b (first_time pl) None pl
      ∧ b_data.tx_rate bd = rates txbytes b (first_time pl) None pl
      ∧ Forall nonnegative (b_data.rx_rate bd)
      ∧ Forall nonnegative (b_data.tx_rate bd)).
Proof.
  split_and!.
  - intros p c H. unfold counter_delta.
    by rewrite (proj2 (Z.leb_le _ _) H).
  - intros p c H. unfold counter_delta.
    by rewrite (proj2 (Z.leb_gt _ _) H).
  - done.
  - intros history d b bd Hd Hbd pl.
    destruct (broker_rate_series _ _ _ _ Hd Hbd) as [Hrx Htx].
    fold pl in Hrx, Htx. rewrite Hrx, Htx.
    auto using rates_nonneg.
Qed.

Lemma rates_never_negative_witness :
  counter_delta (Some 500) 200 = 0
  ∧ counter_delta (Some 10) 70 = 60
  ∧ ∃ d bd,
      _get_time_series_data counter_reset = Some d
      ∧ Data.brokers d !! "b1" = Some bd
      ∧ b_data.rx_rate bd = [rate 0 1; rate 0 30]
      ∧ b_data.tx_rate bd = [rate 0 1; rate 60 30]
      ∧ Forall nonnegative (b_data.rx_rate bd)
      ∧ Forall nonnegative (b_data.tx_rate bd).
Proof.
  destruct rates_never_negative as (Hup & Hdown & _ & Hseries).
  split; [apply Hdown; lia|].
  split; [apply Hup; lia|].
  eexists. eexists.
  assert (∀ (P Q R : Prop), P -> Q -> (P -> Q -> R) -> P ∧ Q ∧ R) as Hcut
    by tauto.
  apply Hcut; [vm_compute; reflexivity..|].
  intros Hd Hbd.
  destruct (Hseries _ _ _ _ Hd Hbd) as (Hrx & Htx & Hnrx & Hntx).
  split_and!; [|  |exact Hnrx|exact Hntx].
  - rewrite Hrx. vm_compute. reflexivity.
  - rewrite Htx. vm_compute. reflexivity.
Defined.

(** ** The first rate of a series *)

Lemma rate_zero time_delta q : rate 0 time_delta = Num q -> (q == 0)%Q.
Proof.
  unfold rate. intros [= <-]. unfold Qdiv.
  change (inject_Z 0) with 0%Q. by rewrite !Qmult_0_l.
Qed.

(** C10.  For every broker that has series, the first value of [rx_rate]
    and of [tx_rate] is a number, and that number is 0: no counter has been
    seen before the first snapshot. *)
Theorem first_rate_is_zero history d b bd :
  _get_time_series_data history = Some d ->
  Data.brokers d !! b = Some bd ->
  ∃ q_rx q_tx,
    b_data.rx_rate bd !! 0%nat = Some (Num q_rx) ∧ (q_rx == 0)%Q
    ∧ b_data.tx_rate bd !! 0%nat = Some (Num q_tx) ∧ (q_tx == 0)%Q.
Proof.
  intros Hd Hbd.
  destruct (broker_rate_series _ _ _ _ Hd Hbd) as [Hrx Htx].
  rewrite (time_series_brokers _ _ b Hd) in Hbd.
  destruct (decide (b ∈ all_broker_keys (plottable_stats history)))
    as [Hb|]; [|done].
  apply elem_of_all_broker_keys in Hb as (x & _ & Hx & _).
  destruct (plottable_stats history) as [|[t s] pl]; [by apply elem_of_nil in Hx|].
  rewrite Hrx, Htx. simpl.
  eexists _, _. split_and!; [done| |done|]; by eapply rate_zero.
Qed.

Lemma first_rate_is_zero_witness :
  ∃ d bd q_rx q_tx,
    _get_time_series_data counter_reset = Some d
    ∧ Data.brokers d !! "b1" = Some bd
    ∧ b_data.rx_rate bd !! 0%nat = Some (Num q_rx) ∧ (q_rx == 0)%Q
    ∧ b_data.tx_rate bd !! 0%nat = Some (Num q_tx) ∧ (q_tx == 0)%Q.
Proof.
  assert (∃ d bd, _get_time_series_data counter_reset = Some d
                  ∧ Data.brokers d !! "b1" = Some bd) as (d & bd & Hd & Hbd).
  { eexists. eexists. split; vm_compute; reflexivity. }
  destruct (first_rate_is_zero counter_reset d "b1" bd Hd Hbd)
    as (q_rx & q_tx & H).
  exists d, bd, q_rx, q_tx. tauto.
Defined.

(** ** The two-point scenario *)

(** C9, as amended.  With two snapshots at times 100 and 160 in which the
    broker [b1] reports 1,000,000 and then 2,048,000 received bytes, the
    second value of its [rx_rate] series is
    [(2048000 - 1000000) / 60 / (1024 * 1024)], which lies between 0.01665
    and 0.01666. *)
Theorem two_point_rx_rate s1 s2 bs1 bs2 :
  time s1 = Some 100 ->
  time s2 = Some 160 ->
  brokers s1 !! "b1" = Some bs1 ->
  brokers s2 !! "b1" = Some bs2 ->
  source bs1 ≠ Some "logical" ->
  rxbytes bs1 = 1000000 ->
  rxbytes bs2 = 2048000 ->
  ∃ d bd q,
    _get_time_series_data [s1; s2] = Some d
    ∧ Data.brokers d !! "b1" = Some bd
    ∧ b_data.rx_rate bd !! 1%nat = Some (Num q)
    ∧ (q == (2048000 - 1000000) / 60 / (1024 * 1024))%Q
    ∧ (1665 # 100000 < q)%Q ∧ (q < 1666 # 100000)%Q.
Proof.
  intros Ht1 Ht2 Hb1 Hb2 Hsrc Hrx1 Hrx2.
  assert (plottable_stats [s1; s2] = [(100, s1); (160, s2)]) as Hpl.
  { unfold plottable_stats. simpl. by rewrite Ht1, Ht2. }
  assert (∃ d, _get_time_series_data [s1; s2] = Some d) as [d Hd].
  { unfold _get_time_series_data. simpl. eauto. }
  pose proof (time_series_brokers _ _ "b1" Hd) as Hbd. cbv zeta in Hbd.
  rewrite Hpl in Hbd. rewrite decide_True in Hbd.
  2:{ apply elem_of_all_broker_keys. exists (100, s1), bs1.
      split_and!; [left|done..]. }
  match type of Hbd with _ = Some ?X => generalize dependent X end.
  intros bd Hbd.
  destruct (broker_rate_series _ _ _ _ Hd Hbd) as [Hrate _].
  cbv zeta in Hrate. rewrite Hpl in Hrate. simpl in Hrate.
  rewrite Hb1, Hb2 in Hrate. simpl in Hrate. rewrite Hrx1, Hrx2 in Hrate.
  exists d, bd, (inject_Z 1048000 / inject_Z 60 / inject_Z (1024 * 1024))%Q.
  split_and!; [done|exact Hbd| | | |].
  - rewrite Hrate. reflexivity.
  - vm_compute. reflexivity.
  - vm_compute. reflexivity.
  - vm_compute. reflexivity.
Qed.

Lemma two_point_rx_rate_witness :
  ∃ d bd q,
    _get_time_series_data two_point_rx = Some d
    ∧ Data.brokers d !! "b1" = Some bd
    ∧ b_data.rx_rate bd !! 1%nat = Some (Num q)
    ∧ (q == (2048000 - 1000000) / 60 / (1024 * 1024))%Q
    ∧ (1665 # 100000 < q)%Q ∧ (q < 1666 # 100000)%Q.
Proof.
  evar (s1 : RdKafkaStats). evar (s2 : RdKafkaStats).
  assert (two_point_rx = [s1; s2]) as ->.
  { subst s1 s2. vm_compute. reflexivity. }
  eapply (two_point_rx_rate s1 s2).
  - vm_compute. reflexivity.
  - vm_compute. reflexivity.
  - vm_compute. reflexivity.
  - vm_compute. reflexivity.
  - vm_compute. discriminate.
  - vm_compute. reflexivity.
  - vm_compute. reflexivity.
Defined.

(** The claim C9 as written puts that rate at about 0.1665; on the scenario
    the value is below 0.017, so it is not within 0.001 of 0.1665. *)
Lemma two_point_rx_rate_not_0_1665 :
  ∃ d bd q,
    _get_time_series_data two_point_rx = Some d
    ∧ Data.brokers d !! "b1" = Some bd
    ∧ b_data.rx_rate bd !! 1%nat = Some (Num q)
    ∧ (q < 17 # 1000)%Q
    ∧ ¬ (Qabs (q - (1665 # 10000)) <= 1 # 1000)%Q.
Proof.
  eexists. eexists. eexists.
  split; [vm_compute; reflexivity|].
  split; [vm_compute; reflexivity|].
  split; [vm_compute; reflexivity|].
  split; [vm_compute; reflexivity|].
  vm_compute. intros H. apply H. reflexivity.
Qed.

(** ** The time series of one partition *)

Lemma run_topic_lookup t l pm k :
  run_topic t l pm !! k = run_partition t k l <$> pm !! k.
Proof.
  unfold run_topic, run_partition. revert pm.
  induction l as [|x l IH]; intros pm; simpl.
  { by destruct (pm !! k). }
  rewrite IH, map_lookup_imap. by destruct (pm !! k).
Qed.

Lemma foldl_series_topics bk tk l st t :
  st_topics (foldl (series_step bk tk) st l) !! t
  = if decide (t ∈ tk) then run_topic t l <$> st_topics st !! t
    else st_topics st !! t.
Proof.
  revert st. induction l as [|[tm s] l IH]; intros st.
  { simpl. destruct (decide (t ∈ tk)); [|done].
    by destruct (st_topics st !! t). }
  cbn [foldl]. rewrite IH. simpl. rewrite set_fold_alter.
  destruct (decide (t ∈ tk)); [|done].
  by destruct (st_topics st !! t).
Qed.

Lemma time_series_topics history d t :
  _get_time_series_data history = Some d ->
  let pl := plottable_stats history in
  Data.topics d !! t
  = if decide (t ∈ all_topic_keys pl)
    then Some (run_topic t pl (initial_topic t (all_partition_keys pl)))
    else None.
Proof.
  unfold _get_time_series_data.
  destruct (length history <? 2)%nat; [done|]. intros [= <-]. simpl.
  rewrite foldl_series_topics. simpl.
  set (pl := plottable_stats history).
  set (f := fun t0 : string => (t0, initial_topic t0 (all_partition_keys pl))).
  assert (∀ y y', y ∈ all_topic_keys pl -> y' ∈ all_topic_keys pl ->
            (f y).1 = (f y').1 -> y = y') as Hinj by done.
  destruct (decide (t ∈ all_topic_keys pl)) as [Ht|Ht].
  - rewrite (proj2 (lookup_set_to_map f (all_topic_keys pl) t
                      (initial_topic t (all_partition_keys pl)) Hinj)); [done|].
    by exists t.
  - apply eq_None_not_Some. intros [pm Hpm].
    apply (lookup_set_to_map f _ _ _ Hinj) in Hpm as (y & Hy & [= -> _]).
    done.
Qed.

Lemma rsplit_dash_app t p :
  ∃ before after, rsplit_dash (partition_key t p) = Some (before, after).
Proof.
  unfold partition_key. induction t as [|c t (before & after & IH)].
  - change ("" +:+ "-" +:+ p) with (String "-" p). simpl.
    destruct (rsplit_dash p) as [[a b]|]; eauto.
  - change (String c t +:+ "-" +:+ p) with (String c (t +:+ "-" +:+ p)).
    simpl. rewrite IH. eauto.
Qed.

Lemma contains_dash_false p : contains_dash p = false -> rsplit_dash p = None.
Proof.
  induction p as [|c p IH]; simpl; [done|].
  intros [Hc Hp]%orb_false_elim. by rewrite IH, Hc.
Qed.

(** The key of a partition whose id has no dash splits into the topic and
    that id. *)
Lemma rsplit_dash_partition_key t p :
  contains_dash p = false -> rsplit_dash (partition_key t p) = Some (t, p).
Proof.
  intros Hp. unfold partition_key. induction t as [|c t IH].
  - change ("" +:+ "-" +:+ p) with (String "-" p). simpl.
    by rewrite (contains_dash_false p Hp).
  - change (String c t +:+ "-" +:+ p) with (String c (t +:+ "-" +:+ p)).
    simpl. by rewrite IH.
Qed.

Lemma run_partition_series t k l pd before p :
  rsplit_dash k = Some (before, p) ->
  let r := run_partition t k l pd in
  p_data.lag r
    = p_data.lag pd
      ++ ((fun x => part_value (partition_of x.2 t p) consumer_lag) <$> l)
  ∧ p_data.lag_stored r
    = p_data.lag_stored pd
      ++ ((fun x => part_value (partition_of x.2 t p) consumer_lag_stored)
            <$> l)
  ∧ p_data.committed r
    = p_data.committed pd
      ++ ((fun x => part_value (partition_of x.2 t p) committed_offset) <$> l)
  ∧ p_data.stored r
    = p_data.stored pd
      ++ ((fun x => part_value (partition_of x.2 t p) stored_offset) <$> l)
  ∧ p_data.leader_epoch r
    = p_data.leader_epoch pd
      ++ ((fun x => part_value (partition_of x.2 t p) committed_leader_epoch)
            <$> l).
Proof.
  intros Hk. unfold run_partition. revert pd.
  induction l as [|x l IH]; intros pd.
  { simpl. by rewrite !app_nil_r. }
  cbn [foldl]. cbv zeta in *.
  destruct (IH (update_p_data (topics x.2 !! t) k pd))
    as (-> & -> & -> & -> & ->).
  unfold update_p_data. rewrite Hk. simpl. rewrite <-!app_assoc. done.
Qed.

(** ** Gaps *)

Lemma rates_lookup_Num field b last_time last l i :
  (i < length l)%nat -> ∃ q, rates field b last_time last l !! i = Some (Num q).
Proof.
  intros Hi.
  destruct (lookup_lt_is_Some_2 (rates field b last_time last l) i) as [v Hv].
  { by rewrite length_rates. }
  pose proof (rates_nonneg field b last_time last l) as Hall.
  rewrite Forall_lookup in Hall. specialize (Hall i v Hv).
  destruct v as [| |q]; try done. eauto.
Qed.

Lemma prefix_partition_key t p : String.prefix t (partition_key t p) = true.
Proof.
  unfold partition_key. induction t as [|c t IH]; [done|].
  change (String c t +:+ "-" +:+ p) with (String c (t +:+ "-" +:+ p)).
  simpl. by destruct (ascii_dec c c).
Qed.

Lemma absent_broker_series history d b i x :
  _get_time_series_data history = Some d ->
  b ∈ all_broker_keys (plottable_stats history) ->
  plottable_stats history !! i = Some x ->
  brokers x.2 !! b = None ->
  ∃ bd,
    Data.brokers d !! b = Some bd
    ∧ b_data.rtt bd !! i = Some NaN
    ∧ b_data.state bd !! i = Some NaN
    ∧ b_data.throttle bd !! i = Some NaN
    ∧ b_data.connects bd !! i = Some NaN
    ∧ b_data.disconnects bd !! i = Some NaN
    ∧ b_data.rxerrs bd !! i = Some NaN
    ∧ b_data.txerrs bd !! i = Some NaN
    ∧ (∃ q, b_data.rx_rate bd !! i = Some (Num q))
    ∧ (∃ q, b_data.tx_rate bd !! i = Some (Num q)).
Proof.
  intros Hd Hb Hx Hnone.
  pose proof (time_series_brokers _ _ b Hd) as Hbd. cbv zeta in Hbd.
  rewrite decide_True in Hbd by done.
  eexists. split; [exact Hbd|].
  destruct (run_broker_series b (first_time (plottable_stats history))
              (plottable_stats history) b_data.init)
    as (-> & -> & -> & -> & -> & -> & -> & -> & ->).
  simpl. rewrite !list_lookup_fmap, Hx. simpl. rewrite Hnone. simpl.
  split_and!; try done;
    apply rates_lookup_Num; by eapply lookup_lt_Some.
Qed.

Lemma partition_series_entry history d t p :
  _get_time_series_data history = Some d ->
  observed t p (plottable_stats history) ->
  ∃ pm,
    Data.topics d !! t = Some pm
    ∧ pm !! partition_key t p
      = Some (run_partition t (partition_key t p) (plottable_stats history)
                p_data.init).
Proof.
  intros Hd (x & tst & ps & Hx & Ht & Hp & Hps).
  pose proof (time_series_topics _ _ t Hd) as Hpm. cbv zeta in Hpm.
  rewrite decide_True in Hpm.
  2:{ apply elem_of_all_topic_keys. exists x. by rewrite Ht. }
  eexists. split; [exact Hpm|].
  rewrite run_topic_lookup. unfold initial_topic.
  rewrite (proj2 (lookup_gset_to_gmap_Some p_data.init _ _ p_data.init));
    [done|].
  split; [|done]. apply elem_of_filter. split; [apply prefix_partition_key|].
  apply elem_of_all_partition_keys. by exists x, t, tst, p, ps.
Qed.

Lemma absent_partition_series history d t p i x :
  _get_time_series_data history = Some d ->
  observed t p (plottable_stats history) ->
  contains_dash p = false ->
  plottable_stats history !! i = Some x ->
  partition_of x.2 t p = None ->
  ∃ pm pd,
    Data.topics d !! t = Some pm
    ∧ pm !! partition_key t p = Some pd
    ∧ p_data.lag pd !! i = Some NaN
    ∧ p_data.lag_stored pd !! i = Some NaN
    ∧ p_data.committed pd !! i = Some NaN
    ∧ p_data.stored pd !! i = Some NaN
    ∧ p_data.leader_epoch pd !! i = Some NaN.
Proof.
  intros Hd Hobs Hdash Hx Hnone.
  destruct (partition_series_entry _ _ _ _ Hd Hobs) as (pm & Hpm & Hpd).
  eexists pm, _. split; [done|]. split; [exact Hpd|].
  destruct (run_partition_series t (partition_key t p)
              (plottable_stats history) p_data.init t p
              (rsplit_dash_partition_key t p Hdash))
    as (-> & -> & -> & -> & ->).
  simpl. rewrite !list_lookup_fmap, Hx. simpl. rewrite Hnone. done.
Qed.

(** ** Insufficient data *)

Lemma length_plottable_stats l :
  Forall (fun s => time s ≠ None) l -> length (plottable_stats l) = length l.
Proof.
  unfold plottable_stats. induction 1 as [|s l Hs Hl IH]; [done|].
  cbn [omap list_omap]. destruct (time s); [|done]. simpl. f_equal. exact IH.
Qed.

Lemma time_series_broker_aligned history d b bd :
  _get_time_series_data history = Some d ->
  Data.brokers d !! b = Some bd ->
  broker_aligned (length (plottable_stats history)) bd.
Proof.
  intros Hd Hbd. rewrite (time_series_brokers _ _ b Hd) in Hbd.
  destruct (decide (b ∈ all_broker_keys (plottable_stats history)));
    [|done].
  injection Hbd as <-. unfold broker_aligned.
  destruct (run_broker_series b (first_time (plottable_stats history))
              (plottable_stats history) b_data.init)
    as (-> & -> & -> & -> & -> & -> & -> & -> & ->).
  simpl. by rewrite !length_fmap, !length_rates.
Qed.

Lemma time_series_partition_aligned history d t pm k pd :
  _get_time_series_data history = Some d ->
  Data.topics d !! t = Some pm ->
  pm !! k = Some pd ->
  partition_aligned (length (plottable_stats history)) pd.
Proof.
  intros Hd Hpm Hpd. rewrite (time_series_topics _ _ t Hd) in Hpm.
  destruct (decide (t ∈ all_topic_keys (plottable_stats history))); [|done].
  injection Hpm as <-. rewrite run_topic_lookup in Hpd.
  destruct (initial_topic t _ !! k) as [p0|] eqn:Hk; [|done].
  injection Hpd as <-.
  apply lookup_gset_to_gmap_Some in Hk as [Hk <-].
  apply elem_of_filter in Hk as [_ Hk].
  apply elem_of_all_partition_keys in Hk
    as (x & t' & tst & p & ps & _ & _ & _ & _ & ->).
  destruct (rsplit_dash_app t' p) as (before & after & Hsplit).
  unfold partition_aligned.
  destruct (run_partition_series t (partition_key t' p)
              (plottable_stats history) p_data.init before after Hsplit)
    as (-> & -> & -> & -> & ->).
  simpl. by rewrite !length_fmap.
Qed.

(** ** Series diagnostics *)

Lemma is_valid_spec v :
  is_valid v = true
  <-> ∃ q, v = Num q ∧ ¬ (q == -1)%Q ∧ ¬ (q == -1001)%Q.
Proof.
  destruct v as [| |q]; simpl.
  - split; [done|]. by intros (q & ? & _).
  - split; [done|]. by intros (q & ? & _).
  - rewrite andb_true_iff, !negb_true_iff, <-!not_true_iff_false,
      !Qeq_bool_iff.
    split; [intros [??]; by exists q|]. by intros (q' & [= <-] & ? & ?).
Qed.

Lemma is_sentinel_spec v :
  is_sentinel v = true <-> ∃ q, v = Num q ∧ ((q == -1)%Q ∨ (q == -1001)%Q).
Proof.
  destruct v as [| |q]; simpl.
  - split; [done|]. by intros (q & ? & _).
  - split; [done|]. by intros (q & ? & _).
  - rewrite orb_true_iff, !Qeq_bool_iff.
    split; [intros ?; by exists q|]. by intros (q' & [= <-] & ?).
Qed.

Lemma sentinel_not_valid v : is_sentinel v = true -> is_valid v = false.
Proof.
  destruct v as [| |q]; simpl; [done..|].
  intros [->| ->]%orb_true_iff; [done|]. apply andb_false_r.
Qed.

Lemma length_filter_imap {A} (P : A -> Prop) `{!∀ x, Decision (P x)}
    (g : nat -> nat) (l : list A) :
  length (filter (fun iv : nat * A => P iv.2)
                 (imap (fun i x => (g i, x)) l))
  = length (filter P l).
Proof.
  revert g. induction l as [|x l IH]; intros g; [done|].
  cbn [imap]. rewrite !filter_cons. simpl.
  destruct (decide (P x)); simpl; [f_equal|]; apply (IH (fun i => g (S i))).
Qed.

Lemma length_valid_idx values :
  length (valid_idx values)
  = length (filter (fun v => is_valid v = true) values).
Proof.
  unfold valid_idx. rewrite length_fmap.
  exact (length_filter_imap (fun v => is_valid v = true) id values).
Qed.

Lemma series_stats_valid values :
  stat.valid (series_stats values)
  = length (filter (fun v => is_valid v = true) values).
Proof.
  unfold series_stats. rewrite <-length_valid_idx.
  destruct (decide (length (valid_idx values) ≠ O)) as [|Hz]; simpl; [done|].
  destruct (length (valid_idx values)); [done|]. by destruct Hz.
Qed.

Lemma series_stats_not_assigned values :
  stat.not_assigned (series_stats values)
  = length (filter (fun v => is_sentinel v = true) values).
Proof. unfold series_stats. by destruct (decide _). Qed.

Lemma series_stats_total values :
  stat.total (series_stats values) = length values.
Proof. unfold series_stats. by destruct (decide _). Qed.

Lemma all_sentinel_filters values :
  Forall (fun v => is_sentinel v = true) values ->
  filter (fun v => is_sentinel v = true) values = values
  ∧ filter (fun v => is_valid v = true) values = [].
Proof.
  induction 1 as [|v values Hv Hall [IH1 IH2]]; [done|].
  rewrite !filter_cons, IH1, IH2.
  rewrite decide_True by done.
  by rewrite decide_False by (rewrite (sentinel_not_valid v Hv); done).
Qed.

(** C5.  The points counted as valid are the numbers other than -1 and
    -1001, however many sentinels the series has; and a series of sentinels
    only has no valid point, as many not-assigned points as it has points,
    no [constant] flag, the summary line [All n points = Not Assigned], and
    the console hint for too few valid points, not the one for a constant
    series. *)
Theorem sentinels_are_not_valid :
  (∀ values,
      stat.valid (series_stats values)
      = length (filter (fun v => is_valid v = true) values)
      ∧ stat.not_assigned (series_stats values)
        = length (filter (fun v => is_sentinel v = true) values)
      ∧ ∀ v, is_valid v = true
             <-> ∃ q, v = Num q ∧ ¬ (q == -1)%Q ∧ ¬ (q == -1001)%Q)
  ∧ (∀ values,
      Forall (fun v => is_sentinel v = true) values ->
      stat.valid (series_stats values) = O
      ∧ stat.not_assigned (series_stats values) = length values
      ∧ stat.total (series_stats values) = length values
      ∧ stat.constant (series_stats values) = None
      ∧ summary values = AllNotAssigned (length values)
      ∧ console_hint (series_stats values) = FewValidPoints O).
Proof.
  split.
  - intros values.
    auto using series_stats_valid, series_stats_not_assigned, is_valid_spec.
  - intros values [Hs Hv]%all_sentinel_filters.
    assert (stat.valid (series_stats values) = O) as Hvalid
      by by rewrite series_stats_valid, Hv.
    assert (stat.not_assigned (series_stats values) = length values) as Hna
      by by rewrite series_stats_not_assigned, Hs.
    split_and!; [done|done|apply series_stats_total| | |].
    + unfold series_stats. rewrite length_valid_idx, Hv. done.
    + unfold summary. by rewrite decide_True.
    + unfold console_hint. rewrite Hvalid. done.
Qed.

Lemma sentinels_are_not_valid_witness :
  let values := [num (-1001); num (-1001); num (-1)] in
  Forall (fun v => is_sentinel v = true) values
  ∧ stat.valid (series_stats values) = O
  ∧ stat.not_assigned (series_stats values) = 3%nat
  ∧ stat.constant (series_stats values) = None
  ∧ summary values = AllNotAssigned 3
  ∧ console_hint (series_stats values) = FewValidPoints O.
Proof.
  intros values.
  assert (Forall (fun v => is_sentinel v = true) values) as Hall.
  { repeat constructor. }
  split; [exact Hall|].
  destruct (proj2 sentinels_are_not_valid values Hall)
    as (H1 & H2 & _ & H4 & H5 & H6).
  done.
Defined.

(** ** The loop of the fallback ends *)

Lemma bind_not_Diverges {A B} (r : result A) (k : A -> result B) :
  r ≠ Diverges -> (∀ a, k a ≠ Diverges) -> r ≫= k ≠ Diverges.
Proof. destruct r; simpl; auto; done. Qed.

Lemma as_dict_not_Diverges v : as_dict v ≠ Diverges.
Proof. by destruct v. Qed.

Lemma get_int_not_Diverges d k : get_int d k ≠ Diverges.
Proof. unfold get_int. by destruct (d !! k) as [[]|]. Qed.

Lemma get_int_default_not_Diverges d k z : get_int_default d k z ≠ Diverges.
Proof. unfold get_int_default. by destruct (d !! k) as [[]|]. Qed.

Lemma get_str_not_Diverges d k : get_str d k ≠ Diverges.
Proof. unfold get_str. by destruct (d !! k) as [[]|]. Qed.

Lemma dict_comprehension_not_Diverges {A} (f : json -> result A) d :
  (∀ v, f v ≠ Diverges) -> dict_comprehension f d ≠ Diverges.
Proof.
  intros Hf. unfold dict_comprehension.
  induction (map_to_list d) as [|kv l IH]; simpl; [done|].
  apply bind_not_Diverges; [done|]. intros x.
  apply bind_not_Diverges; [done|]. done.
Qed.

Ltac not_Diverges :=
  repeat first
    [ done
    | apply bind_not_Diverges; [|intros ?]
    | apply as_dict_not_Diverges
    | apply get_int_not_Diverges
    | apply get_int_default_not_Diverges
    | apply get_str_not_Diverges ].

Lemma PartitionStats_init_not_Diverges v : PartitionStats_init v ≠ Diverges.
Proof. unfold PartitionStats_init. not_Diverges. Qed.

Lemma TopicStats_init_not_Diverges v : TopicStats_init v ≠ Diverges.
Proof.
  unfold TopicStats_init. not_Diverges.
  apply dict_comprehension_not_Diverges, PartitionStats_init_not_Diverges.
Qed.

Lemma BrokerStats_init_not_Diverges v : BrokerStats_init v ≠ Diverges.
Proof. unfold BrokerStats_init. not_Diverges. Qed.

Lemma RdKafkaStats_init_not_Diverges v : RdKafkaStats_init v ≠ Diverges.
Proof.
  unfold RdKafkaStats_init. not_Diverges.
  - apply dict_comprehension_not_Diverges, BrokerStats_init_not_Diverges.
  - apply dict_comprehension_not_Diverges, TopicStats_init_not_Diverges.
Qed.

Lemma len_str_from n s : len (str_from n s) = (len s - n)%nat.
Proof.
  revert s. induction n as [|n IH]; intros [|c s]; simpl; by try lia.
Qed.

(** A decoder that reads at least one character for every value it returns
    (as any JSON decoder does) makes the loop advance, and the fuel
    [_load_stats] gives it is enough. *)
Lemma extract_terminates raw_decode content :
  (∀ s v n, raw_decode s = Some (v, n) -> (1 <= n)%nat) ->
  ∀ fuel pos history,
    (len content - pos < fuel)%nat ->
    extract raw_decode fuel content pos history ≠ Diverges.
Proof.
  intros Hdec. induction fuel as [|fuel IH]; intros pos history Hfuel;
    [lia|].
  simpl. destruct (Nat.ltb_spec pos (len content)) as [Hpos|]; [|done].
  destruct (decide (lstrip (str_from pos content) = EmptyString));
    [done|].
  destruct (raw_decode (lstrip (str_from pos content)))
    as [[obj read_len]|] eqn:Hobj; [|done].
  apply bind_not_Diverges; [apply RdKafkaStats_init_not_Diverges|].
  intros s. apply IH. rewrite len_str_from.
  apply Hdec in Hobj.
  assert (1 <= len (lstrip (str_from pos content)))%nat.
  { destruct (lstrip (str_from pos content)); [done|simpl; lia]. }
  lia.
Qed.

Lemma init_each_not_Diverges stats_list : init_each stats_list ≠ Diverges.
Proof.
  induction stats_list as [|v l IH]; simpl; [done|].
  apply bind_not_Diverges; [apply RdKafkaStats_init_not_Diverges|].
  intros s. by apply bind_not_Diverges.
Qed.

Lemma load_stats_terminates json_loads raw_decode file :
  (∀ s v n, raw_decode s = Some (v, n) -> (1 <= n)%nat) ->
  _load_stats json_loads raw_decode file ≠ Diverges.
Proof.
  intros Hdec. destruct file as [content|]; simpl; [|done].
  apply bind_not_Diverges; [|done]. unfold read_history.
  destruct (json_loads content) as [v|].
  - destruct v; try (apply bind_not_Diverges;
      [apply RdKafkaStats_init_not_Diverges|done]).
    apply init_each_not_Diverges.
  - apply extract_terminates; [done|lia].
Qed.

(** ** Sequential extraction *)

(** C7.  The loop of the fallback adds to [pos] the length of the value it
    decoded, but not the length of the whitespace [lstrip] removed before
    it, so after a value that followed whitespace the next iteration starts
    inside the text already read.  Three objects written back to back load
    as three snapshots.  Written one per line, only the first two are
    returned: the third iteration starts at the closing brace of the second
    object, where nothing can be decoded, although what remains of the text
    is the third object.  Separated by blank lines, the third iteration
    starts at [2}], decodes the number 2 and the snapshot constructor raises
    [AttributeError]. *)
Theorem extraction_ignores_stripped_whitespace :
  loaded_times (three_objects "") = Ok [Some 1; Some 2; Some 3]
  ∧ loaded_times (three_objects newline) = Ok [Some 1; Some 2]
  ∧ PyJson.raw_decode (PyJson.text "}" +:+ newline +:+ PyJson.text "{'time':3}")
    = None
  ∧ (∃ v n, PyJson.raw_decode (PyJson.text "{'time':3}") = Some (v, n))
  ∧ load_text (three_objects (newline +:+ newline)) = Raise AttributeError
  ∧ PyJson.raw_decode
      (PyJson.text "2}" +:+ newline +:+ newline +:+ PyJson.text "{'time':3}")
    = Some (JInt 2, 1%nat).
Proof.
  split_and!; try (vm_compute; reflexivity).
  do 2 eexists. vm_compute. reflexivity.
Qed.

(** * Further properties of the loader *)



(** X2.  When the whole file is one JSON value that is not an object (a
    number, a string, [true], [false] or [null]), or an array whose first
    element is not an object, the constructor of the snapshot calls [.get]
    on that value and [_load_stats] raises [AttributeError]. *)
Theorem load_of_a_scalar_raises json_loads raw_decode content v :
  json_loads content = Some v ->
  not_an_object v = true ->
  (∀ stats_list, v = JList stats_list ->
     ∃ first rest, stats_list = first :: rest ∧ not_an_object first = true) ->
  _load_stats json_loads raw_decode (Some content) = Raise AttributeError.
Proof.
  intros Hloads Hv Hlist. unfold _load_stats, read_history. rewrite Hloads.
  destruct v as [| | | |stats_list|]; try done.
  destruct (Hlist stats_list eq_refl) as (first & rest & -> & Hfirst).
  by destruct first.
Qed.

Lemma load_of_a_scalar_raises_witness :
  load_text "42" = Raise AttributeError
  ∧ load_text (PyJson.text "[null,{'time':1}]") = Raise AttributeError.
Proof.
  split.
  - apply (load_of_a_scalar_raises PyJson.loads PyJson.raw_decode "42"
             (JInt 42)); [vm_compute; reflexivity|reflexivity|discriminate].
  - apply (load_of_a_scalar_raises PyJson.loads PyJson.raw_decode
             (PyJson.text "[null,{'time':1}]")
             (JList [JNull; JDict {["time" := JInt 1]}]));
      [vm_compute; reflexivity|reflexivity|].
    intros stats_list [= <-]. by eexists _, _.
Defined.

(** ** What deduplication keeps *)

Lemma elem_of_same_time t l s : s ∈ same_time t l <-> s ∈ l ∧ time s = Some t.
Proof. unfold same_time. rewrite list_elem_of_filter. tauto. Qed.

(** The anchors the loop has filed: one for every time that occurs. *)
Lemma elem_of_seen_timestamps history t :
  (∃ r, (t, r) ∈ seen_timestamps history)
  <-> ∃ s, s ∈ history ∧ time s = Some t.
Proof.
  destruct (seen_timestamps_ok history) as [Hnd _].
  pose proof (seen_get_foldl t (list_sort ts_key history) []) as Hget.
  simpl in Hget. fold (seen_timestamps history) in Hget. split.
  - intros [r Hin]. rewrite (seen_get_elem_of _ _ _ Hnd Hin) in Hget.
    destruct (same_time t (list_sort ts_key history)) as [|anchor later] eqn:Hg;
      [done|].
    exists anchor. rewrite <-(list_sort_perm ts_key history).
    apply elem_of_same_time. rewrite Hg. left.
  - intros (s & Hin & Hs).
    assert (s ∈ same_time t (list_sort ts_key history)) as Hmem.
    { apply elem_of_same_time. by rewrite list_sort_perm. }
    destruct (same_time t (list_sort ts_key history)) as [|anchor later];
      [by apply elem_of_nil in Hmem|].
    eexists. by apply seen_get_Some.
Qed.

Lemma elem_of_deduplicate history r :
  r ∈ deduplicate history
  <-> ∃ t, (t, r) ∈ seen_timestamps history ∧ time r = Some t.
Proof.
  unfold deduplicate. rewrite list_sort_perm.
  destruct (seen_timestamps_ok history) as [_ Htime]. split.
  - intros [[t r'] [-> Hin]]%list_elem_of_fmap. exists t. split; [done|].
    by apply Htime.
  - intros (t & Hin & _). apply list_elem_of_fmap. by exists (t, r).
Qed.

(** X3.  The retained snapshots carry exactly the times that occur in the
    records read: a time is the time of a retained snapshot if and only if
    some record has it.  Records without a time are dropped, and the result
    is never longer than the input. *)
Theorem deduplicate_keeps_the_times history :
  (∀ t, (∃ r, r ∈ deduplicate history ∧ time r = Some t)
        <-> ∃ s, s ∈ history ∧ time s = Some t)
  ∧ (length (deduplicate history) <= length history)%nat.
Proof.
  assert (∀ t, (∃ r, r ∈ deduplicate history ∧ time r = Some t)
               <-> ∃ s, s ∈ history ∧ time s = Some t) as Hiff.
  { intros t. rewrite <-(elem_of_seen_timestamps history t). split.
    - intros (r & Hr & Ht).
      apply elem_of_deduplicate in Hr as (t' & Hin & Ht').
      exists r. congruence.
    - intros [r Hin]. exists r.
      destruct (seen_timestamps_ok history) as [_ Htime].
      split; [|by apply Htime]. apply elem_of_deduplicate. exists t.
      split; [done|by apply Htime]. }
  split; [done|].
  rewrite <-(length_fmap time (deduplicate history)),
          <-(length_fmap time history).
  apply submseteq_length, NoDup_submseteq; [apply deduplicate_NoDup|].
  intros o (r & -> & Hr)%list_elem_of_fmap.
  pose proof (deduplicate_timestamped history) as Hall.
  rewrite Forall_forall in Hall. specialize (Hall r Hr).
  destruct (time r) as [t|] eqn:Ht; [|done].
  destruct (proj1 (Hiff t)) as (s & Hs & Hts); [by exists r|].
  apply list_elem_of_fmap. by exists s.
Qed.

Lemma covers_refl s : covers s s.
Proof. split; [done|]. intros t_name ts Hts. by exists ts. Qed.

Lemma covers_trans a b c : covers a b -> covers b c -> covers a c.
Proof.
  intros [Hab Hab'] [Hbc Hbc']. split; [set_solver|].
  intros t_name ts Hts. destruct (Hbc' _ _ Hts) as (tb & Htb & Hsub).
  destruct (Hab' _ _ Htb) as (ta & Hta & Hsub'). exists ta. set_solver.
Qed.

Lemma merge_into_covers_existing existing stat :
  covers (merge_into existing stat) existing.
Proof.
  split; simpl.
  - rewrite merge_brokers_union, dom_union. set_solver.
  - intros t_name ts Hts. rewrite merge_topics_lookup, Hts.
    destruct (topics stat !! t_name) as [nt|]; eexists; (split; [done|]);
      simpl; [rewrite dom_union; set_solver|done].
Qed.

Lemma merge_into_covers_stat existing stat :
  covers (merge_into existing stat) stat.
Proof.
  split; simpl.
  - rewrite merge_brokers_union, dom_union. set_solver.
  - intros t_name ts Hts. rewrite merge_topics_lookup, Hts.
    destruct (topics existing !! t_name) as [et|]; eexists; (split; [done|]);
      simpl; [rewrite dom_union; set_solver|done].
Qed.

Lemma foldl_merge_into_covers later anchor s :
  s ∈ anchor :: later -> covers (foldl merge_into anchor later) s.
Proof.
  revert anchor s. induction later as [|x later IH]; intros anchor s Hin; simpl.
  { apply list_elem_of_singleton in Hin as ->. apply covers_refl. }
  apply elem_of_cons in Hin as [->|Hin].
  - eapply covers_trans; [apply IH; left|apply merge_into_covers_existing].
  - apply elem_of_cons in Hin as [->|Hin].
    + eapply covers_trans; [apply IH; left|apply merge_into_covers_stat].
    + apply IH. by right.
Qed.

(** X4.  Deduplication loses no entity: for every record that has a time,
    the retained snapshot of that time has every broker id, every topic
    name and, in each topic, every partition id of the record. *)
Theorem deduplicate_loses_no_entity history s t :
  s ∈ history ->
  time s = Some t ->
  ∃ r, r ∈ deduplicate history ∧ time r = Some t ∧ covers r s.
Proof.
  intros Hin Hs.
  assert (s ∈ same_time t (list_sort ts_key history)) as Hmem.
  { apply elem_of_same_time. by rewrite list_sort_perm. }
  pose proof (seen_get_foldl t (list_sort ts_key history) []) as Hget.
  simpl in Hget. fold (seen_timestamps history) in Hget.
  destruct (same_time t (list_sort ts_key history)) as [|anchor later];
    [by apply elem_of_nil in Hmem|].
  apply seen_get_Some in Hget.
  destruct (seen_timestamps_ok history) as [_ Htime].
  exists (foldl merge_into anchor later). split_and!.
  - apply elem_of_deduplicate. exists t. split; [done|by apply Htime].
  - by apply Htime.
  - by apply foldl_merge_into_covers.
Qed.

Lemma deduplicate_loses_no_entity_witness :
  ∃ s, split_record !! 1%nat = Some s
       ∧ time s = Some 100
       ∧ ∃ r, r ∈ deduplicate split_record ∧ time r = Some 100 ∧ covers r s.
Proof.
  evar (s : RdKafkaStats).
  assert (split_record !! 1%nat = Some s) as Hs
    by (subst s; vm_compute; reflexivity).
  exists s. split; [exact Hs|]. split; [reflexivity|].
  apply (deduplicate_loses_no_entity split_record s 100); [|reflexivity].
  by apply list_elem_of_lookup_2 in Hs.
Defined.

(** X5.  Merging two snapshots gives the same broker ids, topic names and,
    in every topic, partition ids whichever of the two is the anchor; only
    the values kept for the shared ones depend on the order. *)
Theorem merge_keys_do_not_depend_on_order a b :
  dom (brokers (merge_into a b)) = dom (brokers (merge_into b a))
  ∧ dom (topics (merge_into a b)) = dom (topics (merge_into b a))
  ∧ ∀ t_name tab tba,
      topics (merge_into a b) !! t_name = Some tab ->
      topics (merge_into b a) !! t_name = Some tba ->
      dom (partitions tab) = dom (partitions tba).
Proof.
  simpl. split_and!.
  - rewrite !merge_brokers_union, !dom_union_L. set_solver.
  - apply set_eq. intros t_name. rewrite !elem_of_dom, !merge_topics_lookup.
    destruct (topics a !! t_name), (topics b !! t_name);
      split; intros [? ?]; by eexists.
  - intros t_name tab tba. rewrite !merge_topics_lookup.
    destruct (topics a !! t_name) as [ta|], (topics b !! t_name) as [tb|];
      intros [= <-] [= <-]; simpl; [|done..].
    rewrite !dom_union_L. set_solver.
Qed.



(** ** Termination of the fallback loop *)

Module PyJsonFacts.
Import PyJson.

Lemma skip_ws_len s : (len (skip_ws s) <= len s)%nat.
Proof.
  induction s as [|c s IH]; simpl; [done|].
  destruct (json_ws c); simpl; lia.
Qed.

Lemma scanstring_len n s acc v r :
  (len s <= n)%nat -> scanstring s acc = Some (v, r) -> (len r < len s)%nat.
Proof.
  revert s acc. induction n as [|n IH]; intros [|c s] acc Hn;
    cbn [scanstring]; try done; cbn [String.length] in *; [lia|].
  destruct (c =? dquote)%char; [intros [= <- <-]; lia|].
  destruct (c =? backslash)%char.
  - destruct s as [|e s']; [done|]. destruct (unescape e); [|done].
    cbn [String.length] in *. intros H%IH; lia.
  - destruct (nat_of_ascii c <? 32)%nat; [done|]. intros H%IH; lia.
Qed.

Lemma scan_digits_len s acc : (len (scan_digits s acc).2 <= len s)%nat.
Proof.
  revert acc. induction s as [|c s IH]; intros acc; cbn [scan_digits]; [done|].
  destruct (digit c); [|done]. specialize (IH (10 * acc + z)).
  cbn [String.length]. lia.
Qed.

Lemma scan_natural_len s n r :
  scan_natural s = Some (n, r) -> (len r < len s)%nat.
Proof.
  destruct s as [|c s]; cbn [scan_natural]; [done|].
  destruct (digit c) as [[|p|p]|]; try done; cbn [String.length].
  - intros [= <- <-]. lia.
  - intros [= H]. pose proof (scan_digits_len s (Z.pos p)) as Hlen.
    rewrite H in Hlen. simpl in Hlen. lia.
  - intros [= H]. pose proof (scan_digits_len s (Z.neg p)) as Hlen.
    rewrite H in Hlen. simpl in Hlen. lia.
Qed.

Lemma scan_number_len s v r :
  scan_number s = Some (v, r) -> (len r < len s)%nat.
Proof.
  unfold scan_number.
  destruct s as [|c s]; [done|].
  destruct (c =? "-")%char.
  - destruct (scan_natural s) as [[n rest]|] eqn:Hn; [|done]. simpl.
    destruct (float_tail rest); [done|]. intros [= <- <-].
    apply scan_natural_len in Hn. lia.
  - destruct (scan_natural (String c s)) as [[n rest]|] eqn:Hn; [|done]. simpl.
    destruct (float_tail rest); [done|]. intros [= <- <-].
    by apply scan_natural_len in Hn.
Qed.

Section scan.
Variable scan : string -> option (json * string).
Hypothesis scan_len : ∀ s v r, scan s = Some (v, r) -> (len r < len s)%nat.

Lemma scan_members_len n s pairs v r :
  scan_members scan n s pairs = Some (v, r) -> (len r < len s)%nat.
Proof.
  revert s pairs. induction n as [|n IH]; intros s pairs; cbn [scan_members];
    [done|].
  destruct (scanstring s []) as [[key r0]|] eqn:Hkey; [|done]. simpl.
  apply (scanstring_len (len s)) in Hkey; [|done].
  pose proof (skip_ws_len r0) as H0.
  destruct (skip_ws r0) as [|c r1]; [done|].
  destruct (c =? ":")%char; [|done].
  pose proof (skip_ws_len r1) as H1.
  destruct (scan (skip_ws r1)) as [[value r2]|] eqn:Hval; [|done]. simpl.
  apply scan_len in Hval.
  pose proof (skip_ws_len r2) as H2.
  destruct (skip_ws r2) as [|c2 r3]; [done|].
  cbn [String.length] in *.
  destruct (c2 =? "}")%char; [intros [= <- <-]; lia|].
  destruct (c2 =? ",")%char; [|done].
  pose proof (skip_ws_len r3) as H3.
  destruct (skip_ws r3) as [|c3 r4]; [done|].
  cbn [String.length] in *.
  destruct (c3 =? dquote)%char; [|done].
  intros H%IH. lia.
Qed.

Lemma scan_elements_len n s values v r :
  scan_elements scan n s values = Some (v, r) -> (len r < len s)%nat.
Proof.
  revert s values. induction n as [|n IH]; intros s values;
    cbn [scan_elements]; [done|].
  destruct (scan s) as [[value r0]|] eqn:Hval; [|done]. simpl.
  apply scan_len in Hval.
  pose proof (skip_ws_len r0) as H0.
  destruct (skip_ws r0) as [|c r1]; [done|].
  cbn [String.length] in *.
  destruct (c =? "]")%char; [intros [= <- <-]; lia|].
  destruct (c =? ",")%char; [|done].
  pose proof (skip_ws_len r1) as H1.
  intros H%IH. lia.
Qed.
End scan.

Lemma scan_once_len depth s v r :
  scan_once depth s = Some (v, r) -> (len r < len s)%nat.
Proof.
  revert s v r. induction depth as [|depth IH]; intros s v r;
    cbn [scan_once]; [done|].
  destruct s as [|c s]; [done|].
  destruct (c =? dquote)%char.
  { destruct (scanstring s []) as [[str r']|] eqn:Hstr; [|done]. simpl.
    intros [= <- <-]. apply (scanstring_len (len s)) in Hstr; [|done].
    cbn [String.length]. lia. }
  destruct (c =? "{")%char.
  { pose proof (skip_ws_len s) as H0.
    destruct (skip_ws s) as [|c1 r1]; [done|]. cbn [String.length] in *.
    destruct (c1 =? "}")%char; [intros [= <- <-]; lia|].
    destruct (c1 =? dquote)%char; [|done].
    intros H%scan_members_len; [lia|done]. }
  destruct (c =? "[")%char.
  { pose proof (skip_ws_len s) as H0.
    destruct (skip_ws s) as [|c1 r1] eqn:Hskip; [done|].
    cbn [String.length] in *.
    destruct (c1 =? "]")%char; [intros [= <- <-]; lia|].
    intros H%scan_elements_len; [|done]. cbn [String.length] in *. lia. }
  destruct (String.prefix "null" (String c s)).
  { intros H. replace r with (str_from 4 (String c s)) by congruence.
    rewrite len_str_from. cbn [String.length]. lia. }
  destruct (String.prefix "true" (String c s)).
  { intros H. replace r with (str_from 4 (String c s)) by congruence.
    rewrite len_str_from. cbn [String.length]. lia. }
  destruct (String.prefix "false" (String c s)).
  { intros H. replace r with (str_from 5 (String c s)) by congruence.
    rewrite len_str_from. cbn [String.length]. lia. }
  apply scan_number_len.
Qed.

(** Every value [raw_decode] returns is at least one character long. *)
Lemma raw_decode_advances s v n :
  raw_decode s = Some (v, n) -> (1 <= n)%nat.
Proof.
  unfold raw_decode.
  destruct (scan_once (S (len s)) s) as [[obj rest]|] eqn:Hscan; [|done].
  simpl. intros [= <- <-]. apply scan_once_len in Hscan. lia.
Qed.
End PyJsonFacts.

(** X7.  The fallback loop terminates: with a decoder that reads at least
    one character for every value it returns, the position grows in every
    iteration that continues, and [_load_stats] returns a history or raises
    after at most one iteration per character of the file.  The decoder
    the examples run with is such a decoder. *)
Theorem load_stats_returns_or_raises json_loads raw_decode file :
  (∀ s v n, raw_decode s = Some (v, n) -> (1 <= n)%nat) ->
  (∃ retained, _load_stats json_loads raw_decode file = Ok retained)
  ∨ (∃ e, _load_stats json_loads raw_decode file = Raise e).
Proof.
  intros Hdec.
  pose proof (load_stats_terminates json_loads raw_decode file Hdec) as Hterm.
  destruct (_load_stats json_loads raw_decode file) as [retained|e|];
    [left; by exists retained|right; by exists e|done].
Qed.

Lemma load_stats_returns_or_raises_witness :
  (∀ s v n, PyJson.raw_decode s = Some (v, n) -> (1 <= n)%nat)
  ∧ ((∃ retained, load_text (three_objects newline) = Ok retained)
     ∨ (∃ e, load_text (three_objects newline) = Raise e)).
Proof.
  split; [exact PyJsonFacts.raw_decode_advances|].
  apply (load_stats_returns_or_raises PyJson.loads PyJson.raw_decode
           (Some (three_objects newline))).
  exact PyJsonFacts.raw_decode_advances.
Defined.

(** * Further properties of the time series *)

Lemma elem_of_plottable_stats history t s :
  (t, s) ∈ plottable_stats history <-> s ∈ history ∧ time s = Some t.
Proof.
  unfold plottable_stats. rewrite list_elem_of_omap. split.
  - intros (s' & Hin & Hs). destruct (time s') as [t'|] eqn:Ht; [|done].
    simpl in Hs. by injection Hs as <- <-.
  - intros [Hin Hs]. exists s. by rewrite Hs.
Qed.

(** A broker has an entry in the series exactly when some snapshot with a
    time reports it with a [source] other than [logical]. *)
Lemma time_series_broker_keys history d b :
  _get_time_series_data history = Some d ->
  is_Some (Data.brokers d !! b)
  <-> ∃ s bs, s ∈ history ∧ time s ≠ None ∧ brokers s !! b = Some bs
              ∧ source bs ≠ Some "logical".
Proof.
  intros Hd. rewrite (time_series_brokers history d b Hd). cbv zeta.
  destruct (decide (b ∈ all_broker_keys (plottable_stats history)))
    as [Hin|Hnot].
  - split; [intros _|by eexists].
    apply elem_of_all_broker_keys in Hin as ([t s] & bs & Hx & Hb & Hs).
    apply elem_of_plottable_stats in Hx as [Hx Ht].
    exists s, bs. split_and!; [done|congruence|done..].
  - split; [by intros [? ?]|]. intros (s & bs & Hs & Ht & Hb & Hsrc).
    destruct Hnot. apply elem_of_all_broker_keys.
    destruct (time s) as [t|] eqn:Htime; [|done].
    exists (t, s), bs. split_and!; [|done..].
    by apply elem_of_plottable_stats.
Qed.

Lemma initial_topic_lookup t keys k :
  initial_topic t keys !! k
  = if decide (String.prefix t k = true ∧ k ∈ keys) then Some p_data.init
    else None.
Proof.
  unfold initial_topic. destruct (decide _) as [[Hp Hk]|Hnot].
  - apply lookup_gset_to_gmap_Some. split; [|done]. by apply elem_of_filter.
  - apply lookup_gset_to_gmap_None. rewrite elem_of_filter. tauto.
Qed.

(** A topic has an entry exactly when some snapshot with a time reports
    it; the entry holds a series for every partition key of the universe
    that starts with the name of the topic. *)
Lemma time_series_topic_keys history d t :
  _get_time_series_data history = Some d ->
  (is_Some (Data.topics d !! t)
   <-> ∃ s, s ∈ history ∧ time s ≠ None ∧ is_Some (topics s !! t))
  ∧ ∀ pm, Data.topics d !! t = Some pm ->
      ∀ k, is_Some (pm !! k)
           <-> String.prefix t k = true
               ∧ ∃ t' p, k = partition_key t' p
                         ∧ observed t' p (plottable_stats history).
Proof.
  intros Hd. pose proof (time_series_topics history d t Hd) as Htopic.
  cbv zeta in Htopic. split.
  - rewrite Htopic.
    destruct (decide (t ∈ all_topic_keys (plottable_stats history)))
      as [Hin|Hnot].
    + split; [intros _|by eexists].
      apply elem_of_all_topic_keys in Hin as ([tm s] & Hx & Ht).
      apply elem_of_plottable_stats in Hx as [Hx Htime].
      exists s. split_and!; [done|congruence|done].
    + split; [by intros [? ?]|]. intros (s & Hs & Htime & Ht).
      destruct Hnot. apply elem_of_all_topic_keys.
      destruct (time s) as [tm|] eqn:Htm; [|done].
      exists (tm, s). split; [|done]. by apply elem_of_plottable_stats.
  - intros pm Hpm k. rewrite Htopic in Hpm.
    destruct (decide (t ∈ all_topic_keys (plottable_stats history)));
      [|done].
    injection Hpm as <-. rewrite run_topic_lookup, initial_topic_lookup.
    assert (k ∈ all_partition_keys (plottable_stats history)
            <-> ∃ t' p, k = partition_key t' p
                        ∧ observed t' p (plottable_stats history)) as Hkeys.
    { rewrite elem_of_all_partition_keys. unfold observed. split.
      - intros (x & t' & tst & p & ps & Hx & Ht & Hp & Hs & ->).
        exists t', p. split; [done|]. by exists x, tst, ps.
      - intros (t' & p & -> & x & tst & ps & Hx & Ht & Hp & Hs).
        by exists x, t', tst, p, ps. }
    rewrite <-Hkeys.
    destruct (decide _) as [Hyes|Hno]; simpl.
    + split; [done|by eexists].
    + split; [by intros [? ?]|done].
Qed.

Lemma time_series_broker_entry history d b bd :
  _get_time_series_data history = Some d ->
  Data.brokers d !! b = Some bd ->
  bd = run_broker b (first_time (plottable_stats history))
         (plottable_stats history) b_data.init.
Proof.
  intros Hd Hbd. rewrite (time_series_brokers history d b Hd) in Hbd.
  cbv zeta in Hbd. destruct (decide _); [|done]. by injection Hbd as <-.
Qed.

(** X8.  At the index of a snapshot that has the broker, the series hold
    what the snapshot reports: the two averages divided by 1000 (a gap when
    the average is missing), the state as 1, 0 or -1 (a gap for any other
    state), and the four counters unchanged. *)
Theorem present_broker_values history d b bd i x bs :
  _get_time_series_data history = Some d ->
  Data.brokers d !! b = Some bd ->
  plottable_stats history !! i = Some x ->
  brokers x.2 !! b = Some bs ->
  b_data.rtt bd !! i
    = Some (match rtt_avg bs with
            | Some avg => Num (inject_Z avg / 1000)
            | None => NaN
            end)
  ∧ b_data.throttle bd !! i
    = Some (match throttle_avg bs with
            | Some avg => Num (inject_Z avg / 1000)
            | None => NaN
            end)
  ∧ b_data.state bd !! i = Some (state_map (state bs))
  ∧ b_data.connects bd !! i = Some (num (connects bs))
  ∧ b_data.disconnects bd !! i = Some (num (disconnects bs))
  ∧ b_data.rxerrs bd !! i = Some (num (rxerrs bs))
  ∧ b_data.txerrs bd !! i = Some (num (txerrs bs)).
Proof.
  intros Hd Hbd Hx Hb.
  rewrite (time_series_broker_entry history d b bd Hd Hbd).
  destruct (run_broker_series b (first_time (plottable_stats history))
              (plottable_stats history) b_data.init)
    as (-> & -> & -> & -> & -> & -> & -> & _).
  simpl. rewrite !list_lookup_fmap, Hx. simpl. rewrite Hb. done.
Qed.

Lemma present_broker_values_witness :
  ∃ d bd, _get_time_series_data late_assignment = Some d
          ∧ Data.brokers d !! "b1" = Some bd
          ∧ b_data.rtt bd !! 0%nat = Some NaN
          ∧ b_data.rtt bd !! 1%nat = Some (Num (inject_Z 2500 / 1000))
          ∧ b_data.state bd !! 1%nat = Some (num (-1))
          ∧ b_data.connects bd !! 1%nat = Some (num 3).
Proof.
  assert (∃ d bd, _get_time_series_data late_assignment = Some d
                  ∧ Data.brokers d !! "b1" = Some bd) as (d & bd & Hd & Hbd).
  { do 2 eexists. split; solve [vm_compute; reflexivity]. }
  assert (∃ x0 bs0 x1 bs1,
            plottable_stats late_assignment !! 0%nat = Some x0
            ∧ brokers x0.2 !! "b1" = Some bs0 ∧ rtt_avg bs0 = None
            ∧ plottable_stats late_assignment !! 1%nat = Some x1
            ∧ brokers x1.2 !! "b1" = Some bs1 ∧ rtt_avg bs1 = Some 2500
            ∧ state bs1 = Some "DOWN" ∧ connects bs1 = 3)
    as (x0 & bs0 & x1 & bs1 & Hx0 & Hb0 & Hr0 & Hx1 & Hb1 & Hr1 & Hs1 & Hc1).
  { do 4 eexists. split_and!; solve [vm_compute; reflexivity]. }
  destruct (present_broker_values late_assignment d "b1" bd 0 x0 bs0
              Hd Hbd Hx0 Hb0) as (Hrtt0 & _).
  destruct (present_broker_values late_assignment d "b1" bd 1 x1 bs1
              Hd Hbd Hx1 Hb1) as (Hrtt1 & _ & Hstate & Hconn & _).
  rewrite Hr0 in Hrtt0. rewrite Hr1 in Hrtt1. rewrite Hs1 in Hstate.
  rewrite Hc1 in Hconn. exists d, bd.
  split_and!; [exact Hd|exact Hbd|exact Hrtt0|exact Hrtt1|exact Hstate
              |exact Hconn].
Defined.

(** The rate at the index after [i], from the two snapshots at [i] and
    after it. *)
Lemma rates_lookup_S field b last_time last l i x y :
  l !! i = Some x ->
  l !! S i = Some y ->
  rates field b last_time last l !! S i
  = Some (rate (counter_delta
                  (Some (current_counter field (brokers x.2 !! b)))
                  (current_counter field (brokers y.2 !! b)))
               (time_delta_of x.1 y.1)).
Proof.
  revert last_time last l.
  induction i as [|i IH]; intros last_time last [|[t s] l]; try done.
  - destruct l as [|[t' s'] l]; [done|]. by intros [= <-] [= <-].
  - intros Hx Hy. simpl. by apply IH.
Qed.

(** X9.  From the second point on, a rate is computed from two consecutive
    snapshots with a time: the growth of the counter between them (zero
    when it went down, the counter of a missing broker counting as 0)
    divided by the seconds between them and by 1024 * 1024. *)
Theorem rate_between_consecutive_snapshots history d b bd i x y :
  _get_time_series_data history = Some d ->
  Data.brokers d !! b = Some bd ->
  plottable_stats history !! i = Some x ->
  plottable_stats history !! S i = Some y ->
  b_data.rx_rate bd !! S i
    = Some (rate (counter_delta
                    (Some (current_counter rxbytes (brokers x.2 !! b)))
                    (current_counter rxbytes (brokers y.2 !! b)))
                 (time_delta_of x.1 y.1))
  ∧ b_data.tx_rate bd !! S i
    = Some (rate (counter_delta
                    (Some (current_counter txbytes (brokers x.2 !! b)))
                    (current_counter txbytes (brokers y.2 !! b)))
                 (time_delta_of x.1 y.1)).
Proof.
  intros Hd Hbd Hx Hy.
  destruct (broker_rate_series history d b bd Hd Hbd) as [-> ->].
  split; by apply rates_lookup_S.
Qed.

Lemma rate_between_consecutive_snapshots_witness :
  ∃ d bd, _get_time_series_data counter_reset = Some d
          ∧ Data.brokers d !! "b1" = Some bd
          ∧ b_data.rx_rate bd !! 1%nat = Some (rate 0 30)
          ∧ b_data.tx_rate bd !! 1%nat = Some (rate 60 30).
Proof.
  assert (∃ d bd, _get_time_series_data counter_reset = Some d
                  ∧ Data.brokers d !! "b1" = Some bd) as (d & bd & Hd & Hbd).
  { do 2 eexists. split; solve [vm_compute; reflexivity]. }
  assert (∃ x y, plottable_stats counter_reset !! 0%nat = Some x
                 ∧ plottable_stats counter_reset !! 1%nat = Some y
                 ∧ current_counter rxbytes (brokers x.2 !! "b1") = 500
                 ∧ current_counter rxbytes (brokers y.2 !! "b1") = 200
                 ∧ current_counter txbytes (brokers x.2 !! "b1") = 10
                 ∧ current_counter txbytes (brokers y.2 !! "b1") = 70
                 ∧ time_delta_of x.1 y.1 = 30)
    as (x & y & Hx & Hy & Hrx0 & Hrx1 & Htx0 & Htx1 & Hdt).
  { do 2 eexists. split_and!; solve [vm_compute; reflexivity]. }
  destruct (rate_between_consecutive_snapshots counter_reset d "b1" bd 0 x y
              Hd Hbd Hx Hy) as [Hrx Htx].
  rewrite Hrx0, Hrx1, Hdt in Hrx. rewrite Htx0, Htx1, Hdt in Htx.
  exists d, bd. split_and!; [exact Hd|exact Hbd|exact Hrx|exact Htx].
Defined.

(** X10.  A broker that is missing from one snapshot is taken to have
    transferred nothing so far.  When it is back in the next snapshot, its
    whole cumulative counter is counted as the growth of that one interval:
    the rate at that index is the counter itself divided by the seconds of
    the interval and by 1024 * 1024. *)
Theorem rate_after_an_absence history d b bd i x y bs :
  _get_time_series_data history = Some d ->
  Data.brokers d !! b = Some bd ->
  plottable_stats history !! i = Some x ->
  plottable_stats history !! S i = Some y ->
  brokers x.2 !! b = None ->
  brokers y.2 !! b = Some bs ->
  0 <= rxbytes bs ->
  0 <= txbytes bs ->
  b_data.rx_rate bd !! S i = Some (rate (rxbytes bs) (time_delta_of x.1 y.1))
  ∧ b_data.tx_rate bd !! S i = Some (rate (txbytes bs) (time_delta_of x.1 y.1)).
Proof.
  intros Hd Hbd Hx Hy Hnone Hsome Hrx Htx.
  destruct (broker_rate_series history d b bd Hd Hbd) as [-> ->].
  rewrite !(rates_lookup_S _ b _ _ _ i x y Hx Hy), Hnone, Hsome. simpl.
  unfold counter_delta.
  destruct (Z.leb_spec 0 (rxbytes bs)), (Z.leb_spec 0 (txbytes bs)); try lia.
  by rewrite !Z.sub_0_r.
Qed.

Lemma rate_after_an_absence_witness :
  ∃ d bd, _get_time_series_data broker_disappears = Some d
          ∧ Data.brokers d !! "b1" = Some bd
          ∧ b_data.rx_rate bd !! 2%nat = Some (rate 900 30).
Proof.
  assert (∃ d bd, _get_time_series_data broker_disappears = Some d
                  ∧ Data.brokers d !! "b1" = Some bd) as (d & bd & Hd & Hbd).
  { do 2 eexists. split; solve [vm_compute; reflexivity]. }
  assert (∃ x y bs, plottable_stats broker_disappears !! 1%nat = Some x
                    ∧ plottable_stats broker_disappears !! 2%nat = Some y
                    ∧ brokers x.2 !! "b1" = None
                    ∧ brokers y.2 !! "b1" = Some bs
                    ∧ rxbytes bs = 900 ∧ txbytes bs = 0
                    ∧ time_delta_of x.1 y.1 = 30)
    as (x & y & bs & Hx & Hy & Hnone & Hsome & Hrx & Htx & Hdt).
  { do 3 eexists. split_and!; solve [vm_compute; reflexivity]. }
  destruct (rate_after_an_absence broker_disappears d "b1" bd 1 x y bs
              Hd Hbd Hx Hy Hnone Hsome) as [Hrate _]; [lia..|].
  rewrite Hrx, Hdt in Hrate. exists d, bd.
  split_and!; [exact Hd|exact Hbd|exact Hrate].
Defined.

(** ** Merging into the anchor *)

Lemma filter_unique {A B} `{EqDecision B} (f : A -> B) (l : list A) x v :
  NoDup (f <$> l) -> x ∈ l -> f x = v -> filter (fun y => f y = v) l = [x].
Proof.
  induction l as [|y l IH]; intros Hnd Hin Hx; [by apply elem_of_nil in Hin|].
  rewrite fmap_cons in Hnd. apply NoDup_cons in Hnd as [Hy Hnd].
  rewrite filter_cons. apply elem_of_cons in Hin as [->|Hin].
  - rewrite decide_True by done. f_equal.
    clear IH Hnd. induction l as [|z l IH]; [done|].
    rewrite fmap_cons, not_elem_of_cons in Hy. destruct Hy as [Hne Hy].
    rewrite filter_cons, decide_False by congruence. by apply IH.
  - rewrite decide_False; [by apply IH|].
    intros Hyv. apply Hy. rewrite Hyv, <-Hx.
    apply list_elem_of_fmap. by exists x.
Qed.

(** The snapshots of a time are always replaced by one: the first of them
    in sort order, with the later ones merged into it. *)
Lemma deduplicate_same_time history t anchor later :
  same_time t (list_sort ts_key history) = anchor :: later ->
  same_time t (deduplicate history) = [foldl merge_into anchor later].
Proof.
  intros Hgroup.
  pose proof (seen_get_foldl t (list_sort ts_key history) []) as Hget.
  simpl in Hget. rewrite Hgroup in Hget. apply seen_get_Some in Hget.
  fold (seen_timestamps history) in Hget.
  destruct (seen_timestamps_ok history) as [_ Htime].
  apply filter_unique.
  - apply deduplicate_NoDup.
  - apply elem_of_deduplicate. exists t. split; [exact Hget|by apply Htime].
  - by apply Htime.
Qed.

(** C1.  Merging keeps the anchor's entry for every broker id, topic name
    and, inside a topic both have, partition id, and adds the entries only
    the later snapshot has.  For every history and every time [t] that
    occurs in it, the snapshots of the time [t] are replaced by exactly one
    retained snapshot: the first of them in sort order, with the later ones
    merged into it in that order; and every retained snapshot arises in this
    way.  The two-object scenario at time 100 loads as one snapshot that has
    the logical broker [b1/bootstrap] and partition [0] of topic [t1] with
    lag 5. *)
Theorem dedup_merges_into_anchor :
  (∀ existing stat,
      brokers (merge_into existing stat) = brokers existing ∪ brokers stat
      ∧ (∀ n, topics (merge_into existing stat) !! n
              = match topics existing !! n, topics stat !! n with
                | Some et, Some nt =>
                    Some {| tdata := tdata et; topic := topic et;
                            partitions := partitions et ∪ partitions nt |}
                | Some et, None => Some et
                | None, o => o
                end)
      ∧ time (merge_into existing stat) = time existing
      ∧ ts (merge_into existing stat) = ts existing
      ∧ type (merge_into existing stat) = type existing)
  ∧ (∀ history t anchor later,
      same_time t (list_sort ts_key history) = anchor :: later ->
      same_time t (deduplicate history) = [foldl merge_into anchor later])
  ∧ (∀ history r,
      r ∈ deduplicate history ->
      ∃ t anchor later,
        time r = Some t
        ∧ same_time t (list_sort ts_key history) = anchor :: later
        ∧ r = foldl merge_into anchor later)
  ∧ (∃ r,
      load_text fragmented_snapshot = Ok [r]
      ∧ time r = Some 100
      ∧ source <$> brokers r !! "b1/bootstrap" = Some (Some "logical")
      ∧ (t1 ← topics r !! "t1"; p ← partitions t1 !! "0";
         Some (consumer_lag p)) = Some 5).
Proof.
  split_and!.
  - intros existing stat. simpl. split_and!; try done.
    + apply merge_brokers_union.
    + intros n. apply merge_topics_lookup.
  - apply deduplicate_same_time.
  - apply deduplicate_group.
  - eexists. split; [vm_compute; reflexivity|]. vm_compute. done.
Qed.

Lemma dedup_merges_into_anchor_witness :
  ∃ history anchor stat,
    read_history PyJson.loads PyJson.raw_decode fragmented_snapshot
      = Ok history
    ∧ same_time 100 (list_sort ts_key history) = [anchor; stat]
    ∧ same_time 100 (deduplicate history) = [merge_into anchor stat].
Proof.
  assert (∃ history anchor stat,
            read_history PyJson.loads PyJson.raw_decode fragmented_snapshot
              = Ok history
            ∧ same_time 100 (list_sort ts_key history) = [anchor; stat])
    as (history & anchor & stat & Hread & Hgroup).
  { do 3 eexists. split; solve [vm_compute; reflexivity]. }
  exists history, anchor, stat. split; [exact Hread|]. split; [exact Hgroup|].
  exact (proj1 (proj2 dedup_merges_into_anchor) history 100 anchor [stat]
           Hgroup).
Defined.

(** ** Gaps, and what the rates hold instead *)

(** The rate at an index, from the state the loop is in there. *)
Lemma rates_lookup field b last_time last l i x :
  l !! i = Some x ->
  rates field b last_time last l !! i
  = Some (rate (counter_delta
                  match i with
                  | O => last
                  | S j => (fun y => current_counter field (brokers y.2 !! b))
                             <$> l !! j
                  end
                  (current_counter field (brokers x.2 !! b)))
               (time_delta_of
                  match i with
                  | O => last_time
                  | S j => default 0 (fst <$> l !! j)
                  end
                  x.1)).
Proof.
  revert last_time last l.
  induction i as [|i IH]; intros last_time last [|[t s] l]; try done.
  - by intros [= <-].
  - intros Hx. simpl in Hx. simpl. rewrite (IH _ _ _ Hx).
    by destruct i.
Qed.

Lemma broker_rates_at history d b bd i x :
  _get_time_series_data history = Some d ->
  Data.brokers d !! b = Some bd ->
  plottable_stats history !! i = Some x ->
  let pl := plottable_stats history in
  b_data.rx_rate bd !! i
    = Some (rate (counter_delta (last_counter rxbytes b pl i)
                                (current_counter rxbytes (brokers x.2 !! b)))
                 (time_delta_at pl i x.1))
  ∧ b_data.tx_rate bd !! i
    = Some (rate (counter_delta (last_counter txbytes b pl i)
                                (current_counter txbytes (brokers x.2 !! b)))
                 (time_delta_at pl i x.1)).
Proof.
  intros Hd Hbd Hx pl.
  destruct (broker_rate_series history d b bd Hd Hbd) as [-> ->].
  split; by rewrite (rates_lookup _ _ _ _ _ _ _ Hx).
Qed.

(** The entry with the key [k] under the topic [t] is what the iterations
    make of the empty entry, whatever topic the key was built from. *)
Lemma time_series_partition_run history d t pm k pd :
  _get_time_series_data history = Some d ->
  Data.topics d !! t = Some pm ->
  pm !! k = Some pd ->
  pd = run_partition t k (plottable_stats history) p_data.init
  ∧ String.prefix t k = true
  ∧ k ∈ all_partition_keys (plottable_stats history).
Proof.
  intros Hd Hpm Hpd. rewrite (time_series_topics history d t Hd) in Hpm.
  cbv zeta in Hpm. destruct (decide _); [|done]. injection Hpm as <-.
  rewrite run_topic_lookup, initial_topic_lookup in Hpd.
  destruct (decide _) as [[Hprefix Hk]|]; [|done]. by injection Hpd as <-.
Qed.

(** C3, as amended.  For a broker of the universe that a snapshot does not
    have, the series [rtt], [state], [throttle], [connects], [disconnects],
    [rxerrs] and [txerrs] get the gap marker at the index of that snapshot,
    while [rx_rate] and [tx_rate] get a number there: the rate computed
    with the counter of the missing broker read as 0.  In every entry of a
    partition, filed under the topic [t] with the key [k], the five series
    hold at every index what the snapshot reports for the partition of [t]
    named by the text after the last dash of [k], and the gap marker when
    the snapshot has no such partition.  So for a partition of the universe
    whose id has no dash, the entry under its own topic gets the gap marker
    at the index of every snapshot that does not have the partition. *)
Theorem absent_observations_are_gaps history d :
  _get_time_series_data history = Some d ->
  let pl := plottable_stats history in
  (∀ b i x,
      b ∈ all_broker_keys pl ->
      pl !! i = Some x ->
      brokers x.2 !! b = None ->
      ∃ bd,
        Data.brokers d !! b = Some bd
        ∧ b_data.rtt bd !! i = Some NaN
        ∧ b_data.state bd !! i = Some NaN
        ∧ b_data.throttle bd !! i = Some NaN
        ∧ b_data.connects bd !! i = Some NaN
        ∧ b_data.disconnects bd !! i = Some NaN
        ∧ b_data.rxerrs bd !! i = Some NaN
        ∧ b_data.txerrs bd !! i = Some NaN
        ∧ b_data.rx_rate bd !! i
          = Some (rate (counter_delta (last_counter rxbytes b pl i) 0)
                       (time_delta_at pl i x.1))
        ∧ b_data.tx_rate bd !! i
          = Some (rate (counter_delta (last_counter txbytes b pl i) 0)
                       (time_delta_at pl i x.1)))
  ∧ (∀ t pm k pd,
      Data.topics d !! t = Some pm ->
      pm !! k = Some pd ->
      ∃ before p,
        rsplit_dash k = Some (before, p)
        ∧ ∀ i x,
            pl !! i = Some x ->
            p_data.lag pd !! i
              = Some (part_value (partition_of x.2 t p) consumer_lag)
            ∧ p_data.lag_stored pd !! i
              = Some (part_value (partition_of x.2 t p) consumer_lag_stored)
            ∧ p_data.committed pd !! i
              = Some (part_value (partition_of x.2 t p) committed_offset)
            ∧ p_data.stored pd !! i
              = Some (part_value (partition_of x.2 t p) stored_offset)
            ∧ p_data.leader_epoch pd !! i
              = Some (part_value (partition_of x.2 t p)
                        committed_leader_epoch))
  ∧ (∀ t p i x,
      observed t p pl ->
      contains_dash p = false ->
      pl !! i = Some x ->
      partition_of x.2 t p = None ->
      ∃ pm pd,
        Data.topics d !! t = Some pm
        ∧ pm !! partition_key t p = Some pd
        ∧ p_data.lag pd !! i = Some NaN
        ∧ p_data.lag_stored pd !! i = Some NaN
        ∧ p_data.committed pd !! i = Some NaN
        ∧ p_data.stored pd !! i = Some NaN
        ∧ p_data.leader_epoch pd !! i = Some NaN).
Proof.
  intros Hd pl. split_and!.
  - intros b i x Hb Hx Hnone.
    destruct (absent_broker_series history d b i x Hd Hb Hx Hnone)
      as (bd & Hbd & H1 & H2 & H3 & H4 & H5 & H6 & H7 & _).
    destruct (broker_rates_at history d b bd i x Hd Hbd Hx) as [Hrx Htx].
    rewrite Hnone in Hrx, Htx. exists bd. split_and!; assumption.
  - intros t pm k pd Hpm Hpd.
    destruct (time_series_partition_run history d t pm k pd Hd Hpm Hpd)
      as (-> & _ & Hk).
    apply elem_of_all_partition_keys in Hk
      as (_ & t' & _ & p' & _ & _ & _ & _ & _ & ->).
    destruct (rsplit_dash_app t' p') as (before & p & Hsplit).
    exists before, p. split; [exact Hsplit|]. intros i x Hx.
    destruct (run_partition_series t (partition_key t' p')
                (plottable_stats history) p_data.init before p Hsplit)
      as (-> & -> & -> & -> & ->).
    simpl. fold pl. rewrite !list_lookup_fmap, Hx. done.
  - intros t p i x. by apply absent_partition_series.
Qed.

Lemma absent_observations_are_gaps_witness :
  (∃ d bd,
      _get_time_series_data broker_disappears = Some d
      ∧ Data.brokers d !! "b1" = Some bd
      ∧ b_data.rtt bd !! 1%nat = Some NaN
      ∧ b_data.connects bd !! 1%nat = Some NaN
      ∧ b_data.rx_rate bd !! 1%nat = Some (rate 0 30))
  ∧ (∃ d pm pd,
      _get_time_series_data prefix_partition = Some d
      ∧ Data.topics d !! "a" = Some pm
      ∧ pm !! "ab-7" = Some pd
      ∧ p_data.lag pd !! 0%nat = Some (num 3)
      ∧ p_data.lag pd !! 1%nat = Some (num 5))
  ∧ (∃ d pm pd,
      _get_time_series_data partition_disappears = Some d
      ∧ Data.topics d !! "t" = Some pm
      ∧ pm !! "t-0" = Some pd
      ∧ p_data.lag pd !! 1%nat = Some NaN
      ∧ p_data.committed pd !! 1%nat = Some NaN).
Proof.
  split_and!.
  - assert (∃ d, _get_time_series_data broker_disappears = Some d) as [d Hd].
    { eexists. vm_compute. reflexivity. }
    assert (∃ x, plottable_stats broker_disappears !! 1%nat = Some x
                 ∧ brokers x.2 !! "b1" = None
                 ∧ counter_delta
                     (last_counter rxbytes "b1"
                        (plottable_stats broker_disappears) 1) 0 = 0
                 ∧ time_delta_at (plottable_stats broker_disappears) 1 x.1
                   = 30) as (x & Hx & Hnone & Hdelta & Hdt).
    { eexists. split_and!; solve [vm_compute; reflexivity]. }
    assert (∃ x0 bs, plottable_stats broker_disappears !! 0%nat = Some x0
                     ∧ brokers x0.2 !! "b1" = Some bs
                     ∧ source bs ≠ Some "logical") as (x0 & bs & H0 & Hb & Hs).
    { do 2 eexists. split_and!; [vm_compute; reflexivity..|].
      vm_compute. discriminate. }
    destruct (proj1 (absent_observations_are_gaps broker_disappears d Hd)
                "b1" 1%nat x)
      as (bd & Hbd & Hrtt & _ & _ & Hconn & _ & _ & _ & Hrx & _);
      [|exact Hx|exact Hnone|].
    { apply elem_of_all_broker_keys. exists x0, bs.
      split_and!; [|exact Hb|exact Hs]. by eapply list_elem_of_lookup_2. }
    rewrite Hdelta, Hdt in Hrx. exists d, bd.
    split_and!; [exact Hd|exact Hbd|exact Hrtt|exact Hconn|exact Hrx].
  - assert (∃ d pm pd, _get_time_series_data prefix_partition = Some d
                       ∧ Data.topics d !! "a" = Some pm
                       ∧ pm !! "ab-7" = Some pd)
      as (d & pm & pd & Hd & Hpm & Hpd).
    { do 3 eexists. split_and!; solve [vm_compute; reflexivity]. }
    assert (∃ x0 x1,
              plottable_stats prefix_partition !! 0%nat = Some x0
              ∧ plottable_stats prefix_partition !! 1%nat = Some x1
              ∧ part_value (partition_of x0.2 "a" "7") consumer_lag = num 3
              ∧ part_value (partition_of x1.2 "a" "7") consumer_lag = num 5)
      as (x0 & x1 & Hx0 & Hx1 & Hv0 & Hv1).
    { do 2 eexists. split_and!; solve [vm_compute; reflexivity]. }
    destruct (proj1 (proj2 (absent_observations_are_gaps prefix_partition d
                              Hd)) "a" pm "ab-7" pd Hpm Hpd)
      as (before & p & Hsplit & Hvalues).
    assert (p = "7") as -> by (vm_compute in Hsplit; congruence).
    destruct (Hvalues 0%nat x0 Hx0) as (Hlag0 & _).
    destruct (Hvalues 1%nat x1 Hx1) as (Hlag1 & _).
    rewrite Hv0 in Hlag0. rewrite Hv1 in Hlag1. exists d, pm, pd.
    split_and!; [exact Hd|exact Hpm|exact Hpd|exact Hlag0|exact Hlag1].
  - assert (∃ d, _get_time_series_data partition_disappears = Some d)
      as [d Hd].
    { eexists. vm_compute. reflexivity. }
    assert (∃ x, plottable_stats partition_disappears !! 1%nat = Some x
                 ∧ partition_of x.2 "t" "0" = None) as (x & Hx & Hnone).
    { eexists. split; solve [vm_compute; reflexivity]. }
    assert (∃ x0 tst ps,
              plottable_stats partition_disappears !! 0%nat = Some x0
              ∧ topics x0.2 !! "t" = Some tst
              ∧ partitions tst !! "0" = Some ps
              ∧ partition ps ≠ Some (-1)) as (x0 & tst & ps & H0 & Ht & Hp & Hs).
    { do 3 eexists. split_and!; [vm_compute; reflexivity..|].
      vm_compute. discriminate. }
    destruct (proj2 (proj2 (absent_observations_are_gaps partition_disappears
                              d Hd)) "t" "0" 1%nat x)
      as (pm & pd & Hpm & Hpd & Hlag & _ & Hcom & _);
      [|reflexivity|exact Hx|exact Hnone|].
    { exists x0, tst, ps. split_and!; [|exact Ht|exact Hp|exact Hs].
      by eapply list_elem_of_lookup_2. }
    exists d, pm, pd.
    split_and!; [exact Hd|exact Hpm|exact Hpd|exact Hlag|exact Hcom].
Defined.

(** The claim C3 as written promises a gap marker in [rx_rate] and
    [tx_rate] too, and a gap marker in every series of a partition that a
    snapshot does not have.  A broker that is missing from a snapshot gets a
    number in [rx_rate] at that index.  The series of the partition [1-2]
    gets the lag of the partition [2] at the index of a snapshot that does
    not have [1-2].  And the series of the partition [7] of the topic [ab]
    that is filed under the topic [a] gets the lag of the partition [7] of
    [a] at the index of a snapshot in which [ab] has no partition. *)
Lemma absent_observation_without_gap :
  (∃ d bd x q,
      _get_time_series_data broker_disappears = Some d
      ∧ Data.brokers d !! "b1" = Some bd
      ∧ plottable_stats broker_disappears !! 1%nat = Some x
      ∧ brokers x.2 !! "b1" = None
      ∧ b_data.rx_rate bd !! 1%nat = Some (Num q))
  ∧ (∃ d pm pd x,
      _get_time_series_data dashed_partition = Some d
      ∧ Data.topics d !! "t" = Some pm
      ∧ pm !! partition_key "t" "1-2" = Some pd
      ∧ plottable_stats dashed_partition !! 1%nat = Some x
      ∧ partition_of x.2 "t" "1-2" = None
      ∧ p_data.lag pd !! 1%nat = Some (num 9))
  ∧ (∃ d pm pd x,
      _get_time_series_data prefix_partition = Some d
      ∧ Data.topics d !! "a" = Some pm
      ∧ pm !! partition_key "ab" "7" = Some pd
      ∧ plottable_stats prefix_partition !! 1%nat = Some x
      ∧ partition_of x.2 "ab" "7" = None
      ∧ p_data.lag pd !! 1%nat = Some (num 5)).
Proof.
  split_and!.
  - do 4 eexists. split_and!; solve [vm_compute; reflexivity].
  - do 4 eexists. split_and!; solve [vm_compute; reflexivity].
  - do 4 eexists. split_and!; solve [vm_compute; reflexivity].
Qed.

(** ** Insufficient data, and the exceptions of the builder *)

Lemma plottable_stats_times l :
  Forall (fun s => time s ≠ None) l ->
  (plottable_stats l).*1 = time_key <$> l.
Proof.
  induction 1 as [|s l Hs _ IH]; [done|].
  unfold plottable_stats, time_key in *. cbn.
  destruct (time s) as [t|]; [|done]. cbn. by f_equal.
Qed.

Lemma timestamps_error_None fromtimestamp_error times :
  timestamps_error fromtimestamp_error times = None
  <-> Forall (fun t => fromtimestamp_error t = None) times.
Proof.
  induction times as [|t times IH]; simpl; [by split; [constructor|]|].
  rewrite Forall_cons, <-IH.
  destruct (fromtimestamp_error t); split; (done || by intros [? ?] || auto).
Qed.

Lemma existsb_false {A} (f : A -> bool) (l : list A) :
  (∀ x, x ∈ l -> f x = false) -> existsb f l = false.
Proof.
  induction l as [|y l IH]; intros Hall; simpl; [done|].
  rewrite (Hall y) by left. apply IH. intros x Hx. apply Hall. by right.
Qed.

Lemma division_small a b :
  Z.abs a < 2 ^ 1001 -> 1 <= b -> division_overflows a b = false.
Proof.
  intros Ha Hb. unfold division_overflows. apply Z.leb_gt.
  assert (2 ^ 1001 <= 2 ^ 1024 - 2 ^ 970) as Hbound
    by (apply Z.leb_le; vm_compute; reflexivity).
  generalize dependent (2 ^ 1024 - 2 ^ 970). generalize dependent (2 ^ 1001).
  intros. nia.
Qed.

Lemma small_double a b : small a -> small b -> Z.abs (a - b) < 2 ^ 1001.
Proof.
  unfold small.
  assert (2 ^ 1001 = 2 * 2 ^ 1000) as -> by (vm_compute; reflexivity).
  generalize (2 ^ 1000). intros. lia.
Qed.

Lemma small_0 : small 0.
Proof. unfold small. apply Z.ltb_lt. vm_compute. reflexivity. Qed.

Lemma counter_delta_small last current :
  from_option small True last -> small current ->
  Z.abs (counter_delta last current) < 2 ^ 1001.
Proof.
  intros Hlast Hcurrent. unfold counter_delta.
  pose proof (small_double 0 0 small_0 small_0) as Hzero.
  destruct last as [previous|]; [|exact Hzero].
  destruct (previous <=? current); [|exact Hzero].
  by apply small_double.
Qed.

Lemma small_current s b field :
  small_counters s ->
  (∀ bs, small_broker bs -> small (field bs)) ->
  small (current_counter field (brokers s !! b)).
Proof.
  intros Hs Hfield. unfold current_counter.
  destruct (brokers s !! b) as [bs|] eqn:Hb; [|apply small_0].
  apply Hfield. by eapply Hs.
Qed.

Lemma step_overflows_small bk st x :
  small_state st -> small_counters x.2 -> step_overflows bk st x = false.
Proof.
  intros Hst Hx. destruct x as [stats_time s]. unfold step_overflows.
  apply existsb_false. intros b _.
  destruct (st_brokers st !! b) as [bd|] eqn:Hbd; [|done].
  destruct (Hst b bd Hbd) as [Hrx Htx].
  pose proof (time_delta_positive (last_time st) stats_time) as Hdelta.
  unfold update_overflows.
  assert (division_overflows
            (counter_delta (b_data.last_rxbytes bd)
               match brokers s !! b with
               | Some bs => rxbytes bs
               | None => 0
               end)
            (time_delta_of (last_time st) stats_time) = false) as ->.
  { apply division_small; [|done]. apply counter_delta_small; [done|].
    apply (small_current s b rxbytes Hx). by intros bs (? & _). }
  assert (division_overflows
            (counter_delta (b_data.last_txbytes bd)
               match brokers s !! b with
               | Some bs => txbytes bs
               | None => 0
               end)
            (time_delta_of (last_time st) stats_time) = false) as ->.
  { apply division_small; [|done]. apply counter_delta_small; [done|].
    apply (small_current s b txbytes Hx). by intros bs (_ & ? & _). }
  rewrite !orb_false_r.
  destruct (brokers s !! b) as [bs|] eqn:Hb; [|done].
  destruct (Hx b bs Hb) as (_ & _ & Hrtt & Hthrottle).
  assert (∀ z, small z -> division_overflows z 1000 = false) as Havg.
  { intros z Hz. apply division_small; [|done].
    pose proof (small_double z 0 Hz small_0) as H. by rewrite Z.sub_0_r in H. }
  destruct (rtt_avg bs) as [r|], (throttle_avg bs) as [th|]; simpl in *;
    rewrite ?Havg by done; done.
Qed.

Lemma series_step_small bk tk st x :
  small_state st -> small_counters x.2 ->
  small_state (series_step bk tk st x).
Proof.
  intros Hst Hx b bd'. destruct x as [stats_time s]. simpl.
  rewrite set_fold_alter. destruct (decide (b ∈ bk)); [|apply Hst].
  destruct (st_brokers st !! b) as [bd|] eqn:Hbd; [|done].
  intros [= <-]. simpl. split.
  - apply (small_current s b rxbytes Hx). by intros bs (? & _).
  - apply (small_current s b txbytes Hx). by intros bs (_ & ? & _).
Qed.

Lemma run_overflows_small bk tk l st :
  small_state st -> Forall (fun x => small_counters x.2) l ->
  run_overflows bk tk st l = false.
Proof.
  intros Hst Hl. revert st Hst.
  induction Hl as [|x l Hx _ IH]; intros st Hst; simpl; [done|].
  rewrite step_overflows_small by done. simpl.
  apply IH. by apply series_step_small.
Qed.

Lemma initial_state_small plottable : small_state (initial_state plottable).
Proof.
  intros b bd. simpl. intros [_ <-]%lookup_gset_to_gmap_Some. done.
Qed.

Lemma plottable_stats_small l :
  Forall small_counters l ->
  Forall (fun x => small_counters x.2) (plottable_stats l).
Proof.
  intros Hl. apply Forall_forall. intros [t s] [Hs _]%elem_of_plottable_stats.
  rewrite Forall_forall in Hl. by apply Hl.
Qed.

(** C4, as amended.  On what the loader returns, every snapshot has a time.
    The builder returns [None] exactly when fewer than 2 snapshots are left.
    With 2 or more it returns a dictionary when [datetime.fromtimestamp]
    accepts every time and no division overflows, which is so when all
    counters and averages are small; the dictionary has the list of the
    times, an entry for exactly the brokers some snapshot reports as not
    logical, an entry for exactly the topics some snapshot reports, in it a
    series for exactly the universe partition keys that start with the name
    of the topic, and every series is as long as the list of times.  When
    [datetime.fromtimestamp] rejects a time, the builder raises. *)
Theorem insufficient_data json_loads raw_decode fromtimestamp_error file
    retained :
  _load_stats json_loads raw_decode file = Ok retained ->
  let timestamped := plottable_stats retained in
  length timestamped = length retained
  ∧ (get_time_series_data fromtimestamp_error retained = Ok None
     <-> (length timestamped < 2)%nat)
  ∧ ((2 <= length timestamped)%nat ->
     Forall (fun s => fromtimestamp_error (time_key s) = None) retained ->
     Forall small_counters retained ->
     ∃ d,
       get_time_series_data fromtimestamp_error retained = Ok (Some d)
       ∧ Data.timestamps d = timestamped.*1
       ∧ (∀ b, is_Some (Data.brokers d !! b)
               <-> ∃ s bs, s ∈ retained ∧ brokers s !! b = Some bs
                           ∧ source bs ≠ Some "logical")
       ∧ (∀ b bd, Data.brokers d !! b = Some bd ->
                  broker_aligned (length timestamped) bd)
       ∧ (∀ t, is_Some (Data.topics d !! t)
               <-> ∃ s, s ∈ retained ∧ is_Some (topics s !! t))
       ∧ (∀ t pm, Data.topics d !! t = Some pm ->
            ∀ k, is_Some (pm !! k)
                 <-> String.prefix t k = true
                     ∧ ∃ t' p, k = partition_key t' p
                               ∧ observed t' p timestamped)
       ∧ (∀ t pm k pd, Data.topics d !! t = Some pm -> pm !! k = Some pd ->
                       partition_aligned (length timestamped) pd))
  ∧ ((2 <= length timestamped)%nat ->
     ∀ s e, s ∈ retained -> fromtimestamp_error (time_key s) = Some e ->
       ∃ e', get_time_series_data fromtimestamp_error retained = Raise e').
Proof.
  intros [history ->]%load_stats_Ok. cbv zeta.
  pose proof (deduplicate_timestamped history) as Htimed.
  set (retained := deduplicate history) in *.
  assert (length (plottable_stats retained) = length retained) as Hlen
    by by apply length_plottable_stats.
  assert ((plottable_stats retained).*1 = time_key <$> retained) as Htimes
    by by apply plottable_stats_times.
  rewrite Hlen. unfold get_time_series_data. rewrite Htimes.
  split_and!; [done| | |].
  - destruct (Nat.ltb_spec (length retained) 2) as [Hlt|Hge]; [done|].
    split; [|lia]. intros Hnone. exfalso.
    destruct (_get_time_series_data retained) as [d|] eqn:Hd.
    2:{ apply time_series_None in Hd. lia. }
    destruct (timestamps_error _ _); [done|].
    by destruct (run_overflows _ _ _ _).
  - intros Hge Hok Hsmall.
    destruct (Nat.ltb_spec (length retained) 2) as [Hlt|_]; [lia|].
    assert (timestamps_error fromtimestamp_error (time_key <$> retained)
            = None) as ->.
    { apply timestamps_error_None. by apply Forall_fmap. }
    rewrite run_overflows_small;
      [|apply initial_state_small|by apply plottable_stats_small].
    destruct (_get_time_series_data retained) as [d|] eqn:Hd.
    2:{ apply time_series_None in Hd. lia. }
    exists d. rewrite Forall_forall in Htimed.
    split_and!; [done|by rewrite <-Htimes; apply time_series_timestamps|..].
    + intros b. rewrite (time_series_broker_keys retained d b Hd). split.
      * intros (s & bs & Hs & _ & H). by exists s, bs.
      * intros (s & bs & Hs & H). exists s, bs. split; [done|].
        split; [by apply Htimed|done].
    + intros b bd Hbd. rewrite <-Hlen. by eapply time_series_broker_aligned.
    + intros t. rewrite (proj1 (time_series_topic_keys retained d t Hd)).
      split.
      * intros (s & Hs & _ & H). by exists s.
      * intros (s & Hs & H). exists s. split; [done|].
        split; [by apply Htimed|done].
    + intros t pm Hpm k.
      apply (proj2 (time_series_topic_keys retained d t Hd) pm Hpm k).
    + intros t pm k pd Hpm Hpd. rewrite <-Hlen.
      by eapply time_series_partition_aligned.
  - intros Hge s e Hs He.
    destruct (Nat.ltb_spec (length retained) 2) as [Hlt|_]; [lia|].
    destruct (timestamps_error fromtimestamp_error (time_key <$> retained))
      as [e'|] eqn:Herr; [by exists e'|].
    apply timestamps_error_None in Herr. rewrite Forall_fmap in Herr.
    rewrite Forall_forall in Herr. specialize (Herr s Hs). simpl in Herr.
    congruence.
Qed.

Lemma insufficient_data_witness :
  (∃ retained,
      load_text (PyJson.text "{'time':7}") = Ok retained
      ∧ length (plottable_stats retained) = 1%nat
      ∧ get_time_series_data utc_fromtimestamp_error retained = Ok None)
  ∧ (∃ retained d pm,
      load_text broker_and_partition = Ok retained
      ∧ length (plottable_stats retained) = 2%nat
      ∧ get_time_series_data utc_fromtimestamp_error retained = Ok (Some d)
      ∧ Data.timestamps d = [100; 130]
      ∧ is_Some (Data.brokers d !! "b1")
      ∧ Data.topics d !! "t" = Some pm
      ∧ is_Some (pm !! "t-0")).
Proof.
  split.
  - assert (∃ retained,
              load_text (PyJson.text "{'time':7}") = Ok retained
              ∧ length (plottable_stats retained) = 1%nat)
      as (retained & Hload & Hlen).
    { eexists. split; solve [vm_compute; reflexivity]. }
    exists retained. split; [exact Hload|]. split; [exact Hlen|].
    apply (insufficient_data PyJson.loads PyJson.raw_decode
             utc_fromtimestamp_error (Some (PyJson.text "{'time':7}"))
             retained Hload).
    rewrite Hlen. lia.
  - assert (∃ retained s1 s2 bs1 bs2 x tst ps,
              load_text broker_and_partition = Ok retained
              ∧ retained = [s1; s2]
              ∧ length (plottable_stats retained) = 2%nat
              ∧ (plottable_stats retained).*1 = [100; 130]
              ∧ utc_fromtimestamp_error (time_key s1) = None
              ∧ utc_fromtimestamp_error (time_key s2) = None
              ∧ brokers s1 = {["b1" := bs1]}
              ∧ brokers s2 = {["b1" := bs2]}
              ∧ source bs1 = None
              ∧ (rxbytes bs1 = 500 ∧ txbytes bs1 = 0
                 ∧ rtt_avg bs1 = None ∧ throttle_avg bs1 = None)
              ∧ (rxbytes bs2 = 900 ∧ txbytes bs2 = 0
                 ∧ rtt_avg bs2 = None ∧ throttle_avg bs2 = None)
              ∧ plottable_stats retained !! 0%nat = Some x
              ∧ x.2 = s1
              ∧ topics s1 !! "t" = Some tst
              ∧ partitions tst !! "0" = Some ps
              ∧ partition ps = Some 0)
      as (retained & s1 & s2 & bs1 & bs2 & x & tst & ps & Hload & Hret & Hlen
          & Htimes & Hok1 & Hok2 & Hb1 & Hb2 & Hsrc & Hsmall1 & Hsmall2
          & Hx & Hx1 & Ht & Hp & Hpart).
    { do 8 eexists. split_and!; solve [vm_compute; reflexivity]. }
    assert (∀ z, Z.abs z < 1000 -> small z) as Hsmall.
    { intros z Hz. unfold small.
      assert (1000 <= 2 ^ 1000) by (apply Z.leb_le; vm_compute; reflexivity).
      lia. }
    assert (∀ s bs, brokers s = {["b1" := bs]} ->
              rxbytes bs < 1000 ∧ 0 <= rxbytes bs ->
              txbytes bs = 0 ∧ rtt_avg bs = None ∧ throttle_avg bs = None ->
              small_counters s) as Hcounters.
    { intros s bs Hb [? ?] (Htx & Hrtt & Hth). unfold small_counters.
      rewrite Hb. apply map_Forall_singleton. unfold small_broker.
      rewrite Htx, Hrtt, Hth. simpl. split_and!; [|apply small_0|done..].
      apply Hsmall. lia. }
    destruct (proj1 (proj2 (proj2
                (insufficient_data PyJson.loads PyJson.raw_decode
                   utc_fromtimestamp_error (Some broker_and_partition)
                   retained Hload))))
      as (d & Hd & Hts & Hbrokers & _ & Htopics & Hkeys & _).
    { rewrite Hlen. lia. }
    { rewrite Hret.
      constructor; [exact Hok1|constructor; [exact Hok2|constructor]]. }
    { rewrite Hret. destruct Hsmall1 as (Hrx1 & H1), Hsmall2 as (Hrx2 & H2).
      constructor; [|constructor; [|constructor]].
      - apply (Hcounters s1 bs1 Hb1); [rewrite Hrx1; lia|exact H1].
      - apply (Hcounters s2 bs2 Hb2); [rewrite Hrx2; lia|exact H2]. }
    assert (s1 ∈ retained) as Hs1 by (rewrite Hret; left).
    assert (is_Some (Data.topics d !! "t")) as [pm Hpm].
    { apply Htopics. exists s1. split; [exact Hs1|]. by rewrite Ht. }
    exists retained, d, pm.
    split_and!; [exact Hload|exact Hlen|exact Hd| | |exact Hpm|].
    + rewrite Hts. exact Htimes.
    + apply Hbrokers. exists s1, bs1. split_and!; [exact Hs1| |].
      * rewrite Hb1. apply lookup_singleton_eq.
      * rewrite Hsrc. discriminate.
    + apply (Hkeys "t" pm Hpm). split; [reflexivity|].
      exists "t", "0". split; [reflexivity|]. exists x, tst, ps.
      split_and!; [by eapply list_elem_of_lookup_2| |exact Hp|].
      * rewrite Hx1. exact Ht.
      * rewrite Hpart. discriminate.
Defined.

(** The claim C4 as written promises a dictionary whenever 2 or more
    snapshots with a time are left.  Two snapshots, the second with a time
    in the year 11476, are both retained, and [datetime.fromtimestamp]
    raises on the second time. *)
Lemma bundle_not_produced :
  ∃ retained,
    load_text far_future = Ok retained
    ∧ length (plottable_stats retained) = 2%nat
    ∧ get_time_series_data utc_fromtimestamp_error retained
      = Raise ValueError.
Proof. eexists. split_and!; solve [vm_compute; reflexivity]. Qed.

(** * Further properties of the series and of the summary *)




(** What the iterations do to [leader_last]. *)
Lemma run_partition_leader_last t k l pd before p :
  rsplit_dash k = Some (before, p) ->
  p_data.leader_last (run_partition t k l pd)
  = match last (omap (fun x => valid_leader (partition_of x.2 t p)) l) with
    | Some ldr => Some ldr
    | None => p_data.leader_last pd
    end.
Proof.
  intros Hk. revert pd. induction l as [|x l IH]; intros pd; [done|].
  unfold run_partition in *. simpl. rewrite IH.
  unfold update_p_data at 1. rewrite Hk. simpl.
  unfold valid_leader, partition_of.
  destruct (topics x.2 !! t) as [tst|]; simpl; [|done].
  destruct (partitions tst !! p) as [ps|]; simpl; [|done].
  destruct (leader ps) as [ldr|]; simpl; [|done].
  destruct (decide (ldr ≠ -1)); simpl; [|done].
  rewrite last_cons. by destruct (last _).
Qed.

(** X12.  The leader shown for a partition is the leader of the last
    snapshot that has the partition with a leader other than -1; when no
    snapshot has one, there is none to show.  (The partition id must not
    contain a dash: the program recovers it from the key by splitting at
    the last dash.) *)
Theorem leader_last_is_the_last_valid_leader history d t p pm pd :
  _get_time_series_data history = Some d ->
  Data.topics d !! t = Some pm ->
  pm !! partition_key t p = Some pd ->
  contains_dash p = false ->
  p_data.leader_last pd
  = last (omap (fun x => valid_leader (partition_of x.2 t p))
               (plottable_stats history)).
Proof.
  intros Hd Hpm Hpd Hdash.
  destruct (time_series_partition_run history d t pm _ pd Hd Hpm Hpd)
    as (-> & _).
  rewrite (run_partition_leader_last _ _ _ _ t p
             (rsplit_dash_partition_key t p Hdash)).
  by destruct (last _).
Qed.

Lemma leader_last_is_the_last_valid_leader_witness :
  ∃ d pm pd, _get_time_series_data late_assignment = Some d
             ∧ Data.topics d !! "t" = Some pm
             ∧ pm !! "t-0" = Some pd
             ∧ p_data.leader_last pd = Some 4.
Proof.
  assert (∃ d pm pd, _get_time_series_data late_assignment = Some d
                     ∧ Data.topics d !! "t" = Some pm
                     ∧ pm !! partition_key "t" "0" = Some pd)
    as (d & pm & pd & Hd & Hpm & Hpd).
  { do 3 eexists. split_and!; solve [vm_compute; reflexivity]. }
  exists d, pm, pd. split_and!; [exact Hd|exact Hpm|exact Hpd|].
  rewrite (leader_last_is_the_last_valid_leader late_assignment d "t" "0"
             pm pd Hd Hpm Hpd eq_refl).
  vm_compute. reflexivity.
Defined.

Lemma last_of_sorted {A} (f : A -> Z) (l : list A) s r :
  StronglySorted Z.lt (f <$> l) -> last l = Some s -> r ∈ l ->
  r = s ∨ f r < f s.
Proof.
  induction l as [|x l IH]; intros Hsorted Hlast Hr; [done|].
  rewrite fmap_cons in Hsorted. apply StronglySorted_inv in Hsorted as [Hs Hx].
  rewrite last_cons in Hlast. destruct (last l) as [y|] eqn:Hy.
  - injection Hlast as ->. apply elem_of_cons in Hr as [->|Hr].
    + right. rewrite Forall_forall in Hx. apply Hx.
      apply list_elem_of_fmap. exists s. split; [done|].
      apply last_Some in Hy as [l' ->]. set_solver.
    + by apply IH.
  - injection Hlast as ->. apply last_None in Hy as ->.
    apply list_elem_of_singleton in Hr. by left.
Qed.

(** X13.  The summary describes the snapshot with the latest time: on what
    the loader returns, the last snapshot has a time, and every other
    retained snapshot has a strictly earlier one.  There is no latest
    snapshot only when nothing was retained. *)
Theorem latest_has_the_latest_time json_loads raw_decode file retained :
  _load_stats json_loads raw_decode file = Ok retained ->
  (latest retained = None <-> retained = [])
  ∧ ∀ s, latest retained = Some s ->
      ∃ t, time s = Some t
           ∧ ∀ r, r ∈ retained -> r = s ∨ time_key r < t.
Proof.
  intros [history ->]%load_stats_Ok. unfold latest. split.
  - apply last_None.
  - intros s Hlast.
    pose proof (deduplicate_timestamped history) as Htimed.
    rewrite Forall_forall in Htimed.
    assert (s ∈ deduplicate history) as Hs.
    { apply last_Some in Hlast as [l' ->]. set_solver. }
    specialize (Htimed s Hs). destruct (time s) as [t|] eqn:Ht; [|done].
    exists t. split; [done|]. intros r Hr.
    destruct (last_of_sorted time_key _ s r (deduplicate_strict history)
                Hlast Hr) as [->|Hlt]; [by left|right].
    unfold time_key in Hlt at 2. by rewrite Ht in Hlt.
Qed.

Lemma latest_has_the_latest_time_witness :
  ∃ retained s,
    load_text (PyJson.text "[{'time':3},{'time':1},{'time':3}]") = Ok retained
    ∧ latest retained = Some s
    ∧ time s = Some 3
    ∧ ∀ r, r ∈ retained -> r = s ∨ time_key r < 3.
Proof.
  assert (∃ retained s,
            load_text (PyJson.text "[{'time':3},{'time':1},{'time':3}]")
              = Ok retained
            ∧ latest retained = Some s ∧ time s = Some 3)
    as (retained & s & Hload & Hlast & Htime).
  { do 2 eexists. split_and!; solve [vm_compute; reflexivity]. }
  destruct (proj2 (latest_has_the_latest_time PyJson.loads PyJson.raw_decode
                     (Some (PyJson.text "[{'time':3},{'time':1},{'time':3}]"))
                     retained Hload) s Hlast) as (t & Ht & Hall).
  assert (t = 3) as -> by congruence.
  exists retained, s. split_and!; [exact Hload|exact Hlast|exact Htime|exact Hall].
Defined.

(** * Further properties of the diagnostics and of the plots *)

Lemma point_classes v :
  (is_valid v = true ∧ is_sentinel v = false ∧ is_gap v = false)
  ∨ (is_valid v = false ∧ is_sentinel v = true ∧ is_gap v = false)
  ∨ (is_valid v = false ∧ is_sentinel v = false ∧ is_gap v = true).
Proof.
  destruct v as [| |q]; simpl; [by right; right..|].
  destruct (Qeq_bool q (-1)), (Qeq_bool q (-1001)); simpl; tauto.
Qed.

Lemma length_three_filters values :
  length values
  = (length (filter (fun v => is_valid v = true) values)
     + length (filter (fun v => is_sentinel v = true) values)
     + length (filter (fun v => is_gap v = true) values))%nat.
Proof.
  induction values as [|v values IH]; [done|].
  rewrite !filter_cons. simpl.
  destruct (point_classes v) as [(-> & -> & ->)|[(-> & -> & ->)|(-> & -> & ->)]];
    simpl; lia.
Qed.

(** X14.  Every point of a series is exactly one of three things: valid,
    not assigned (-1 or -1001) or a gap ([None] or [nan]).  So the counts
    of the summary add up: total = valid + not_assigned + gaps.  The cell
    the CSV file shows for a point says which of the three it is: the value
    for a valid point, [Not Assigned] for a sentinel, nothing for a gap. *)
Theorem every_point_is_counted_once values :
  let s := series_stats values in
  stat.total s
  = (stat.valid s + stat.not_assigned s
     + length (filter (fun v => is_gap v = true) values))%nat
  ∧ ∀ v,
      (is_valid v = true <-> ∃ q, v = Num q ∧ csv_cell v = ValueCell q)
      ∧ (is_sentinel v = true <-> csv_cell v = NotAssignedCell)
      ∧ (is_gap v = true <-> csv_cell v = EmptyCell).
Proof.
  cbv zeta. split.
  - rewrite series_stats_total, series_stats_valid, series_stats_not_assigned.
    apply length_three_filters.
  - intros v. destruct v as [| |q]; simpl.
    + split_and!; split; try done. by intros (q & ? & _).
    + split_and!; split; try done. by intros (q & ? & _).
    + destruct (Qeq_bool q (-1)), (Qeq_bool q (-1001)); simpl;
        split_and!; split; try done; try (by intros (q' & _ & ?));
        intros _; by exists q.
Qed.

Lemma length_filter_all {A} (P : A -> Prop) `{!∀ x, Decision (P x)}
    (l : list A) :
  length (filter P l) = length l <-> Forall P l.
Proof.
  induction l as [|x l IH]; [by split; [constructor|]|].
  rewrite filter_cons, Forall_cons. pose proof (length_filter P l) as Hle.
  destruct (decide (P x)); simpl.
  - rewrite <-IH. split; [intros [= ?]; by split|intros [_ ->]; done].
  - split; [lia|tauto].
Qed.

(** X15.  The summary file says [All n points = Not Assigned] for a series
    exactly when every point of it is -1 or -1001, with [n] the number of
    points; this includes the series without any point.  It reports
    [not_assigned] beside the other counts exactly when the series has both
    a sentinel and a valid point. *)
Theorem summary_line_of_a_series values :
  (∀ n, summary values = AllNotAssigned n
        <-> n = length values
            ∧ Forall (fun v => is_sentinel v = true) values)
  ∧ (∀ s, summary values = WithNotAssigned s
          <-> s = series_stats values
              ∧ Exists (fun v => is_sentinel v = true) values
              ∧ Exists (fun v => is_valid v = true) values).
Proof.
  unfold summary. rewrite series_stats_not_assigned, series_stats_valid.
  assert (∀ (P : point -> Prop) `{!∀ x, Decision (P x)} (l : list point),
            (0 < length (filter P l))%nat <-> Exists P l) as Hpos.
  { intros P ? l. rewrite Exists_exists. split.
    - destruct (filter P l) as [|x l'] eqn:Hf; [simpl; lia|]. intros _.
      assert (x ∈ filter P l) as [? ?]%list_elem_of_filter
        by (rewrite Hf; left).
      by exists x.
    - intros (x & Hx & HP).
      assert (x ∈ filter P l) as Hin by by apply list_elem_of_filter.
      destruct (filter P l); [by apply elem_of_nil in Hin|simpl; lia]. }
  split.
  - intros n. rewrite <-length_filter_all.
    destruct (decide _) as [Hall|Hnot].
    + split; [intros [= <-]; done|intros [-> _]; done].
    + split; [|tauto]. destruct (decide _); done.
  - intros s. rewrite <-!Hpos.
    destruct (decide _) as [Hall|Hnot].
    + split; [done|]. intros (_ & _ & Hvalid). exfalso.
      apply length_filter_all in Hall.
      destruct (filter (fun v => is_valid v = true) values) as [|v l] eqn:Hf;
        [simpl in Hvalid; lia|].
      assert (v ∈ filter (fun v => is_valid v = true) values) as Hin
        by (rewrite Hf; left).
      apply list_elem_of_filter in Hin as [Hv Hin].
      rewrite Forall_forall in Hall. specialize (Hall v Hin).
      apply sentinel_not_valid in Hall. congruence.
    + destruct (decide _) as [Hboth|Hno].
      * split; [intros [= <-]; by split|intros [-> _]; done].
      * split; [done|]. intros (_ & H1 & H2). tauto.
Qed.

(** X16.  What is handed to the plot has the length of the series, holds no
    -1 and no -1001 (each is replaced by [nan], so no line is drawn through
    it), and has the valid points of the series unchanged and in place. *)
Theorem plot_values_hide_sentinels values :
  length (plot_values values) = length values
  ∧ Forall (fun v => is_sentinel v = false) (plot_values values)
  ∧ valid_points (plot_values values) = valid_points values
  ∧ ∀ i v, values !! i = Some v ->
      plot_values values !! i = Some (if is_sentinel v then NaN else v).
Proof.
  unfold plot_values, valid_points. split_and!.
  - apply length_fmap.
  - apply Forall_fmap, Forall_forall. intros v _. simpl.
    by destruct (is_sentinel v) eqn:Hs.
  - induction values as [|v values IH]; [done|].
    rewrite fmap_cons, !filter_cons, IH.
    destruct (point_classes v) as [(Hv & -> & _)|[(Hv & -> & _)|(Hv & -> & _)]];
      by rewrite ?Hv.
  - intros i v Hv. by rewrite list_lookup_fmap, Hv.
Qed.

(** X17.  A series is drawn with markers exactly when the debug output
    warns that it has fewer than 2 valid points, and the number of data
    points in its legend is the [valid] count of its statistics. *)
Theorem markers_match_the_hint values :
  let s := series_stats values in
  length (valid_points values) = stat.valid s
  ∧ (marker values = true <-> console_hint s = FewValidPoints (stat.valid s))
  ∧ (marker values = true <-> (stat.valid s < 2)%nat)
  ∧ (∀ n, legend_label true values = CountLegend n -> n = stat.valid s)
  ∧ (∀ n c, legend_label true values = ConstantLegend n c -> n = stat.valid s).
Proof.
  cbv zeta. unfold marker, console_hint, legend_label.
  rewrite series_stats_valid. fold (valid_points values).
  split_and!; [done| | | |].
  - destruct (Nat.ltb_spec (length (valid_points values)) 2).
    + by rewrite decide_True.
    + rewrite decide_False by lia. split; [done|].
      repeat case_match; done.
  - apply Nat.ltb_lt.
  - intros n. destruct (decide _); [done|].
    destruct (valid_points values) as [|c l]; [by intros [= <-]|].
    destruct (forallb _ _); [done|by intros [= <-]].
  - intros n c. destruct (decide _); [done|].
    destruct (valid_points values) as [|c' l]; [done|].
    destruct (forallb _ _); [by intros [= <- _]|done].
Qed.

Lemma existsb_Exists {A} (f : A -> bool) (l : list A) :
  existsb f l = true <-> Exists (fun x => f x = true) l.
Proof.
  induction l as [|x l IH]; simpl.
  - split; [done|by intros ?%Exists_nil].
  - rewrite Exists_cons, <-IH. destruct (f x); simpl; [tauto|].
    split; [tauto|by intros [?|?]].
Qed.





(** X19.  The plots of the two rates leave out no broker, whatever the
    options: every broker of the universe has a number in its rate series
    as soon as there is one snapshot with a time. *)
Theorem rate_plots_hide_no_broker history d :
  _get_time_series_data history = Some d ->
  plottable_stats history ≠ [] ->
  shown_series false (b_data.rx_rate <$> Data.brokers d)
  = b_data.rx_rate <$> Data.brokers d
  ∧ shown_series false (b_data.tx_rate <$> Data.brokers d)
    = b_data.tx_rate <$> Data.brokers d.
Proof.
  intros Hd Hne. unfold shown_series.
  assert (0 < length (plottable_stats history))%nat as Hlen
    by (destruct (plottable_stats history); [done|simpl; lia]).
  split; apply map_filter_id; intros b values;
    rewrite lookup_fmap_Some; intros (bd & <- & Hbd); simpl;
    destruct (broker_rate_series history d b bd Hd Hbd) as [Hrx Htx];
    apply existsb_Exists.
  - rewrite Hrx.
    destruct (rates_lookup_Num rxbytes b
                (first_time (plottable_stats history)) None
                (plottable_stats history) 0 Hlen) as [q Hq].
    apply Exists_exists. exists (Num q).
    split; [by eapply list_elem_of_lookup_2|done].
  - rewrite Htx.
    destruct (rates_lookup_Num txbytes b
                (first_time (plottable_stats history)) None
                (plottable_stats history) 0 Hlen) as [q Hq].
    apply Exists_exists. exists (Num q).
    split; [by eapply list_elem_of_lookup_2|done].
Qed.

Lemma rate_plots_hide_no_broker_witness :
  ∃ d, _get_time_series_data counter_reset = Some d
       ∧ shown_series false (b_data.rx_rate <$> Data.brokers d)
         = b_data.rx_rate <$> Data.brokers d.
Proof.
  assert (∃ d, _get_time_series_data counter_reset = Some d) as [d Hd].
  { eexists. vm_compute. reflexivity. }
  exists d. split; [exact Hd|].
  apply (rate_plots_hide_no_broker counter_reset d Hd).
  vm_compute. discriminate.
Defined.

(** ** The names of the debug files *)

Lemma slugify_from_safe in_run name :
  Forall (fun c => slug_char c = true)
         (list_ascii_of_string (slugify_from in_run name)).
Proof.
  revert in_run. induction name as [|c name IH]; intros in_run; simpl;
    [constructor|].
  destruct (slug_char c) eqn:Hc; simpl; [by constructor|].
  destruct in_run; [apply IH|]. simpl. by constructor.
Qed.

Lemma slugify_from_id in_run name :
  Forall (fun c => slug_char c = true) (list_ascii_of_string name) ->
  slugify_from in_run name = name.
Proof.
  revert in_run. induction name as [|c name IH]; intros in_run; simpl;
    [done|].
  intros [-> Hname]%Forall_cons. f_equal. by apply IH.
Qed.

Lemma slugify_from_length in_run name :
  (len (slugify_from in_run name) <= len name)%nat.
Proof.
  revert in_run. induction name as [|c name IH]; intros in_run; simpl;
    [done|].
  destruct (slug_char c); simpl; [specialize (IH false); lia|].
  destruct in_run; simpl; specialize (IH true); lia.
Qed.

(** X20.  The name of a debug file holds only letters, digits, dots,
    underscores and dashes, so no path separator and no blank, and is never
    longer than the title it is made from.  A title that holds only such
    characters is kept as it is, and only such a title; making the name of
    a name changes nothing. *)
Theorem slug_is_a_safe_name name :
  Forall (fun c => slug_char c = true) (list_ascii_of_string (_slugify name))
  ∧ (len (_slugify name) <= len name)%nat
  ∧ (_slugify name = name
     <-> Forall (fun c => slug_char c = true) (list_ascii_of_string name))
  ∧ _slugify (_slugify name) = _slugify name.
Proof.
  unfold _slugify. split_and!.
  - apply slugify_from_safe.
  - apply slugify_from_length.
  - split; [|apply slugify_from_id].
    intros Heq. rewrite <-Heq. apply slugify_from_safe.
  - apply slugify_from_id, slugify_from_safe.
Qed.

(** ** The values and the indexes of the valid points *)

Lemma omap_lookup_pairs (values : list point) (l : list (nat * point)) :
  Forall (fun iv => values !! iv.1 = Some iv.2) l ->
  omap (fun i => v ← values !! i; point_value v) l.*1
  = omap (fun iv => point_value iv.2) l.
Proof.
  induction 1 as [|[i v] l Hiv _ IH]; [done|].
  rewrite fmap_cons. cbn [omap list_omap fst snd] in *. rewrite Hiv.
  cbn [mbind option_bind]. destruct (point_value v); by rewrite <-?IH.
Qed.

Lemma omap_filter_imap (g : nat -> nat) (l : list point) :
  omap (fun iv : nat * point => point_value iv.2)
       (filter (fun iv : nat * point => is_valid iv.2 = true)
               (imap (fun i x => (g i, x)) l))
  = omap point_value (filter (fun v => is_valid v = true) l).
Proof.
  revert g. induction l as [|x l IH]; intros g; [done|].
  cbn [imap]. rewrite !filter_cons. simpl.
  destruct (decide (is_valid x = true)); simpl;
    [destruct (point_value x); [f_equal|]|]; apply (IH (fun i => g (S i))).
Qed.

(** [vals] in [_series_stats]: the values of the valid points. *)
Lemma series_vals values :
  omap (fun i => v ← values !! i; point_value v) (valid_idx values)
  = omap point_value (valid_points values).
Proof.
  unfold valid_idx, valid_points. rewrite omap_lookup_pairs.
  - exact (omap_filter_imap id values).
  - apply Forall_forall. intros [i v] [_ Hin]%list_elem_of_filter.
    apply elem_of_lookup_imap in Hin as (j & w & [= -> ->] & Hw). exact Hw.
Qed.

Lemma Qmin_cases a b : Qmin a b = a ∨ Qmin a b = b.
Proof.
  unfold Qmin, GenericMinMax.gmin. destruct (a ?= b)%Q; auto.
Qed.

Lemma Qmax_cases a b : Qmax a b = a ∨ Qmax a b = b.
Proof.
  unfold Qmax, GenericMinMax.gmax. destruct (a ?= b)%Q; auto.
Qed.

Lemma foldl_Qmin v rest :
  foldl Qmin v rest ∈ v :: rest
  ∧ ∀ q, q ∈ v :: rest -> (foldl Qmin v rest <= q)%Q.
Proof.
  revert v. induction rest as [|x rest IH]; intros v; simpl.
  - split; [left|]. intros q ->%list_elem_of_singleton. apply Qle_refl.
  - destruct (IH (Qmin v x)) as [Hin Hle]. split.
    + apply elem_of_cons in Hin as [->|Hin]; [|by do 2 right].
      destruct (Qmin_cases v x) as [->| ->]; [left|right; left].
    + intros q Hq.
      assert (foldl Qmin (Qmin v x) rest <= Qmin v x)%Q as Hm
        by (apply Hle; left).
      apply elem_of_cons in Hq as [->|Hq].
      * eapply Qle_trans; [exact Hm|apply Q.le_min_l].
      * apply elem_of_cons in Hq as [->|Hq].
        -- eapply Qle_trans; [exact Hm|apply Q.le_min_r].
        -- apply Hle. by right.
Qed.

Lemma foldl_Qmax v rest :
  foldl Qmax v rest ∈ v :: rest
  ∧ ∀ q, q ∈ v :: rest -> (q <= foldl Qmax v rest)%Q.
Proof.
  revert v. induction rest as [|x rest IH]; intros v; simpl.
  - split; [left|]. intros q ->%list_elem_of_singleton. apply Qle_refl.
  - destruct (IH (Qmax v x)) as [Hin Hle]. split.
    + apply elem_of_cons in Hin as [->|Hin]; [|by do 2 right].
      destruct (Qmax_cases v x) as [->| ->]; [left|right; left].
    + intros q Hq.
      assert (Qmax v x <= foldl Qmax (Qmax v x) rest)%Q as Hm
        by (apply Hle; left).
      apply elem_of_cons in Hq as [->|Hq].
      * eapply Qle_trans; [apply Q.le_max_l|exact Hm].
      * apply elem_of_cons in Hq as [->|Hq].
        -- eapply Qle_trans; [apply Q.le_max_r|exact Hm].
        -- apply Hle. by right.
Qed.

Lemma elem_of_valid_values values q :
  q ∈ omap point_value (valid_points values)
  <-> Num q ∈ values ∧ is_valid (Num q) = true.
Proof.
  unfold valid_points. rewrite list_elem_of_omap. split.
  - intros (v & [Hv Hin]%list_elem_of_filter & Hq).
    destruct v; simplify_eq/=. done.
  - intros [Hin Hv]. exists (Num q). split; [|done].
    by apply list_elem_of_filter.
Qed.

Lemma length_valid_values values :
  length (omap point_value (valid_points values))
  = length (filter (fun v => is_valid v = true) values).
Proof.
  unfold valid_points. induction values as [|v values IH]; [done|].
  rewrite filter_cons. destruct (decide (is_valid v = true)); [|done].
  destruct v; try done. simpl. by f_equal.
Qed.

Lemma series_stats_extremes values :
  let s := series_stats values in
  stat.valid s ≠ O ->
  ∃ vmin vmax,
    stat.min s = Some vmin ∧ stat.max s = Some vmax
    ∧ stat.constant s = Some (allclose vmin vmax)
    ∧ Num vmin ∈ values ∧ is_valid (Num vmin) = true
    ∧ Num vmax ∈ values ∧ is_valid (Num vmax) = true
    ∧ (∀ q, Num q ∈ values -> is_valid (Num q) = true ->
            (vmin <= q)%Q ∧ (q <= vmax)%Q).
Proof.
  cbv zeta. unfold series_stats. rewrite series_vals.
  destruct (decide (length (valid_idx values) ≠ O)) as [Hne|Heq]; simpl;
    [|done].
  intros _. pose proof (length_valid_values values) as Hlen.
  rewrite <-length_valid_idx in Hlen.
  destruct (omap point_value (valid_points values)) as [|v rest] eqn:Hvals;
    [simpl in Hlen; lia|].
  destruct (foldl_Qmin v rest) as [Hmin_in Hmin_le].
  destruct (foldl_Qmax v rest) as [Hmax_in Hmax_le].
  rewrite <-Hvals in Hmin_in, Hmin_le, Hmax_in, Hmax_le.
  apply elem_of_valid_values in Hmin_in as [? ?].
  apply elem_of_valid_values in Hmax_in as [? ?].
  exists (foldl Qmin v rest), (foldl Qmax v rest). simpl.
  split_and!; try done.
  intros q Hq Hv. split; [apply Hmin_le|apply Hmax_le];
    by apply elem_of_valid_values.
Qed.

Lemma series_stats_indexes values :
  let s := series_stats values in
  stat.valid s ≠ O ->
  ∃ first_i last_i,
    stat.first_idx s = Some first_i ∧ stat.last_idx s = Some last_i
    ∧ (∃ v, values !! first_i = Some v ∧ is_valid v = true)
    ∧ (∃ v, values !! last_i = Some v ∧ is_valid v = true).
Proof.
  cbv zeta. unfold series_stats.
  destruct (decide (length (valid_idx values) ≠ O)) as [Hne|Heq]; simpl;
    [|done].
  intros _.
  assert (∀ i, i ∈ valid_idx values ->
               ∃ v, values !! i = Some v ∧ is_valid v = true) as Hidx.
  { intros i Hi. unfold valid_idx in Hi.
    apply list_elem_of_fmap in Hi as ([j v] & -> & [Hv Hin]%list_elem_of_filter).
    apply elem_of_lookup_imap in Hin as (j' & w & [= -> ->] & Hw).
    by exists w. }
  destruct (valid_idx values) as [|i l] eqn:Hl; [done|].
  destruct (last (i :: l)) as [j|] eqn:Hlast;
    [|by apply last_None in Hlast].
  exists i, j. simpl. split_and!; try done.
  - apply Hidx. left.
  - apply Hidx. apply last_Some in Hlast as [l' ->]. set_solver.
Qed.

(** X21.  When a series has a valid point, [min] and [max] of its
    statistics are values of valid points of the series, and every valid
    point lies between them; [first_idx] and [last_idx] are indexes of
    valid points.  When it has none, the four are [None], and so is
    [constant]. *)
Theorem extremes_of_a_series values :
  let s := series_stats values in
  (stat.valid s = O ->
   stat.min s = None ∧ stat.max s = None ∧ stat.constant s = None
   ∧ stat.first_idx s = None ∧ stat.last_idx s = None)
  ∧ (stat.valid s ≠ O ->
     ∃ vmin vmax first_i last_i,
       stat.min s = Some vmin ∧ stat.max s = Some vmax
       ∧ stat.constant s = Some (allclose vmin vmax)
       ∧ Num vmin ∈ values ∧ is_valid (Num vmin) = true
       ∧ Num vmax ∈ values ∧ is_valid (Num vmax) = true
       ∧ (∀ q, Num q ∈ values -> is_valid (Num q) = true ->
               (vmin <= q)%Q ∧ (q <= vmax)%Q)
       ∧ stat.first_idx s = Some first_i ∧ stat.last_idx s = Some last_i
       ∧ (∃ v, values !! first_i = Some v ∧ is_valid v = true)
       ∧ (∃ v, values !! last_i = Some v ∧ is_valid v = true)).
Proof.
  cbv zeta. split.
  - unfold series_stats.
    destruct (decide (length (valid_idx values) ≠ O)); simpl; done.
  - intros Hne.
    destruct (series_stats_extremes values Hne)
      as (vmin & vmax & H1 & H2 & H3 & H4 & H5 & H6 & H7 & H8).
    destruct (series_stats_indexes values Hne)
      as (first_i & last_i & H9 & H10 & H11 & H12).
    exists vmin, vmax, first_i, last_i. split_and!; assumption.
Qed.

Lemma allclose_same a b : (a == b)%Q -> allclose a b = true.
Proof.
  intros Hab. unfold allclose. apply Qle_bool_iff.
  assert (Qabs (a - b) == 0)%Q as ->.
  { rewrite Hab. unfold Qminus. rewrite Qplus_opp_r. reflexivity. }
  assert (0 <= (1 # 100000) * Qabs b)%Q as Hnonneg
    by (apply Qmult_le_0_compat; [done|apply Qabs_nonneg]).
  assert (0 == 0 + 0)%Q as -> by reflexivity.
  apply Qplus_le_compat; [done|exact Hnonneg].
Qed.

(** X22.  When the legend of a series says [constant=v], the statistics of
    the series agree: [v] is a valid point, every valid point equals it,
    the number of data points is the [valid] count, [min] and [max] equal
    [v], and [constant] is true.  (The converse does not hold: the
    statistics compare [min] and [max] up to a tolerance, the legend
    compares the points exactly.) *)
Theorem constant_legend_means_constant_statistics values n c :
  legend_label true values = ConstantLegend n c ->
  let s := series_stats values in
  ∃ q vmin vmax,
    c = Num q ∧ is_valid c = true ∧ c ∈ values
    ∧ n = stat.valid s
    ∧ (∀ q', Num q' ∈ values -> is_valid (Num q') = true -> (q' == q)%Q)
    ∧ stat.min s = Some vmin ∧ (vmin == q)%Q
    ∧ stat.max s = Some vmax ∧ (vmax == q)%Q
    ∧ stat.constant s = Some true.
Proof.
  intros Hlegend. cbv zeta. unfold legend_label in Hlegend.
  destruct (decide _) as [|_]; [done|].
  destruct (valid_points values) as [|c' l] eqn:Hvp; [done|].
  destruct (forallb _ _) eqn:Hall; [|done]. injection Hlegend as <- <-.
  assert (∀ v, v ∈ valid_points values -> v ∈ values ∧ is_valid v = true)
    as Hvalid.
  { intros v [? ?]%list_elem_of_filter. done. }
  destruct (Hvalid c') as [Hc Hcv]; [rewrite Hvp; left|].
  destruct c' as [| |q]; try done.
  assert (∀ q', Num q' ∈ values -> is_valid (Num q') = true -> (q' == q)%Q)
    as Hsame.
  { intros q' Hin Hv.
    assert (Num q' ∈ valid_points values) as Hq'
      by by apply list_elem_of_filter.
    rewrite Hvp in Hq'. rewrite forallb_forall in Hall.
    apply list_elem_of_In, Hall in Hq'. simpl in Hq'.
    by apply Qeq_bool_iff. }
  assert (stat.valid (series_stats values) ≠ O) as Hne.
  { rewrite series_stats_valid. fold (valid_points values). by rewrite Hvp. }
  destruct (series_stats_extremes values Hne)
    as (vmin & vmax & Hmin & Hmax & Hconst & Hmin_in & Hmin_v & Hmax_in
        & Hmax_v & _).
  pose proof (Hsame vmin Hmin_in Hmin_v) as Hminq.
  pose proof (Hsame vmax Hmax_in Hmax_v) as Hmaxq.
  exists q, vmin, vmax. split_and!; try done.
  - rewrite series_stats_valid. fold (valid_points values). by rewrite Hvp.
  - rewrite Hconst, allclose_same; [done|]. by rewrite Hminq, Hmaxq.
Qed.

Lemma constant_legend_means_constant_statistics_witness :
  let values := [num 5; NaN; num (-1); num 5] in
  legend_label true values = ConstantLegend 2 (num 5)
  ∧ stat.valid (series_stats values) = 2%nat
  ∧ stat.constant (series_stats values) = Some true.
Proof.
  intros values.
  assert (legend_label true values = ConstantLegend 2 (num 5)) as Hlegend
    by (vm_compute; reflexivity).
  destruct (constant_legend_means_constant_statistics values 2 (num 5)
              Hlegend) as (q & vmin & vmax & _ & _ & _ & Hn & _ & _ & _ & _
                           & _ & Hconst).
  split_and!; [exact Hlegend|by symmetry|exact Hconst].
Defined.

(** ** What a plot shows when nothing is valid *)

Lemma all_values_spec data_map :
  Forall (fun v => is_valid v = true) (all_values data_map)
  ∧ (all_values data_map = []
     <-> map_Forall (fun _ values => valid_points values = []) data_map).
Proof.
  unfold all_values.
  apply (map_fold_weak_ind
           (fun (r : list point) (m : gmap string (list point)) =>
              Forall (fun v => is_valid v = true) r
              ∧ (r = [] <-> map_Forall (fun _ values => valid_points values = [])
                              m))).
  - split; [constructor|]. split; [intros _; apply map_Forall_empty|done].
  - intros k values m r Hk [Hvalid Hempty]. split.
    + apply Forall_app. split; [done|]. unfold valid_points.
      apply Forall_forall. by intros v [? _]%list_elem_of_filter.
    + rewrite map_Forall_insert by done. rewrite <-Hempty.
      split; [by intros [-> ->]%app_eq_nil|by intros [-> ->]].
Qed.

Lemma valid_points_are_numbers l :
  Forall (fun v => is_valid v = true) l ->
  filter (fun v => is_number v = true) l = l.
Proof.
  induction 1 as [|v l Hv _ IH]; [done|].
  rewrite filter_cons, decide_True by (by destruct v). by rewrite IH.
Qed.

Lemma no_data_available_spec data_map :
  no_data_available data_map = true
  <-> map_Forall (fun _ values => stat.valid (series_stats values) = O)
                 data_map.
Proof.
  unfold no_data_available. rewrite bool_decide_eq_true.
  destruct (all_values_spec data_map) as [Hvalid Hempty].
  rewrite (valid_points_are_numbers _ Hvalid).
  rewrite Hempty.
  assert (∀ values, valid_points values = []
                    <-> stat.valid (series_stats values) = O) as Hiff.
  { intros values. rewrite series_stats_valid. fold (valid_points values).
    split; [by intros ->|]. by destruct (valid_points values). }
  split; intros Hall k values Hk; apply Hiff; by apply (Hall k).
Qed.

(** X23.  A plot shows [No Data Available] exactly when no series of it has
    a valid point.  Leaving out the series without points changes neither
    this nor the number of constant series the annotation reports. *)
Theorem the_filter_changes_no_count d_map show_empty :
  (no_data_available d_map = true
   <-> map_Forall (fun _ values => stat.valid (series_stats values) = O)
                  d_map)
  ∧ no_data_available (shown_series show_empty d_map)
    = no_data_available d_map
  ∧ constants (shown_series show_empty d_map) = constants d_map.
Proof.
  split; [apply no_data_available_spec|].
  destruct show_empty; [done|]. unfold shown_series.
  assert (∀ k values, d_map !! k = Some values ->
            stat.valid (series_stats values) ≠ O ->
            existsb is_number values = true) as Hkept.
  { intros k values Hk Hne. apply existsb_Exists.
    rewrite series_stats_valid in Hne.
    destruct (filter (fun v => is_valid v = true) values) as [|v l] eqn:Hf;
      [done|].
    assert (v ∈ filter (fun v => is_valid v = true) values) as Hin
      by (rewrite Hf; left).
    apply list_elem_of_filter in Hin as [Hv Hin].
    apply Exists_exists. exists v. split; [done|]. by destruct v. }
  split.
  - apply eq_true_iff_eq. rewrite !no_data_available_spec.
    split; intros Hall k values Hk.
    + destruct (decide (stat.valid (series_stats values) = O)) as [|Hne];
        [done|].
      apply (Hall k). apply map_lookup_filter_Some. split; [done|].
      by apply (Hkept k).
    + apply map_lookup_filter_Some in Hk as [Hk _]. by apply (Hall k).
  - unfold constants, _series_stats. f_equal. apply map_eq. intros k.
    apply option_eq. intros s.
    rewrite !map_lookup_filter_Some, !lookup_fmap_Some. simpl. split.
    + intros [(values & <- & [Hk _]%map_lookup_filter_Some) HP].
      split; [by exists values|done].
    + intros [(values & <- & Hk) [Hpos Hconst]]. split; [|done].
      exists values. split; [done|]. apply map_lookup_filter_Some.
      split; [done|]. simpl. apply (Hkept k); [done|lia].
Qed.
